(** * Type guards, detailed validation and the audited user store

    A shallow embedding of the validation engine of
    [detailed-type-guards.ts], of the simple predicates of
    [type-guards-examples.ts] and of the [UserService] class of
    [express-type-guards.ts], with the properties of the store and of
    the validators proved over it.

    Conventions of the embedding:
    - a JavaScript value is a term of [value]; strings are sequences of
      UTF-16 code units; a number is NaN, an infinity or a finite
      rational (arithmetic on finite numbers is exact, which is what
      binary64 computes on integers of magnitude below 2^53);
    - an object is the finite map of its own enumerable string-keyed
      properties; the prototype chain carries none of the property names
      the guards look at, so [k in o] and [o.k] are lookups in that map;
    - the user objects held by the service live in a heap and are named
      by locations: the service stores, returns and logs references;
    - [Date.now()] and [Math.random()] read from two sources carried by
      the system state, so that every operation is a function;
    - the methods of the service are [async] but suspend nowhere except
      on [await this.getUserById(id)], which only reads: an operation is
      one step on the state;
    - no guard or validator throws on a value of the embedding, so the
      [catch] branches of the service (CREATE_ERROR, QUERY_ERROR,
      UPDATE_ERROR, DELETE_ERROR) are not reached and are left out;
    - the assertion functions throw by design: they return an [Outcome],
      a value or the error thrown; what they print is not modelled.

    Sections 7b and 10 to 14 cover the rest of the service
    ([deleteUser], [getEvents], the status codes of the controllers and
    the request middleware), the other validators ([isAPIEvent],
    [isAdminUser], [isRegularUser], the assertion functions, the two
    regular expressions) and the form and the reducer of the React
    front end. *)

From Stdlib Require Import ZArith QArith Ascii String DecimalString Permutation Sorted.
From stdpp Require Import gmap list fin_maps.

#[local] Set Warnings "-register-all".
#[local] Close Scope Q_scope.
#[local] Open Scope string_scope.
#[local] Open Scope list_scope.
#[local] Open Scope nat_scope.

(* ===================================================================== *)
(** * 1. JavaScript data *)
(* ===================================================================== *)

(** ** Strings *)

Abbreviation jsstring := (list N).

(** A string literal of the source, as code units. *)
Definition js (s : string) : jsstring := N_of_ascii <$> list_ascii_of_string s.

(** WhiteSpace and LineTerminator code points of ECMAScript: the
    characters [String.prototype.trim] strips and [\s] matches. *)
Definition isWhiteSpace (c : N) : bool :=
  existsb (N.eqb c)
    [0x9; 0xA; 0xB; 0xC; 0xD; 0x20; 0xA0; 0x1680;
     0x2000; 0x2001; 0x2002; 0x2003; 0x2004; 0x2005; 0x2006; 0x2007;
     0x2008; 0x2009; 0x200A; 0x2028; 0x2029; 0x202F; 0x205F; 0x3000;
     0xFEFF]%N.

Fixpoint dropWhile {A} (p : A -> bool) (l : list A) : list A :=
  match l with
  | [] => []
  | x :: l' => if p x then dropWhile p l' else l
  end.

Definition trimStart (s : jsstring) : jsstring := dropWhile isWhiteSpace s.
Definition trimEnd (s : jsstring) : jsstring := rev (dropWhile isWhiteSpace (rev s)).
Definition trim (s : jsstring) : jsstring := trimEnd (trimStart s).

(** Decimal rendering of an integer, as a template literal prints it. *)
Definition decimal (z : Z) : jsstring := js (NilZero.string_of_int (Z.to_int z)).

(** [l.join(sep)] on an array of strings *)
Fixpoint join (sep : jsstring) (l : list jsstring) : jsstring :=
  match l with
  | [] => []
  | [x] => x
  | x :: rest => x ++ sep ++ join sep rest
  end.

(** ** Numbers *)

Inductive number :=
| NaN
| Infinity
| NegInfinity
| Finite (q : Q).

Definition num (z : Z) : number := Finite (inject_Z z).

Definition isNaN (n : number) : bool :=
  match n with NaN => true | _ => false end.

Definition isFinite (n : number) : bool :=
  match n with Finite _ => true | _ => false end.

Definition Qltb (a b : Q) : bool :=
  match Qcompare a b with Lt => true | _ => false end.

(** [a < b] on numbers: false as soon as one side is NaN. *)
Definition num_lt (a b : number) : bool :=
  match a, b with
  | NaN, _ | _, NaN => false
  | _, NegInfinity => false
  | NegInfinity, _ => true
  | Infinity, _ => false
  | Finite _, Infinity => true
  | Finite x, Finite y => Qltb x y
  end.

Definition num_gt (a b : number) : bool := num_lt b a.

(** [Number.isInteger] *)
Definition Number_isInteger (n : number) : bool :=
  match n with
  | Finite q => (Z.rem (Qnum q) (Z.pos (Qden q)) =? 0)%Z
  | _ => false
  end.

(** ToBoolean on a number: [0] and [NaN] are falsy. *)
Definition num_truthy (n : number) : bool :=
  match n with
  | NaN => false
  | Finite q => negb (Qnum q =? 0)%Z
  | _ => true
  end.

(** Difference, sum and product.  On finite numbers they are the exact
    rational result.  The source computes in binary64, which rounds the
    exact result to the nearest binary64 number: the two agree whenever
    the exact result is a binary64 number, as it is on integers of
    magnitude below 2^53 and on the dyadic fractions of the examples
    (1.5), and they can differ elsewhere (a limit of 0.3).  The
    properties of [getUsers] that depend on the indices are therefore
    stated for an integral page and limit. *)
Definition num_sub (a b : number) : number :=
  match a, b with
  | Finite x, Finite y => Finite (Qminus x y)
  | NaN, _ | _, NaN => NaN
  | Infinity, Infinity | NegInfinity, NegInfinity => NaN
  | Infinity, _ | _, NegInfinity => Infinity
  | NegInfinity, _ | _, Infinity => NegInfinity
  end.

Definition num_add (a b : number) : number :=
  match a, b with
  | Finite x, Finite y => Finite (Qplus x y)
  | NaN, _ | _, NaN => NaN
  | Infinity, NegInfinity | NegInfinity, Infinity => NaN
  | Infinity, _ | _, Infinity => Infinity
  | NegInfinity, _ | _, NegInfinity => NegInfinity
  end.

Definition Qsgn (q : Q) : Z := Z.sgn (Qnum q).

Definition num_mul (a b : number) : number :=
  match a, b with
  | Finite x, Finite y => Finite (Qmult x y)
  | NaN, _ | _, NaN => NaN
  | Finite x, Infinity | Infinity, Finite x =>
      match Qsgn x with 0%Z => NaN | Z.pos _ => Infinity | Z.neg _ => NegInfinity end
  | Finite x, NegInfinity | NegInfinity, Finite x =>
      match Qsgn x with 0%Z => NaN | Z.pos _ => NegInfinity | Z.neg _ => Infinity end
  | Infinity, Infinity | NegInfinity, NegInfinity => Infinity
  | Infinity, NegInfinity | NegInfinity, Infinity => NegInfinity
  end.

(** ** Values *)

Inductive value :=
| VUndefined
| VNull
| VBool (b : bool)
| VNum (n : number)
| VStr (s : jsstring)
| VFunction
| VDate (time : option Z)      (* [None]: an invalid Date, time value NaN *)
| VArr (items : list value)
| VObj (plain : bool) (props : gmap jsstring value).
    (* [plain]: the prototype is [null] or [Object.prototype] *)

Abbreviation object := (gmap jsstring value).

(** [key in v], for a [v] that is an object. *)
Definition inOp (key : string) (v : value) : bool :=
  match v with
  | VObj _ props => bool_decide (is_Some (props !! js key))
  | _ => false
  end.

(** [v.key] (also written [v[key]]), for a [v] that is an object. *)
Definition getProp (key : string) (v : value) : value :=
  match v with
  | VObj _ props => default VUndefined (props !! js key)
  | _ => VUndefined
  end.

Notation "v '.[' k ']'" := (getProp k v) (at level 1, left associativity, format "v .[ k ]").

(** The own enumerable properties an object spread [{...v}] copies. *)
Definition indexed {A} (f : A -> value) (l : list A) : object :=
  list_to_map (imap (fun i x => (decimal (Z.of_nat i), f x)) l).

Definition spread (v : value) : object :=
  match v with
  | VObj _ props => props
  | VArr items => indexed id items
  | VStr s => indexed (fun c => VStr [c]) s
  | _ => ∅
  end.

(* ===================================================================== *)
(** * 2. Regular expressions of the validators *)
(* ===================================================================== *)

Inductive regex :=
| RFail
| REmpty
| RClass (p : N -> bool)
| RSeq (r1 r2 : regex)
| RAlt (r1 r2 : regex)
| RStar (r : regex).

Definition RPlus (r : regex) : regex := RSeq r (RStar r).
Definition ROpt (r : regex) : regex := RAlt REmpty r.
Definition RChar (a : ascii) : regex := RClass (N.eqb (N_of_ascii a)).

Fixpoint nullable (r : regex) : bool :=
  match r with
  | RFail => false
  | REmpty => true
  | RClass _ => false
  | RSeq r1 r2 => nullable r1 && nullable r2
  | RAlt r1 r2 => nullable r1 || nullable r2
  | RStar _ => true
  end.

Fixpoint deriv (c : N) (r : regex) : regex :=
  match r with
  | RFail | REmpty => RFail
  | RClass p => if p c then REmpty else RFail
  | RSeq r1 r2 =>
      if nullable r1 then RAlt (RSeq (deriv c r1) r2) (deriv c r2)
      else RSeq (deriv c r1) r2
  | RAlt r1 r2 => RAlt (deriv c r1) (deriv c r2)
  | RStar r1 => RSeq (deriv c r1) (RStar r1)
  end.

(** [/^r$/.test(s)] *)
Fixpoint test (r : regex) (s : jsstring) : bool :=
  match s with
  | [] => nullable r
  | c :: s' => test (deriv c r) s'
  end.

Definition isDigit (c : N) : bool := (48 <=? c)%N && (c <=? 57)%N.

(** [[^\s@]] *)
Definition notSpaceAt (c : N) : bool :=
  negb (isWhiteSpace c || N.eqb c (N_of_ascii "@")).

(** [/^[^\s@]+@[^\s@]+\.[^\s@]+$/] *)
Definition emailRegex : regex :=
  RSeq (RPlus (RClass notSpaceAt))
    (RSeq (RChar "@")
      (RSeq (RPlus (RClass notSpaceAt))
        (RSeq (RChar ".") (RPlus (RClass notSpaceAt))))).

(** [[\d\s\-\(\)]] *)
Definition phoneChar (c : N) : bool :=
  isDigit c || isWhiteSpace c
  || N.eqb c (N_of_ascii "-") || N.eqb c (N_of_ascii "(") || N.eqb c (N_of_ascii ")").

(** [/^\+?[\d\s\-\(\)]+$/] *)
Definition phoneRegex : regex :=
  RSeq (ROpt (RChar "+")) (RPlus (RClass phoneChar)).

(* ===================================================================== *)
(** * 3. Predicate library ([detailed-type-guards.ts]) *)
(* ===================================================================== *)

Definition isString (v : value) : bool :=
  match v with VStr _ => true | _ => false end.

Definition isNonEmptyString (v : value) : bool :=
  isString v && match v with VStr s => 0 <? length (trim s) | _ => false end.

Definition isNumber (v : value) : bool :=
  match v with
  | VNum n => negb (isNaN n) && isFinite n
  | _ => false
  end.

Definition isPositiveNumber (v : value) : bool :=
  isNumber v && match v with VNum n => num_gt n (num 0) | _ => false end.

Definition isInteger (v : value) : bool :=
  isNumber v && match v with VNum n => Number_isInteger n | _ => false end.

Definition isBoolean (v : value) : bool :=
  match v with VBool _ => true | _ => false end.

Definition isArray (v : value) : bool :=
  match v with VArr _ => true | _ => false end.

(** [typeof value === 'object' && value !== null && !Array.isArray(value)] *)
Definition isObject (v : value) : bool :=
  match v with
  | VObj _ _ | VDate _ => true
  | _ => false
  end.

Definition isPlainObject (v : value) : bool :=
  if negb (isObject v) then false
  else match v with VObj plain _ => plain | _ => false end.

Definition isDate (v : value) : bool :=
  match v with VDate (Some _) => true | _ => false end.

(** [(v as unknown[]).every(p)], reached only when [v] is an array. *)
Definition every (p : value -> bool) (v : value) : bool :=
  match v with VArr items => forallb p items | _ => false end.

Definition isValidEmail (email : jsstring) : bool := test emailRegex email.

Definition isValidPhoneNumber (phone : jsstring) : bool :=
  test phoneRegex phone && (10 <=? length (filter (fun c => isDigit c = true) phone)).

Definition isAddress (v : value) : bool :=
  isObject v &&
  inOp "street" v && isNonEmptyString v.["street"] &&
  inOp "city" v && isNonEmptyString v.["city"] &&
  inOp "state" v && isNonEmptyString v.["state"] &&
  inOp "zipCode" v && isNonEmptyString v.["zipCode"] &&
  inOp "country" v && isNonEmptyString v.["country"].

Definition isContactInfo (v : value) : bool :=
  if negb (isObject v) then false
  else if negb (inOp "email" v) || negb (isString v.["email"])
          || negb (match v.["email"] with VStr s => isValidEmail s | _ => false end)
  then false
  else if inOp "phone" v
          && (negb (isString v.["phone"])
              || negb (match v.["phone"] with VStr s => isValidPhoneNumber s | _ => false end))
  then false
  else if inOp "address" v && negb (isAddress v.["address"])
  then false
  else true.

Definition isUser (v : value) : bool :=
  if negb (isObject v) then false
  else
    inOp "id" v && isNonEmptyString v.["id"] &&
    inOp "name" v && isNonEmptyString v.["name"] &&
    inOp "contact" v && isContactInfo v.["contact"] &&
    inOp "age" v && isPositiveNumber v.["age"] && isInteger v.["age"] &&
    inOp "isActive" v && isBoolean v.["isActive"] &&
    inOp "tags" v && isArray v.["tags"] && every isString v.["tags"] &&
    inOp "createdAt" v && isDate v.["createdAt"] &&
    inOp "updatedAt" v && isDate v.["updatedAt"] &&
    (negb (inOp "metadata" v) || isPlainObject v.["metadata"]).

(** ** Detailed validation *)

Record SimpleValidationError := {
  field : jsstring;
  message : jsstring;
  offending : value;        (* the [value] member of the source *)
}.

Record ValidationResult := {
  isValid : bool;
  data : option value;
  errors : list SimpleValidationError;
}.

(** [if (cond) errors.push({ field, message, value: field in v ? v[field] : undefined })] *)
Definition report (cond : bool) (fld msg : string) (v : value)
    (errors : list SimpleValidationError) : list SimpleValidationError :=
  if cond
  then errors ++ [{| field := js fld; message := js msg;
                     offending := if inOp fld v then v.[fld] else VUndefined |}]
  else errors.

(** The conditions of the eight [if] statements of [validateUser]. *)
Definition idInvalid (v : value) : bool :=
  negb (inOp "id" v) || negb (isNonEmptyString v.["id"]).
Definition nameInvalid (v : value) : bool :=
  negb (inOp "name" v) || negb (isNonEmptyString v.["name"]).
Definition contactInvalid (v : value) : bool :=
  negb (inOp "contact" v) || negb (isContactInfo v.["contact"]).
Definition ageInvalid (v : value) : bool :=
  negb (inOp "age" v) || negb (isPositiveNumber v.["age"]) || negb (isInteger v.["age"]).
Definition isActiveInvalid (v : value) : bool :=
  negb (inOp "isActive" v) || negb (isBoolean v.["isActive"]).
Definition tagsInvalid (v : value) : bool :=
  negb (inOp "tags" v) || negb (isArray v.["tags"]) || negb (every isString v.["tags"]).
Definition createdAtInvalid (v : value) : bool :=
  negb (inOp "createdAt" v) || negb (isDate v.["createdAt"]).
Definition updatedAtInvalid (v : value) : bool :=
  negb (inOp "updatedAt" v) || negb (isDate v.["updatedAt"]).

(** The [errors] array once the eight checks have run, in source order. *)
Definition collectErrors (v : value) : list SimpleValidationError :=
  let errors := [] in
  let errors := report (idInvalid v) "id" "Missing or invalid id field" v errors in
  let errors := report (nameInvalid v) "name" "Missing or invalid name field" v errors in
  let errors :=
    report (contactInvalid v) "contact" "Missing or invalid contact field" v errors in
  let errors := report (ageInvalid v) "age" "Age must be a positive integer" v errors in
  let errors :=
    report (isActiveInvalid v) "isActive" "isActive must be a boolean" v errors in
  let errors :=
    report (tagsInvalid v) "tags" "tags must be an array of strings" v errors in
  let errors :=
    report (createdAtInvalid v) "createdAt" "createdAt must be a valid Date" v errors in
  let errors :=
    report (updatedAtInvalid v) "updatedAt" "updatedAt must be a valid Date" v errors in
  errors.

Definition validateUser (v : value) : ValidationResult :=
  if negb (isObject v) then
    {| isValid := false; data := None;
       errors := [{| field := js "root"; message := js "Value is not an object";
                     offending := v |}] |}
  else
    let errors := collectErrors v in
    if length errors =? 0
    then {| isValid := true; data := Some v; errors := [] |}
    else {| isValid := false; data := None; errors := errors |}.

(* ===================================================================== *)
(** * 4. Simple predicates ([type-guards-examples.ts]) *)
(* ===================================================================== *)

Module TypeGuardsExamples.

(** [typeof value === 'number' && !isNaN(value)] *)
Definition isNumber (v : value) : bool :=
  match v with
  | VNum n => negb (isNaN n)
  | _ => false
  end.

End TypeGuardsExamples.

(** ** Sample data *)

(** An object literal [{ k1: v1, k2: v2, ... }]; a key written twice
    keeps its first value here, so [(k, v) :: members] reads as
    [{ ...members, k: v }]. *)
Definition props (members : list (string * value)) : object :=
  list_to_map (prod_map js id <$> members).

Definition obj (members : list (string * value)) : value :=
  VObj true (props members).

(** [{ name: 'Test User', contact: { email: 'test@example.com' }, age: 25,
       isActive: true, tags: ['test'] }], the [createTestUser] of the source. *)
Definition testUserMembers : list (string * value) :=
  [("name", VStr (js "Test User"));
   ("contact", obj [("email", VStr (js "test@example.com"))]);
   ("age", VNum (num 25));
   ("isActive", VBool true);
   ("tags", VArr [VStr (js "test")])].

Definition testUser : value := obj testUserMembers.

(** A complete user, without its [age]. *)
Definition agelessMembers : list (string * value) :=
  [("id", VStr (js "user_123"));
   ("name", VStr (js "John Doe"));
   ("contact", obj [("email", VStr (js "john@example.com"));
                    ("phone", VStr (js "+1-555-012-3456"));
                    ("address", obj [("street", VStr (js "123 Main St"));
                                     ("city", VStr (js "Springfield"));
                                     ("state", VStr (js "IL"));
                                     ("zipCode", VStr (js "62701"));
                                     ("country", VStr (js "USA"))])]);
   ("isActive", VBool true);
   ("tags", VArr [VStr (js "premium"); VStr (js "verified")]);
   ("createdAt", VDate (Some 1672531200000%Z));
   ("updatedAt", VDate (Some 1701388800000%Z));
   ("metadata", obj [("source", VStr (js "import"))])].

Definition userWithoutAge : value := obj agelessMembers.

Definition storedTestUser : value := obj (("age", VNum (num 30)) :: agelessMembers).

(** [{ ...testUser, age: -1 }] *)
Definition userAgedMinusOne : value :=
  obj (("age", VNum (num (-1))) :: testUserMembers).

(** [{ ...testUser, metadata: 'junk' }] *)
Definition userWithJunkMetadata : value :=
  obj (("metadata", VStr (js "junk")) :: testUserMembers).

(* ===================================================================== *)
(** * 5. The service state *)
(* ===================================================================== *)

Abbreviation loc := nat.

(** The events [UserService] appends.  The constant members of the
    payloads ([source: 'admin'], [updatedBy: 'api'], [deletedBy: 'api'],
    [reason: 'API request'], [metadata: { createdVia: 'api' }]) are left
    out; user objects are logged by reference. *)
Inductive APIEvent :=
| user_created (timestamp : Z) (user : loc)
| user_updated (timestamp : Z) (userId : jsstring) (changes : value) (previousValues : loc)
| user_deleted (timestamp : Z) (userId : jsstring) (backup : loc).

(** The sources [Date.now()] and [Math.random()] read from: the n-th
    read of the clock returns [clock n]; the n-th draw yields the suffix
    [Math.random().toString(36).substr(2, 9)] as [entropy n]. *)
Record World := {
  clock : nat -> Z;
  entropy : nat -> jsstring;
  clockReads : nat;
  entropyReads : nat;
}.

Record State := {
  heap : list object;                (* the objects created by the service *)
  users : list (jsstring * loc);     (* [Map<string, User>], in insertion order *)
  events : list APIEvent;            (* [APIEvent[]] *)
  world : World;
}.

Definition M (A : Type) : Type := State -> A * State.

Definition ret {A} (a : A) : M A := fun st => (a, st).

Definition bind {A B} (c : M A) (k : A -> M B) : M B :=
  fun st => let (a, st') := c st in k a st'.

Notation "x <- c ;; k" := (bind c (fun x => k))
  (at level 100, c at next level, right associativity).
Notation "c ;;; k" := (bind c (fun _ => k))
  (at level 100, right associativity).

(** [Date.now()] *)
Definition Date_now : M Z := fun st =>
  let w := world st in
  (clock w (clockReads w),
   {| heap := heap st; users := users st; events := events st;
      world := {| clock := clock w; entropy := entropy w;
                  clockReads := S (clockReads w);
                  entropyReads := entropyReads w |} |}).

(** [new Date()] *)
Definition newDate : M value :=
  now <- Date_now ;; ret (VDate (Some now)).

(** [Math.random().toString(36).substr(2, 9)] *)
Definition randomSuffix : M jsstring := fun st =>
  let w := world st in
  (entropy w (entropyReads w),
   {| heap := heap st; users := users st; events := events st;
      world := {| clock := clock w; entropy := entropy w;
                  clockReads := clockReads w;
                  entropyReads := S (entropyReads w) |} |}).

(** A fresh object gets the next free location. *)
Definition alloc (o : object) : M loc := fun st =>
  (length (heap st),
   {| heap := heap st ++ [o]; users := users st; events := events st;
      world := world st |}).

(** [l.key = v] *)
Definition assign (l : loc) (key : string) (v : value) : M unit := fun st =>
  (tt,
   {| heap := match heap st !! l with
              | Some o => <[l := <[js key := v]> o]> (heap st)
              | None => heap st
              end;
      users := users st; events := events st; world := world st |}).

(** The object a reference points to, as a value. *)
Definition deref (st : State) (l : loc) : value :=
  match heap st !! l with
  | Some o => VObj true o
  | None => VUndefined
  end.

(** ** [Map<string, User>] *)

Fixpoint Map_get (k : jsstring) (m : list (jsstring * loc)) : option loc :=
  match m with
  | [] => None
  | (k', v) :: m' => if decide (k' = k) then Some v else Map_get k m'
  end.

(** [set] on a present key keeps the entry at its place. *)
Fixpoint Map_set (k : jsstring) (v : loc) (m : list (jsstring * loc))
    : list (jsstring * loc) :=
  match m with
  | [] => [(k, v)]
  | (k', v') :: m' =>
      if decide (k' = k) then (k, v) :: m' else (k', v') :: Map_set k v m'
  end.

Definition Map_delete (k : jsstring) (m : list (jsstring * loc))
    : list (jsstring * loc) :=
  filter (fun e => e.1 <> k) m.

Definition Map_values (m : list (jsstring * loc)) : list loc := m.*2.

Definition users_set (k : jsstring) (v : loc) : M unit := fun st =>
  (tt, {| heap := heap st; users := Map_set k v (users st);
          events := events st; world := world st |}).

Definition users_delete (k : jsstring) : M unit := fun st =>
  (tt, {| heap := heap st; users := Map_delete k (users st);
          events := events st; world := world st |}).

Definition events_push (e : APIEvent) : M unit := fun st =>
  (tt, {| heap := heap st; users := users st;
          events := events st ++ [e]; world := world st |}).

(** ** Results *)

Inductive AppError :=
| ValidationError (efield emessage ecode : jsstring)
| NetworkError (status : number) (emessage endpoint : jsstring)
| BusinessError (ecode emessage : jsstring).

Inductive Result (T : Type) :=
| Success (payload : T)
| Failure (error : AppError).
Arguments Success {T} payload.
Arguments Failure {T} error.

Definition isSuccess {T} (r : Result T) : bool :=
  match r with Success _ => true | Failure _ => false end.

Definition isValidationError (e : AppError) : bool :=
  match e with ValidationError _ _ _ => true | _ => false end.

(* ===================================================================== *)
(** * 6. [UserService] ([express-type-guards.ts]) *)
(* ===================================================================== *)

(** [`user_${Date.now()}_${Math.random().toString(36).substr(2, 9)}`] *)
Definition generateId : M jsstring :=
  now <- Date_now ;;
  suffix <- randomSuffix ;;
  ret (js "user_" ++ decimal now ++ js "_" ++ suffix).

(** The object literal [{ id, createdAt, updatedAt, ...userData }].  It is
    built as a value and enters the heap once it has passed validation:
    a literal that fails validation is dropped, nothing refers to it. *)
Definition userLiteral (id : jsstring) (createdAt updatedAt userData : value) : object :=
  spread userData ∪
  <[js "updatedAt" := updatedAt]>
    (<[js "createdAt" := createdAt]> (<[js "id" := VStr id]> ∅)).

Definition createUser (userData : value) : M (Result loc) :=
  id0 <- generateId ;;
  createdAt0 <- newDate ;;
  updatedAt0 <- newDate ;;
  let literal := userLiteral id0 createdAt0 updatedAt0 userData in
  let validation := validateUser (VObj true literal) in
  if negb (isValid validation) then
    ret (Failure (ValidationError (js "userData") (js "Invalid user data")
                    (js "INVALID_USER_DATA")))
  else
    user <- alloc literal ;;
    id <- generateId ;;
    assign user "id" (VStr id) ;;;
    createdAt <- newDate ;;
    assign user "createdAt" createdAt ;;;
    updatedAt <- newDate ;;
    assign user "updatedAt" updatedAt ;;;
    users_set id user ;;;
    timestamp <- Date_now ;;
    events_push (user_created timestamp user) ;;;
    ret (Success user).

Definition getUserById (id : jsstring) : M (Result loc) := fun st =>
  if negb (isNonEmptyString (VStr id)) then
    (Failure (ValidationError (js "id") (js "User ID must be a non-empty string")
                (js "INVALID_ID")), st)
  else
    match Map_get id (users st) with
    | None =>
        (Failure (BusinessError (js "NOT_FOUND")
                    (js "User with ID " ++ id ++ js " not found")), st)
    | Some user =>
        if negb (isUser (deref st user)) then
          (Failure (BusinessError (js "DATA_CORRUPTION")
                      (js "Stored user data is corrupted")), st)
        else (Success user, st)
    end.

(** ** Listing: comparison, sort and slice *)

(** The keys [getUsers] is asked to sort by: of [keyof User], the
    members whose values are primitives, Dates or arrays of strings.
    Comparing two [contact] or two [metadata] members applies
    [ToPrimitive] to objects: its result depends on the prototype of the
    object (none for [Object.create(null)], which makes the comparison
    throw and [getUsers] answer QUERY_ERROR) and on what own [valueOf]
    and [toString] members return when called.  A [value] records
    neither, so these two keys are not part of the embedding. *)
Inductive SortKey :=
| by_id | by_name | by_age | by_isActive | by_tags | by_createdAt | by_updatedAt.

Definition keyName (k : SortKey) : string :=
  match k with
  | by_id => "id"
  | by_name => "name"
  | by_age => "age"
  | by_isActive => "isActive"
  | by_tags => "tags"
  | by_createdAt => "createdAt"
  | by_updatedAt => "updatedAt"
  end.

Inductive SortOrder := asc | desc.

(** [ToNumber] where it needs no parsing: a Date gives its time value. *)
Definition toNumber (v : value) : option number :=
  match v with
  | VUndefined => Some NaN
  | VNull => Some (num 0)
  | VBool b => Some (num (if b then 1 else 0))
  | VNum n => Some n
  | VDate (Some t) => Some (num t)
  | VDate None => Some NaN
  | _ => None
  end.

(** Strings compare by code units. *)
Fixpoint str_lt (x y : jsstring) : bool :=
  match x, y with
  | _, [] => false
  | [], _ :: _ => true
  | a :: x', b :: y' => (a <? b)%N || ((a =? b)%N && str_lt x' y')
  end.

(** [ToPrimitive] of an array: [items.join(',')].  It is applied to
    [tags] members that passed [isUser], arrays of strings, whose
    elements are joined as they are ([undefined] and [null] would give
    the empty string; other elements are not represented). *)
Definition arrayToString (items : list value) : jsstring :=
  join (js ",") ((fun item => match item with VStr s => s | _ => [] end) <$> items).

(** [a < b].  [getUsers] applies it to the same member of two objects
    that passed [isUser]: two strings, two numbers, two booleans, two
    Dates or two arrays of strings, which compare as their joined
    texts.  Other pairs (a string against a non-string, objects) would
    need [StringToNumber] and [ToPrimitive] on objects and are not
    represented. *)
Definition js_lt (a b : value) : bool :=
  match a, b with
  | VStr x, VStr y => str_lt x y
  | VArr x, VArr y => str_lt (arrayToString x) (arrayToString y)
  | _, _ =>
      match toNumber a, toNumber b with
      | Some x, Some y => num_lt x y
      | _, _ => false
      end
  end.

(** The comparator handed to [allUsers.sort]. *)
Definition compareUsers (st : State) (sortBy : SortKey) (sortOrder : SortOrder)
    (a b : loc) : Z :=
  let aValue := (deref st a).[keyName sortBy] in
  let bValue := (deref st b).[keyName sortBy] in
  let comparison := 0%Z in
  let comparison := if js_lt aValue bValue then (-1)%Z else comparison in
  let comparison := if js_lt bValue aValue then 1%Z else comparison in
  match sortOrder with desc => (- comparison)%Z | asc => comparison end.

(** [Array.prototype.sort] is stable; with a consistent comparator its
    result is the one stable insertion computes. *)
Fixpoint insertSorted {A} (cmp : A -> A -> Z) (x : A) (l : list A) : list A :=
  match l with
  | [] => [x]
  | y :: l' => if (cmp x y <=? 0)%Z then x :: l else y :: insertSorted cmp x l'
  end.

Definition sort {A} (cmp : A -> A -> Z) (l : list A) : list A :=
  foldr (insertSorted cmp) [] l.

(** [ToIntegerOrInfinity] followed by the clamping of [slice]. *)
Definition relativeIndex (len : Z) (n : number) : Z :=
  match n with
  | NaN => 0
  | Infinity => len
  | NegInfinity => 0
  | Finite q =>
      let i := Z.quot (Qnum q) (Z.pos (Qden q)) in
      if (i <? 0)%Z then Z.max (len + i) 0 else Z.min i len
  end%Z.

(** [l.slice(start, end)] *)
Definition slice {A} (l : list A) (start end_ : number) : list A :=
  let len := Z.of_nat (length l) in
  let k := relativeIndex len start in
  let final := relativeIndex len end_ in
  take (Z.to_nat (final - k)) (drop (Z.to_nat k) l).

Record Options := {
  page : option number;
  limit : option number;
  sortBy : option SortKey;
  sortOrder : option SortOrder;
}.

Record UserPage := {
  page_users : list loc;
  page_total : nat;
  page_page : number;
  page_limit : number;
}.

(** [x || d] on an optional number *)
Definition orDefault (x : option number) (d : number) : number :=
  match x with
  | Some n => if num_truthy n then n else d
  | None => d
  end.

(** [Array.from(this.users.values()).filter(isUser)], then [sort]. *)
Definition sortedUsers (st : State) (by_ : SortKey) (order : SortOrder) : list loc :=
  sort (compareUsers st by_ order)
    (filter (fun l => isUser (deref st l) = true) (Map_values (users st))).

Definition getUsers (options : Options) : M (Result UserPage) := fun st =>
  let page := orDefault (page options) (num 1) in
  let limit := orDefault (limit options) (num 10) in
  let sortBy := default by_createdAt (sortBy options) in
  let sortOrder := default desc (sortOrder options) in
  if negb (isPositiveNumber (VNum page)) || negb (isPositiveNumber (VNum limit)) then
    (Failure (ValidationError (js "pagination")
                (js "Page and limit must be positive numbers")
                (js "INVALID_PAGINATION")), st)
  else
    let allUsers := sortedUsers st sortBy sortOrder in
    let startIndex := num_mul (num_sub page (num 1)) limit in
    let endIndex := num_add startIndex limit in
    let users := slice allUsers startIndex endIndex in
    (Success {| page_users := users; page_total := length allUsers;
                page_page := page; page_limit := limit |}, st).

(** ** Update and delete *)

(** [typeof updates === 'object' && updates !== null] *)
Definition typeofObject (v : value) : bool :=
  match v with
  | VObj _ _ | VDate _ | VArr _ => true
  | _ => false
  end.

Definition updateUser (id : jsstring) (updates : value) : M (Result loc) :=
  getUserResult <- getUserById id ;;
  match getUserResult with
  | Failure e => ret (Failure e)
  | Success existingUser =>
      if negb (typeofObject updates) then
        ret (Failure (ValidationError (js "updates") (js "Updates must be an object")
                        (js "INVALID_UPDATES")))
      else fun st =>
        let existing := deref st existingUser in
        (updatedAt <- newDate ;;
         let updatedUserData : object :=
           <[js "updatedAt" := updatedAt]>
             (<[js "createdAt" := existing.["createdAt"]]>
                (<[js "id" := existing.["id"]]>
                   (spread updates ∪ spread existing))) in
         let validation := validateUser (VObj true updatedUserData) in
         if negb (isValid validation) then
           ret (Failure (ValidationError (js "userData")
                           (js "Updated user data is invalid")
                           (js "INVALID_UPDATED_DATA")))
         else
           updatedUser <- alloc updatedUserData ;;
           users_set id updatedUser ;;;
           timestamp <- Date_now ;;
           events_push (user_updated timestamp id updates existingUser) ;;;
           ret (Success updatedUser)) st
  end.

Definition deleteUser (id : jsstring) : M (Result jsstring) :=
  getUserResult <- getUserById id ;;
  match getUserResult with
  | Failure e => ret (Failure e)
  | Success user =>
      users_delete id ;;;
      timestamp <- Date_now ;;
      events_push (user_deleted timestamp id user) ;;;
      ret (Success (js "User " ++ id ++ js " deleted successfully"))
  end.

(** ** A world and the empty service *)

Definition tickingWorld : World :=
  {| clock := fun n => (1700000000000 + Z.of_nat n)%Z;
     entropy := fun n => js "k3x9" ++ decimal (Z.of_nat n);
     clockReads := 0; entropyReads := 0 |}.

Definition emptyService (w : World) : State :=
  {| heap := []; users := []; events := []; world := w |}.

Definition run {A} (c : M A) (st : State) : A := (c st).1.
Definition exec {A} (c : M A) (st : State) : State := (c st).2.


(* ===================================================================== *)
(** * 7. Vocabulary of the properties *)
(* ===================================================================== *)

(** A predicate "rejects NaN and non-finite values": it holds of exactly
    the finite, non-NaN numbers. *)
Definition acceptsExactlyFiniteNumbers (isNum : value -> bool) : Prop :=
  forall v, isNum v = true <->
            exists n, v = VNum n /\ isNaN n = false /\ isFinite n = true.

(** The fields [validateUser] requires, the [field] it reports them
    under and the message it pushes for each. *)
Inductive RequiredField :=
| f_id | f_name | f_contact | f_age | f_isActive | f_tags | f_createdAt | f_updatedAt.

Definition fieldName (F : RequiredField) : string :=
  match F with
  | f_id => "id"
  | f_name => "name"
  | f_contact => "contact"
  | f_age => "age"
  | f_isActive => "isActive"
  | f_tags => "tags"
  | f_createdAt => "createdAt"
  | f_updatedAt => "updatedAt"
  end.

Definition fieldMessage (F : RequiredField) : string :=
  match F with
  | f_id => "Missing or invalid id field"
  | f_name => "Missing or invalid name field"
  | f_contact => "Missing or invalid contact field"
  | f_age => "Age must be a positive integer"
  | f_isActive => "isActive must be a boolean"
  | f_tags => "tags must be an array of strings"
  | f_createdAt => "createdAt must be a valid Date"
  | f_updatedAt => "updatedAt must be a valid Date"
  end.

Fixpoint startsWith (pre s : jsstring) : bool :=
  match pre, s with
  | [], _ => true
  | _ :: _, [] => false
  | a :: pre', b :: s' => (a =? b)%N && startsWith pre' s'
  end.

(** A "missing or invalid" message, as opposed to a message that states
    the type the field must have. *)
Definition isMissingOrInvalidMessage (m : jsstring) : bool :=
  startsWith (js "Missing or invalid") m.

(** The result is a failure whose error is reported for field [f]. *)
Definition failsOnField {T} (f : string) (r : Result T) : Prop :=
  match r with
  | Failure (ValidationError ef _ _) => ef = js f
  | _ => False
  end.

(** The check of the [validateUserCreation] middleware on a request
    body: [isUser({ id: 'temp', createdAt: new Date(), updatedAt: new
    Date(), ...body })], with the two clock readings as arguments. *)
Definition isUserCreationBody (now1 now2 : Z) (body : value) : bool :=
  isUser (VObj true (userLiteral (js "temp") (VDate (Some now1)) (VDate (Some now2)) body)).

(** What a caller reads through the reference an operation handed out. *)
Definition observed (st : State) (r : Result loc) : Result value :=
  match r with
  | Success l => Success (deref st l)
  | Failure e => Failure e
  end.

(** Options with an integral page and limit. *)
Definition pageOptions (p l : Z) (by_ : option SortKey) (order : option SortOrder)
    : Options :=
  {| page := Some (num p); limit := Some (num l); sortBy := by_; sortOrder := order |}.

(** The users of the page a call hands back (none when it fails). *)
Definition pageOf (st : State) (options : Options) : list loc :=
  match run (getUsers options) st with
  | Success pg => page_users pg
  | Failure _ => []
  end.

(** [Math.ceil(total / limit)] for a positive integral limit. *)
Definition pageCount (total l : nat) : nat := (total + l - 1) / l.

(** The readings an operation started in [st] takes from the world: its
    k-th clock reading and its k-th random suffix (counted from 0). *)
Definition nthClock (st : State) (k : nat) : Z :=
  clock (world st) (k + clockReads (world st)).

Definition nthSuffix (st : State) (k : nat) : jsstring :=
  entropy (world st) (k + entropyReads (world st)).

Definition nthId (st : State) (kc ke : nat) : jsstring :=
  js "user_" ++ decimal (nthClock st kc) ++ js "_" ++ nthSuffix st ke.

Definition advance (st : State) (ticks draws : nat) : World :=
  {| clock := clock (world st); entropy := entropy (world st);
     clockReads := ticks + clockReads (world st);
     entropyReads := draws + entropyReads (world st) |}.

(** The literal [createUser] validates when started in [st], and the
    object it stores once the three system fields have been assigned. *)
Definition candidate (st : State) (userData : value) : object :=
  userLiteral (nthId st 0 0) (VDate (Some (nthClock st 1)))
    (VDate (Some (nthClock st 2))) userData.

Definition createdUser (st : State) (userData : value) : object :=
  <[js "updatedAt" := VDate (Some (nthClock st 5))]>
    (<[js "createdAt" := VDate (Some (nthClock st 4))]>
       (<[js "id" := VStr (nthId st 3 1)]> (candidate st userData))).

(** The object [updateUser] builds from the stored object [existing]
    when started in [st]. *)
Definition updatedUser (st : State) (existing updates : value) : object :=
  <[js "updatedAt" := VDate (Some (nthClock st 0))]>
    (<[js "createdAt" := existing.["createdAt"]]>
       (<[js "id" := existing.["id"]]> (spread updates ∪ spread existing))).

(** [isUser] on an object, as a function of the nine members it reads. *)
Definition userChecks (id name contact age isActive tags createdAt updatedAt metadata
    : option value) : bool :=
  let member (m : option value) := default VUndefined m in
  let present (m : option value) := bool_decide (is_Some m) in
  present id && isNonEmptyString (member id) &&
  present name && isNonEmptyString (member name) &&
  present contact && isContactInfo (member contact) &&
  present age && isPositiveNumber (member age) && isInteger (member age) &&
  present isActive && isBoolean (member isActive) &&
  present tags && isArray (member tags) && every isString (member tags) &&
  present createdAt && isDate (member createdAt) &&
  present updatedAt && isDate (member updatedAt) &&
  (negb (present metadata) || isPlainObject (member metadata)).

(** The service after [createUser(createTestUser())] on an empty store,
    the id that call generated, and an update that tries to replace the
    system fields. *)
Definition serviceWithTestUser : State :=
  exec (createUser testUser) (emptyService tickingWorld).

Definition testUserId : jsstring := nthId (emptyService tickingWorld) 3 1.

Definition intrusiveUpdates : value :=
  obj [("age", VNum (num 31));
       ("id", VStr (js "intruder"));
       ("createdAt", VDate (Some 0%Z))].

(** [{ name: 'x', metadata: 'junk' }], a body the update middleware lets
    through. *)
Definition junkMetadataUpdates : value :=
  obj [("name", VStr (js "x")); ("metadata", VStr (js "junk"))].

(** The name a caller reads from the user an operation handed back. *)
Definition observedName (st : State) (r : Result loc) : option value :=
  match observed st r with
  | Success v => Some v.["name"]
  | Failure _ => None
  end.

(** Three users created one after the other. *)
Definition serviceWithThreeUsers : State :=
  exec (createUser testUser) (exec (createUser testUser) serviceWithTestUser).

(** The states the public operations of the store reach from an empty
    service, whatever the callers pass ([getUserById] and [getUsers]
    leave the state as it is). *)
Inductive reachable : State -> Prop :=
| reach_empty (w : World) : reachable (emptyService w)
| reach_createUser (st : State) (userData : value) :
    reachable st -> reachable (exec (createUser userData) st)
| reach_updateUser (st : State) (id : jsstring) (updates : value) :
    reachable st -> reachable (exec (updateUser id updates) st)
| reach_deleteUser (st : State) (id : jsstring) :
    reachable st -> reachable (exec (deleteUser id) st).

(** Every entry of the user map points to an object that passes
    [validateUser]. *)
Definition storedUsersValidated (st : State) : Prop :=
  forall k l, Map_get k (users st) = Some l ->
              isValid (validateUser (deref st l)) = true.

(** The kind of value a user that passed [isUser] holds under a sort key. *)
Definition sortMemberCheck (k : SortKey) : value -> bool :=
  match k with
  | by_id | by_name => isString
  | by_age => isNumber
  | by_isActive => isBoolean
  | by_tags => isArray
  | by_createdAt | by_updatedAt => isDate
  end.

(** The order a sorted list shows, said without the comparator: code
    units order strings; magnitude orders numbers and Dates; [false]
    comes before [true]; arrays of strings are ordered as their joined
    texts.  Values of different kinds are not ordered. *)
Fixpoint str_le (x y : jsstring) : Prop :=
  match x, y with
  | [], _ => True
  | _ :: _, [] => False
  | a :: x', b :: y' => (a < b)%N \/ (a = b /\ str_le x' y')
  end.

Definition valueLe (a b : value) : Prop :=
  match a, b with
  | VStr x, VStr y => str_le x y
  | VNum (Finite x), VNum (Finite y) => (x <= y)%Q
  | VBool x, VBool y => x = true -> y = true
  | VDate (Some s), VDate (Some t) => (s <= t)%Z
  | VArr x, VArr y => str_le (arrayToString x) (arrayToString y)
  | _, _ => False
  end.

(** User [a] may stand before user [b] in a list sorted by [sortBy] in
    the order [sortOrder]. *)
Definition inOrder (st : State) (sortBy : SortKey) (sortOrder : SortOrder)
    (a b : loc) : Prop :=
  match sortOrder with
  | asc => valueLe (deref st a).[keyName sortBy] (deref st b).[keyName sortBy]
  | desc => valueLe (deref st b).[keyName sortBy] (deref st a).[keyName sortBy]
  end.

(** [n] is a finite number above zero. *)
Definition positiveFinite (n : number) : Prop :=
  match n with
  | Finite q => (0 < q)%Q
  | _ => False
  end.

(** [x || d] said case by case: the default stands in for an absent
    value, for [0] and for [NaN]; any other number is kept. *)
Definition givenOr (x : option number) (d : Z) : number :=
  match x with
  | None | Some NaN => num d
  | Some (Finite q) => if Qeq_bool q 0 then num d else Finite q
  | Some n => n
  end.

(* ===================================================================== *)
(** * 7b. Further functions of the source *)
(* ===================================================================== *)

(** ** Events as values, [isAPIEvent] and [getEvents] *)

(** [v === 'literal'] *)
Definition isLiteral (s : string) (v : value) : bool :=
  match v with
  | VStr x => bool_decide (x = js s)
  | _ => false
  end.

(** [['a', 'b', ...].includes(v)], reached when [v] is a string. *)
Definition oneOf (literals : list string) (v : value) : bool :=
  existsb (fun s => isLiteral s v) literals.

Definition isAPIEvent (v : value) : bool :=
  if negb (isObject v) then false
  else if negb (inOp "type" v) || negb (isString v.["type"]) then false
  else if negb (inOp "timestamp" v) || negb (isDate v.["timestamp"]) then false
  else if negb (inOp "data" v) || negb (isObject v.["data"]) then false
  else
    let eventType := v.["type"] in
    let data := v.["data"] in
    if isLiteral "user_created" eventType then
      inOp "user" data && isUser data.["user"] &&
      inOp "source" data && isString data.["source"] &&
      oneOf ["registration"; "admin"; "import"] data.["source"] &&
      (negb (inOp "metadata" data) || isPlainObject data.["metadata"])
    else if isLiteral "user_updated" eventType then
      inOp "userId" data && isNonEmptyString data.["userId"] &&
      inOp "changes" data && isObject data.["changes"] &&
      inOp "previousValues" data && isObject data.["previousValues"] &&
      inOp "updatedBy" data && isNonEmptyString data.["updatedBy"]
    else if isLiteral "user_deleted" eventType then
      inOp "userId" data && isNonEmptyString data.["userId"] &&
      inOp "deletedBy" data && isNonEmptyString data.["deletedBy"] &&
      inOp "backup" data && isUser data.["backup"] &&
      (negb (inOp "reason" data) || isString data.["reason"])
    else if isLiteral "user_login" eventType then
      inOp "userId" data && isNonEmptyString data.["userId"] &&
      inOp "ip" data && isNonEmptyString data.["ip"] &&
      inOp "userAgent" data && isNonEmptyString data.["userAgent"] &&
      inOp "successful" data && isBoolean data.["successful"] &&
      (negb (inOp "failureReason" data) || isString data.["failureReason"])
    else false.

(** The discriminant and the timestamp of a logged event. *)
Definition eventType (e : APIEvent) : string :=
  match e with
  | user_created _ _ => "user_created"
  | user_updated _ _ _ _ => "user_updated"
  | user_deleted _ _ _ => "user_deleted"
  end.

Definition eventTime (e : APIEvent) : Z :=
  match e with
  | user_created t _ => t
  | user_updated t _ _ _ => t
  | user_deleted t _ _ => t
  end.

(** The object a logged event is, with the constant members the service
    writes and with the user objects it refers to as the heap has them
    now. *)
Definition eventValue (st : State) (e : APIEvent) : value :=
  match e with
  | user_created t user =>
      obj [("type", VStr (js "user_created"));
           ("timestamp", VDate (Some t));
           ("data", obj [("user", deref st user);
                         ("source", VStr (js "admin"));
                         ("metadata", obj [("createdVia", VStr (js "api"))])])]
  | user_updated t userId changes previousValues =>
      obj [("type", VStr (js "user_updated"));
           ("timestamp", VDate (Some t));
           ("data", obj [("userId", VStr userId);
                         ("changes", changes);
                         ("previousValues", deref st previousValues);
                         ("updatedBy", VStr (js "api"))])]
  | user_deleted t userId backup =>
      obj [("type", VStr (js "user_deleted"));
           ("timestamp", VDate (Some t));
           ("data", obj [("userId", VStr userId);
                         ("deletedBy", VStr (js "api"));
                         ("reason", VStr (js "API request"));
                         ("backup", deref st backup)])]
  end.

(** The events [getEvents] keeps: [this.events.filter(isAPIEvent)], then
    the filter on [type] when [filter?.type] is truthy (a non-empty
    string). *)
Definition selectedEvents (st : State) (filterType : option jsstring) : list APIEvent :=
  let events := filter (fun e => isAPIEvent (eventValue st e) = true) (events st) in
  match filterType with
  | Some (c :: t) => filter (fun e => js (eventType e) = c :: t) events
  | _ => events
  end.

(** [(a, b) => b.timestamp.getTime() - a.timestamp.getTime()] *)
Definition newestFirst (a b : APIEvent) : Z := (eventTime b - eventTime a)%Z.

Definition getEvents (filterType : option jsstring) : M (Result (list APIEvent)) :=
  fun st => (Success (sort newestFirst (selectedEvents st filterType)), st).

(** What the service guarantees of an event at the time it logs it: the
    user of a creation passed [validateUser]; the id of an update or a
    deletion is non-blank, the updates passed [typeof updates ===
    'object'], and the previous user (the backup) passed [isUser]. *)
Definition eventWellFormed (st : State) (e : APIEvent) : Prop :=
  match e with
  | user_created _ user => isValid (validateUser (deref st user)) = true
  | user_updated _ userId changes previousValues =>
      isNonEmptyString (VStr userId) = true /\ typeofObject changes = true /\
      isUser (deref st previousValues) = true
  | user_deleted _ userId backup =>
      isNonEmptyString (VStr userId) = true /\ isUser (deref st backup) = true
  end.

(** ** The strings a regular expression matches *)

(** [matches r s]: the whole of [s] is matched by [r], as the usual
    reading of the operators has it. *)
Inductive matches : regex -> jsstring -> Prop :=
| matches_empty : matches REmpty []
| matches_class (p : N -> bool) (c : N) : p c = true -> matches (RClass p) [c]
| matches_seq (r1 r2 : regex) (s1 s2 : jsstring) :
    matches r1 s1 -> matches r2 s2 -> matches (RSeq r1 r2) (s1 ++ s2)
| matches_alt_l (r1 r2 : regex) (s : jsstring) :
    matches r1 s -> matches (RAlt r1 r2) s
| matches_alt_r (r1 r2 : regex) (s : jsstring) :
    matches r2 s -> matches (RAlt r1 r2) s
| matches_star_nil (r : regex) : matches (RStar r) []
| matches_star_app (r : regex) (s1 s2 : jsstring) :
    matches r s1 -> matches (RStar r) s2 -> matches (RStar r) (s1 ++ s2).

(** [[a-zA-Z0-9]] *)
Definition isAlphaNumeric (c : N) : bool :=
  ((97 <=? c) && (c <=? 122) || (65 <=? c) && (c <=? 90) || isDigit c)%N.

(** [/^user_[a-zA-Z0-9]+$/], the [isUserId] of [type-guards-examples.ts] *)
Definition userIdRegex : regex :=
  RSeq (RChar "u") (RSeq (RChar "s") (RSeq (RChar "e") (RSeq (RChar "r")
    (RSeq (RChar "_") (RPlus (RClass isAlphaNumeric)))))).

Definition isUserId (s : jsstring) : bool := test userIdRegex s.

(** ** The checks of [validateUser], field by field *)

Definition requiredFields : list RequiredField :=
  [f_id; f_name; f_contact; f_age; f_isActive; f_tags; f_createdAt; f_updatedAt].

Definition fieldInvalid (F : RequiredField) : value -> bool :=
  match F with
  | f_id => idInvalid
  | f_name => nameInvalid
  | f_contact => contactInvalid
  | f_age => ageInvalid
  | f_isActive => isActiveInvalid
  | f_tags => tagsInvalid
  | f_createdAt => createdAtInvalid
  | f_updatedAt => updatedAtInvalid
  end.

(** The entry [validateUser] pushes for a field. *)
Definition fieldError (v : value) (F : RequiredField) : SimpleValidationError :=
  {| field := js (fieldName F); message := js (fieldMessage F);
     offending := if inOp (fieldName F) v then v.[fieldName F] else VUndefined |}.

(** ** Admin and regular users *)

Definition isAdminUser (v : value) : bool :=
  if negb (isUser v) then false
  else
    inOp "role" v && isLiteral "admin" v.["role"] &&
    inOp "permissions" v && isArray v.["permissions"] &&
    every isString v.["permissions"] &&
    (negb (inOp "lastLogin" v) || isDate v.["lastLogin"]).

Definition isRegularUser (v : value) : bool :=
  if negb (isUser v) then false
  else
    inOp "role" v && isLiteral "user" v.["role"] &&
    (negb (inOp "subscription" v) ||
     (isString v.["subscription"] &&
      oneOf ["basic"; "premium"; "enterprise"] v.["subscription"])).

(** ** Assertion functions *)

(** An [AssertionError] (or its subclass [ValidationError], told apart
    by [name]) with the members its constructor sets.  An assertion
    either returns or throws one. *)
Record AssertionError := {
  errorName : jsstring;
  errorMessage : jsstring;
  errorValue : value;
  errorExpected : jsstring;
}.

Inductive Outcome (T : Type) :=
| Returned (x : T)
| Thrown (e : AssertionError).
Arguments Returned {T} x.
Arguments Thrown {T} e.

Definition andThen {T U} (o : Outcome T) (k : T -> Outcome U) : Outcome U :=
  match o with
  | Returned x => k x
  | Thrown e => Thrown e
  end.

(** [new ValidationError(field, value, expected)] *)
Definition newValidationError (field : jsstring) (v : value) (expected : jsstring)
    : AssertionError :=
  {| errorName := js "ValidationError";
     errorMessage :=
       js "Validation failed for field '" ++ field ++ js "': expected " ++ expected;
     errorValue := v;
     errorExpected := expected |}.

Definition assertIsNonEmptyString (v : value) (fieldName : jsstring) : Outcome unit :=
  if negb (isNonEmptyString v)
  then Thrown (newValidationError fieldName v (js "non-empty string"))
  else Returned tt.

Definition assertIsPositiveNumber (v : value) (fieldName : jsstring) : Outcome unit :=
  if negb (isPositiveNumber v)
  then Thrown (newValidationError fieldName v (js "positive number"))
  else Returned tt.

Definition assertIsUser (v : value) (fieldName : jsstring) : Outcome unit :=
  let validation := validateUser v in
  if negb (isValid validation)
  then Thrown (newValidationError fieldName v
                 (js "User object. Errors: "
                  ++ join (js ", ") (message <$> errors validation)))
  else Returned tt.

(** [value.forEach((item, index) => { if (!elementGuard(item)) throw ... })],
    from [index] on. *)
Fixpoint forEachAssert (elementGuard : value -> bool) (fieldName : jsstring)
    (index : nat) (items : list value) : Outcome unit :=
  match items with
  | [] => Returned tt
  | item :: rest =>
      if negb (elementGuard item)
      then Thrown (newValidationError
                     (fieldName ++ js "[" ++ decimal (Z.of_nat index) ++ js "]")
                     item (js "valid array element"))
      else forEachAssert elementGuard fieldName (S index) rest
  end.

Definition assertIsArrayOf (v : value) (elementGuard : value -> bool)
    (fieldName : jsstring) : Outcome unit :=
  if negb (isArray v) then Thrown (newValidationError fieldName v (js "array"))
  else match v with
       | VArr items => forEachAssert elementGuard fieldName 0 items
       | _ => Returned tt
       end.

(** [Array.isArray(value) && value.every(elementGuard)], the [isArrayOf]
    of [type-guards-examples.ts]. *)
Definition isArrayOf (v : value) (elementGuard : value -> bool) : bool :=
  isArray v && every elementGuard v.

(** [safeUserProcessing]; its [catch] logs and throws the error again,
    and output to the console is not part of the model. *)
Definition safeUserProcessing (data : value) : Outcome value :=
  andThen (assertIsUser data (js "userData")) (fun _ =>
  andThen (assertIsNonEmptyString data.["name"] (js "user.name")) (fun _ =>
  andThen (assertIsPositiveNumber data.["age"] (js "user.age")) (fun _ =>
  andThen (assertIsArrayOf data.["tags"] isString (js "user.tags")) (fun _ =>
  Returned data)))).

(** ** [ResponseHelper] *)




(** [getStatusCodeFromError]; [error.status || 500] keeps a truthy status. *)
Definition getStatusCodeFromError (error : AppError) : number :=
  match error with
  | ValidationError _ _ _ => num 400
  | NetworkError status _ _ => if num_truthy status then status else num 500
  | BusinessError code _ =>
      if bool_decide (code = js "NOT_FOUND") then num 404 else num 500
  end.

(** ** Request middleware *)

(** The predicate of [validateUserUpdate]: an object (or array) body
    holding at least one of the five updatable fields. *)
Definition isUserUpdateBody (body : value) : bool :=
  if negb (typeofObject body) then false
  else existsb (fun field => inOp field body) ["name"; "contact"; "age"; "isActive"; "tags"].

(** [s.startsWith(prefix)] is [startsWith prefix s].  The predicate of
    [validateUserId]. *)
Definition isRoutableUserId (id : jsstring) : bool :=
  isNonEmptyString (VStr id) && startsWith (js "user_") id.

(** ** The operations of the service, as one type *)

Inductive Operation :=
| CreateUser (userData : value)
| GetUserById (id : jsstring)
| GetUsers (options : Options)
| UpdateUser (id : jsstring) (updates : value)
| DeleteUser (id : jsstring)
| GetEvents (filterType : option jsstring).

(** The state an operation leaves and whether it answered a success. *)
Definition step (op : Operation) (st : State) : State :=
  match op with
  | CreateUser userData => exec (createUser userData) st
  | GetUserById id => exec (getUserById id) st
  | GetUsers options => exec (getUsers options) st
  | UpdateUser id updates => exec (updateUser id updates) st
  | DeleteUser id => exec (deleteUser id) st
  | GetEvents filterType => exec (getEvents filterType) st
  end.

Definition succeeds (op : Operation) (st : State) : bool :=
  match op with
  | CreateUser userData => isSuccess (run (createUser userData) st)
  | GetUserById id => isSuccess (run (getUserById id) st)
  | GetUsers options => isSuccess (run (getUsers options) st)
  | UpdateUser id updates => isSuccess (run (updateUser id updates) st)
  | DeleteUser id => isSuccess (run (deleteUser id) st)
  | GetEvents filterType => isSuccess (run (getEvents filterType) st)
  end.

Definition mutates (op : Operation) : bool :=
  match op with
  | CreateUser _ | UpdateUser _ _ | DeleteUser _ => true
  | _ => false
  end.

(** The states reached by any sequence of operations. *)
Fixpoint runAll (ops : list Operation) (st : State) : State :=
  match ops with
  | [] => st
  | op :: ops' => runAll ops' (step op st)
  end.

(** The number of operations of a run that changed the store: the
    successful [createUser], [updateUser] and [deleteUser] calls. *)
Fixpoint successfulMutations (ops : list Operation) (st : State) : nat :=
  match ops with
  | [] => 0
  | op :: ops' =>
      (if mutates op && succeeds op st then 1 else 0)
      + successfulMutations ops' (step op st)
  end.

(** The map is consistent: no key twice, no object under two keys, and
    every key is a routable id, bound to an object of the heap whose [id]
    member is that key. *)
Definition storeConsistent (st : State) : Prop :=
  NoDup (users st).*1 /\
  NoDup (users st).*2 /\
  forall k l, (k, l) ∈ users st ->
    isRoutableUserId k = true /\
    exists o, heap st !! l = Some o /\ o !! js "id" = Some (VStr k).

(** [error.code], where the error has one. *)
Definition errorCode (e : AppError) : option jsstring :=
  match e with
  | ValidationError _ _ code => Some code
  | BusinessError code _ => Some code
  | NetworkError _ _ _ => None
  end.

(** The status the [getUserById], [updateUser] and [deleteUser]
    controllers answer with: [ok] on success, [ResponseHelper.notFound]
    (404) when [result.error.code === 'NOT_FOUND'], and the status of
    [ResponseHelper.error] otherwise. *)
Definition userControllerStatus {T} (r : Result T) (ok : Z) : number :=
  match r with
  | Success _ => num ok
  | Failure e =>
      if bool_decide (errorCode e = Some (js "NOT_FOUND")) then num 404
      else getStatusCodeFromError e
  end.


(** ** The form and the reducer of the React front end *)

(** [typeof data === 'object' && data !== null] and the [typeof] of the
    five members. *)
Definition isUserFormData (data : value) : bool :=
  typeofObject data &&
  isString data.["name"] && isString data.["email"] && isString data.["age"] &&
  isString data.["tags"] && isBoolean data.["isActive"].

Record FormValidationError := {
  formField : jsstring;
  formMessage : jsstring;
}.

Record FormValidation := {
  formValid : bool;
  formErrors : list FormValidationError;
  formUser : option object;
}.

(** The string a member holds ([''] is never read: the members are
    strings once [isUserFormData] has passed). *)
Definition stringOf (v : value) : jsstring :=
  match v with VStr s => s | _ => [] end.

Definition digitValue (c : N) : Z := Z.of_N c - 48.

Fixpoint takeWhile {A} (p : A -> bool) (l : list A) : list A :=
  match l with
  | [] => []
  | x :: l' => if p x then x :: takeWhile p l' else []
  end.

(** [parseInt(s, 10)]: leading white space is skipped, a sign is read,
    then the longest run of decimal digits; [NaN] when there is none.
    The integer is kept exact. *)
Definition parseInt10 (s : jsstring) : number :=
  let s1 := trimStart s in
  let '(negative, s2) :=
    match s1 with
    | c :: t =>
        if (c =? N_of_ascii "-")%N then (true, t)
        else if (c =? N_of_ascii "+")%N then (false, t)
        else (false, s1)
    | [] => (false, [])
    end in
  match takeWhile isDigit s2 with
  | [] => NaN
  | digits =>
      let n := fold_left (fun acc c => 10 * acc + digitValue c)%Z digits 0%Z in
      num (if negative then - n else n)
  end.

(** [s.split(sep)] for a separator of one code unit *)
Fixpoint split (sep : N) (s : jsstring) : list jsstring :=
  match s with
  | [] => [[]]
  | c :: t =>
      if (c =? sep)%N then [] :: split sep t
      else match split sep t with
           | piece :: pieces => (c :: piece) :: pieces
           | [] => [[c]]
           end
  end.

(** [if (cond) errors.push({ field, message })] *)
Definition formReport (cond : bool) (fld msg : string)
    (errors : list FormValidationError) : list FormValidationError :=
  if cond then errors ++ [{| formField := js fld; formMessage := js msg |}] else errors.

(** [validateUserForm], with the readings of [Date.now()] and of the two
    [new Date()] it takes when it builds the user. *)
Definition validateUserForm (now createdAt updatedAt : Z) (data : value) : FormValidation :=
  if negb (isUserFormData data) then
    {| formValid := false;
       formErrors := [{| formField := js "name";
                         formMessage := js "Invalid form data structure" |}];
       formUser := None |}
  else
    let name := stringOf data.["name"] in
    let email := stringOf data.["email"] in
    let errors := [] in
    let errors :=
      formReport (bool_decide (trim name = [])) "name" "Name is required" errors in
    let errors :=
      formReport (negb (test emailRegex email)) "email" "Invalid email format" errors in
    let age := parseInt10 (stringOf data.["age"]) in
    let errors :=
      formReport (isNaN age || num_lt age (num 1) || num_gt age (num 120))
        "age" "Age must be between 1 and 120" errors in
    let tags :=
      filter (fun tag => tag <> [])
        (trim <$> split (N_of_ascii ",") (stringOf data.["tags"])) in
    let errors :=
      formReport (length tags =? 0) "tags" "At least one tag is required" errors in
    if 0 <? length errors then
      {| formValid := false; formErrors := errors; formUser := None |}
    else
      {| formValid := true; formErrors := [];
         formUser :=
           Some (props [("id", VStr (js "user_" ++ decimal now));
                        ("name", VStr (trim name));
                        ("contact", obj [("email", VStr email)]);
                        ("age", VNum age);
                        ("isActive", data.["isActive"]);
                        ("tags", VArr (VStr <$> tags));
                        ("createdAt", VDate (Some createdAt));
                        ("updatedAt", VDate (Some updatedAt))]) |}.

(** The state and the actions of [appReducer].  [currentUser] is a user
    or [null]; the ids actions carry are strings. *)
Record AppState := {
  currentUser : value;
  appUsers : list value;
  appEvents : list value;
  loading : bool;
  appError : option AppError;
}.

Inductive AppAction :=
| SET_LOADING (payload : bool)
| SET_ERROR (payload : option AppError)
| SET_CURRENT_USER (payload : value)
| ADD_USER (payload : value)
| UPDATE_USER (id : jsstring) (updates : value)
| REMOVE_USER (payload : jsstring)
| ADD_EVENT (payload : value)
| RESET_STATE.

Definition initialState : AppState :=
  {| currentUser := VNull; appUsers := []; appEvents := [];
     loading := false; appError := None |}.

(** [user.id === id], for a string [id] *)
Definition hasId (id : jsstring) (user : value) : bool :=
  match user.["id"] with
  | VStr s => bool_decide (s = id)
  | _ => false
  end.

(** [state.users.map(user => user.id === id ? { ...user, ...updates,
    updatedAt: new Date() } : user)]; the [k]-th object built takes the
    [k]-th reading of the clock. *)
Fixpoint updateUsers (now : nat -> Z) (k : nat) (id : jsstring) (updates : value)
    (users : list value) : list value :=
  match users with
  | [] => []
  | user :: rest =>
      if hasId id user
      then VObj true (<[js "updatedAt" := VDate (Some (now k))]>
                        (spread updates ∪ spread user))
           :: updateUsers now (S k) id updates rest
      else user :: updateUsers now k id updates rest
  end.

(** [appReducer]; [now] gives the readings of the clock during the
    call. *)
Definition appReducer (now : nat -> Z) (state : AppState) (action : AppAction) : AppState :=
  match action with
  | SET_LOADING payload =>
      {| currentUser := currentUser state; appUsers := appUsers state;
         appEvents := appEvents state; loading := payload; appError := appError state |}
  | SET_ERROR payload =>
      {| currentUser := currentUser state; appUsers := appUsers state;
         appEvents := appEvents state; loading := false; appError := payload |}
  | SET_CURRENT_USER payload =>
      {| currentUser := payload; appUsers := appUsers state;
         appEvents := appEvents state; loading := loading state;
         appError := appError state |}
  | ADD_USER payload =>
      if negb (isUser payload) then state
      else {| currentUser := currentUser state; appUsers := appUsers state ++ [payload];
              appEvents := appEvents state; loading := loading state;
              appError := appError state |}
  | UPDATE_USER id updates =>
      {| currentUser := currentUser state;
         appUsers := updateUsers now 0 id updates (appUsers state);
         appEvents := appEvents state; loading := loading state;
         appError := appError state |}
  | REMOVE_USER payload =>
      {| currentUser :=
           if hasId payload (currentUser state) then VNull else currentUser state;
         appUsers := filter (fun user => hasId payload user = false) (appUsers state);
         appEvents := appEvents state; loading := loading state;
         appError := appError state |}
  | ADD_EVENT payload =>
      if negb (isAPIEvent payload) then state
      else {| currentUser := currentUser state; appUsers := appUsers state;
              appEvents := payload :: slice (appEvents state) (num 0) (num 99);
              loading := loading state; appError := appError state |}
  | RESET_STATE => initialState
  end.

(** The state after a sequence of dispatches, each with its clock. *)
Fixpoint dispatchAll (actions : list ((nat -> Z) * AppAction)) (state : AppState)
    : AppState :=
  match actions with
  | [] => state
  | (now, action) :: rest => dispatchAll rest (appReducer now state action)
  end.

(* ===================================================================== *)
(** * 8. Properties of the predicates *)
(* ===================================================================== *)

Ltac keys_ne := let H := fresh in intros H; vm_compute in H; discriminate H.

Section Trim.

Lemma dropWhile_nil_iff {A} (p : A -> bool) (l : list A) :
  dropWhile p l = [] <-> forallb p l = true.
Proof.
  induction l as [|x l IH]; simpl; [tauto|].
  destruct (p x); simpl; [exact IH|].
  split; discriminate.
Qed.

Lemma forallb_rev {A} (p : A -> bool) (l : list A) :
  forallb p (rev l) = forallb p l.
Proof.
  induction l as [|x l IH]; simpl; [reflexivity|].
  rewrite forallb_app, IH. simpl. rewrite andb_true_r. apply andb_comm.
Qed.

Lemma forallb_dropWhile {A} (p : A -> bool) (l : list A) :
  forallb p (dropWhile p l) = forallb p l.
Proof.
  induction l as [|x l IH]; simpl; [reflexivity|].
  destruct (p x) eqn:Hx; simpl; [exact IH|].
  rewrite Hx. reflexivity.
Qed.

Lemma trim_nil_iff (s : jsstring) :
  trim s = [] <-> forallb isWhiteSpace s = true.
Proof.
  unfold trim, trimEnd, trimStart.
  rewrite <- (forallb_dropWhile isWhiteSpace s).
  rewrite <- (forallb_rev isWhiteSpace (dropWhile isWhiteSpace s)).
  rewrite <- dropWhile_nil_iff.
  split; intros H.
  - apply (f_equal (@rev N)) in H. rewrite rev_involutive in H. exact H.
  - rewrite H. reflexivity.
Qed.

Lemma isNonEmptyString_spec (s : jsstring) :
  isNonEmptyString (VStr s) = negb (forallb isWhiteSpace s).
Proof.
  unfold isNonEmptyString. simpl.
  destruct (forallb isWhiteSpace s) eqn:Hws; simpl.
  - apply trim_nil_iff in Hws. rewrite Hws. reflexivity.
  - destruct (trim s) eqn:Ht; [|reflexivity].
    apply trim_nil_iff in Ht. congruence.
Qed.

Lemma isNonEmptyString_cons (c : N) (s : jsstring) :
  isWhiteSpace c = false -> isNonEmptyString (VStr (c :: s)) = true.
Proof.
  intros Hc. rewrite isNonEmptyString_spec. simpl. rewrite Hc. reflexivity.
Qed.

End Trim.

Section Validation.

Lemma report_length c f m v es :
  length (report c f m v es) = length es + (if c then 1 else 0).
Proof.
  unfold report. destruct c; [rewrite length_app; reflexivity | lia].
Qed.

Lemma validateUser_valid (v : value) :
  isValid (validateUser v) = true <->
  isObject v = true /\ idInvalid v = false /\ nameInvalid v = false /\
  contactInvalid v = false /\ ageInvalid v = false /\ isActiveInvalid v = false /\
  tagsInvalid v = false /\ createdAtInvalid v = false /\ updatedAtInvalid v = false.
Proof.
  unfold validateUser.
  destruct (isObject v); simpl; [|intuition discriminate].
  assert (Hlen : length (collectErrors v) =
    (if idInvalid v then 1 else 0) + (if nameInvalid v then 1 else 0) +
    (if contactInvalid v then 1 else 0) + (if ageInvalid v then 1 else 0) +
    (if isActiveInvalid v then 1 else 0) + (if tagsInvalid v then 1 else 0) +
    (if createdAtInvalid v then 1 else 0) + (if updatedAtInvalid v then 1 else 0)).
  { unfold collectErrors. rewrite !report_length. simpl. lia. }
  destruct (length (collectErrors v)) eqn:Hn; simpl.
  - destruct (idInvalid v), (nameInvalid v), (contactInvalid v), (ageInvalid v),
      (isActiveInvalid v), (tagsInvalid v), (createdAtInvalid v), (updatedAtInvalid v);
      simpl in Hlen; try lia; intuition.
  - split; [discriminate|].
    intros (_ & H1 & H2 & H3 & H4 & H5 & H6 & H7 & H8).
    rewrite H1, H2, H3, H4, H5, H6, H7, H8 in Hlen. simpl in Hlen. lia.
Qed.

Lemma validateUser_errors (v : value) :
  isObject v = true -> errors (validateUser v) = collectErrors v.
Proof.
  intros Hobj. unfold validateUser. rewrite Hobj. simpl.
  destruct (collectErrors v); reflexivity.
Qed.

End Validation.

(** C9 (amended).  The [isNumber] of [detailed-type-guards.ts] returns
    true exactly when its argument is of numeric type and is neither NaN
    nor non-finite; the simple [isNumber] of [type-guards-examples.ts]
    returns true exactly when its argument is of numeric type and is not
    NaN, so it lets both infinities through. *)
Theorem isNumber_accepts_exactly_finite :
  acceptsExactlyFiniteNumbers isNumber /\
  (forall v, TypeGuardsExamples.isNumber v = true <->
             exists n, v = VNum n /\ isNaN n = false).
Proof.
  split; intros v; split.
  - destruct v as [| | |n| | | | |]; simpl; try discriminate.
    intros H. apply andb_true_iff in H as [Hnan Hfin].
    exists n. rewrite negb_true_iff in Hnan. auto.
  - intros (n & -> & Hnan & Hfin). simpl. rewrite Hnan, Hfin. reflexivity.
  - destruct v as [| | |n| | | | |]; simpl; try discriminate.
    intros H. exists n. rewrite negb_true_iff in H. auto.
  - intros (n & -> & Hnan). simpl. rewrite Hnan. reflexivity.
Qed.

(** C9, as stated, fails on the simple predicate: [isNumber(Infinity)]
    is true there. *)
Lemma simple_isNumber_accepts_Infinity :
  TypeGuardsExamples.isNumber (VNum Infinity) = true /\
  ~ acceptsExactlyFiniteNumbers TypeGuardsExamples.isNumber.
Proof.
  split; [reflexivity|].
  intros H. destruct (proj1 (H (VNum Infinity)) eq_refl) as (n & Hn & _ & Hfin).
  injection Hn as <-. discriminate Hfin.
Qed.

(** C10.  [isNonEmptyString] is false on every string made of whitespace
    only, and [validateUser] rejects every value whose [name] or [id] is
    such a string. *)
Theorem whitespace_only_rejected (s : jsstring) :
  forallb isWhiteSpace s = true ->
  isNonEmptyString (VStr s) = false /\
  (forall v, v.["name"] = VStr s \/ v.["id"] = VStr s ->
             isValid (validateUser v) = false).
Proof.
  intros Hws.
  assert (Hs : isNonEmptyString (VStr s) = false)
    by (rewrite isNonEmptyString_spec, Hws; reflexivity).
  split; [exact Hs|].
  intros v Hv.
  destruct (isValid (validateUser v)) eqn:Hvalid; [|reflexivity].
  apply validateUser_valid in Hvalid as (_ & Hid & Hname & _).
  unfold idInvalid in Hid. unfold nameInvalid in Hname.
  apply orb_false_iff in Hid as [_ Hid], Hname as [_ Hname].
  rewrite negb_false_iff in Hid, Hname.
  destruct Hv as [Hv | Hv]; rewrite Hv in *; congruence.
Qed.

Lemma whitespace_only_rejected_witness :
  forallb isWhiteSpace (js "   ") = true /\
  isNonEmptyString (VStr (js "   ")) = false /\
  (forall v, v.["name"] = VStr (js "   ") \/ v.["id"] = VStr (js "   ") ->
             isValid (validateUser v) = false).
Proof.
  split; [reflexivity|].
  apply (whitespace_only_rejected (js "   ")). reflexivity.
Defined.

Section MissingField.

Variables (p : bool) (o : object).

Lemma inOp_insert_ne k k' x :
  js k <> js k' -> inOp k' (VObj p (<[js k := x]> o)) = inOp k' (VObj p o).
Proof. intros Hne. unfold inOp. rewrite lookup_insert_ne by exact Hne. reflexivity. Qed.

Lemma getProp_insert_ne k k' x :
  js k <> js k' -> (VObj p (<[js k := x]> o)).[k'] = (VObj p o).[k'].
Proof. intros Hne. unfold getProp. rewrite lookup_insert_ne by exact Hne. reflexivity. Qed.

Lemma inOp_absent k : o !! js k = None -> inOp k (VObj p o) = false.
Proof. intros H. unfold inOp. rewrite H. reflexivity. Qed.

End MissingField.

Ltac transfer_check H :=
  rewrite ?inOp_insert_ne, ?getProp_insert_ne in H by keys_ne.

(** C4 (amended).  When a required field [F] is absent from an object
    whose other fields are valid (putting some value under [F] would make
    the object pass), [validateUser] returns exactly one error; its
    [field] is [F], its offending value is [undefined] and its message is
    the fixed message of that field: a "Missing or invalid ... field"
    message for [id], [name] and [contact], and the message naming the
    required type for [age], [isActive], [tags], [createdAt] and
    [updatedAt]. *)
Theorem missing_field_single_error (F : RequiredField) (p : bool) (o : object) (x : value) :
  o !! js (fieldName F) = None ->
  isValid (validateUser (VObj p (<[js (fieldName F) := x]> o))) = true ->
  errors (validateUser (VObj p o)) =
    [{| field := js (fieldName F); message := js (fieldMessage F);
        offending := VUndefined |}] /\
  (isMissingOrInvalidMessage (js (fieldMessage F)) = true <->
   F = f_id \/ F = f_name \/ F = f_contact).
Proof.
  intros Habsent Hvalid.
  apply validateUser_valid in Hvalid as (_ & H1 & H2 & H3 & H4 & H5 & H6 & H7 & H8).
  split.
  - rewrite validateUser_errors by reflexivity.
    unfold idInvalid, nameInvalid, contactInvalid, ageInvalid, isActiveInvalid,
      tagsInvalid, createdAtInvalid, updatedAtInvalid in *.
    pose proof (inOp_absent p o _ Habsent) as Hin.
    destruct F; cbn [fieldName fieldMessage] in *;
      transfer_check H1; transfer_check H2; transfer_check H3; transfer_check H4;
      transfer_check H5; transfer_check H6; transfer_check H7; transfer_check H8;
      unfold collectErrors, idInvalid, nameInvalid, contactInvalid, ageInvalid,
        isActiveInvalid, tagsInvalid, createdAtInvalid, updatedAtInvalid;
      rewrite ?H1, ?H2, ?H3, ?H4, ?H5, ?H6, ?H7, ?H8;
      unfold report; rewrite Hin; reflexivity.
  - destruct F; vm_compute; intuition discriminate.
Qed.

Lemma missing_field_single_error_witness :
  props agelessMembers !! js "age" = None /\
  isValid (validateUser storedTestUser) = true /\
  errors (validateUser userWithoutAge) =
    [{| field := js "age"; message := js "Age must be a positive integer";
        offending := VUndefined |}].
Proof.
  split; [vm_compute; reflexivity|].
  split; [vm_compute; reflexivity|].
  refine (proj1 (missing_field_single_error f_age true (props agelessMembers)
                   (VNum (num 30)) _ _));
    vm_compute; reflexivity.
Defined.

(** C4, as stated, fails for [age]: the single error reported for an
    object without [age] carries the type message. *)
Lemma missing_age_message_is_type_message :
  exists e, errors (validateUser userWithoutAge) = [e] /\
            field e = js "age" /\
            message e = js "Age must be a positive integer" /\
            isMissingOrInvalidMessage (message e) = false.
Proof.
  eexists. split; [vm_compute; reflexivity|].
  repeat split.
Qed.

(* ===================================================================== *)
(** * 9. Properties of the service *)
(* ===================================================================== *)

Section Heap.

Lemma run_exec {A} (c : M A) (st : State) : c st = (run c st, exec c st).
Proof. unfold run, exec. destruct (c st). reflexivity. Qed.

Lemma assign_fresh h o us es w k v :
  assign (length h) k v {| heap := h ++ [o]; users := us; events := es; world := w |} =
  (tt, {| heap := h ++ [<[js k := v]> o]; users := us; events := es; world := w |}).
Proof.
  unfold assign. simpl.
  rewrite lookup_app_r by lia. rewrite Nat.sub_diag. simpl.
  rewrite insert_app_r_alt by lia. rewrite Nat.sub_diag. reflexivity.
Qed.

Lemma deref_fresh h o us es w :
  deref {| heap := h ++ [o]; users := us; events := es; world := w |} (length h)
  = VObj true o.
Proof.
  unfold deref. simpl. rewrite lookup_app_r by lia.
  rewrite Nat.sub_diag. reflexivity.
Qed.

Lemma Map_get_set k v m : Map_get k (Map_set k v m) = Some v.
Proof.
  induction m as [|[k' v'] m IH]; simpl.
  - rewrite decide_True by reflexivity. reflexivity.
  - destruct (decide (k' = k)) as [->|Hne]; simpl.
    + rewrite decide_True by reflexivity. reflexivity.
    + rewrite decide_False by exact Hne. exact IH.
Qed.

Lemma Map_get_set_ne k k' v m : k <> k' -> Map_get k' (Map_set k v m) = Map_get k' m.
Proof.
  intros Hne. induction m as [|[k0 v0] m IH]; simpl.
  - rewrite decide_False by exact Hne. reflexivity.
  - destruct (decide (k0 = k)) as [->|Hne0]; simpl.
    + rewrite !decide_False by exact Hne. reflexivity.
    + destruct (decide (k0 = k')); [reflexivity | exact IH].
Qed.

End Heap.

Section CreateUser.

Variables (userData : value) (st : State).

Lemma createUser_valid :
  isValid (validateUser (VObj true (candidate st userData))) = true ->
  createUser userData st =
  (Success (length (heap st)),
   {| heap := heap st ++ [createdUser st userData];
      users := Map_set (nthId st 3 1) (length (heap st)) (users st);
      events := events st ++ [user_created (nthClock st 6) (length (heap st))];
      world := advance st 7 2 |}).
Proof.
  intros Hvalid.
  destruct st as [h us es [ck en n m]].
  unfold createUser, generateId, newDate, bind, ret, Date_now, randomSuffix,
    createdUser, candidate, advance, nthId, nthClock, nthSuffix in *.
  cbn [world heap users events clock entropy clockReads entropyReads Nat.add] in *.
  rewrite Hvalid. cbn [negb].
  unfold alloc. cbn [world heap users events clock entropy clockReads entropyReads].
  repeat (rewrite assign_fresh;
          cbn [world heap users events clock entropy clockReads entropyReads]).
  reflexivity.
Qed.

Lemma createUser_invalid :
  isValid (validateUser (VObj true (candidate st userData))) = false ->
  createUser userData st =
  (Failure (ValidationError (js "userData") (js "Invalid user data")
              (js "INVALID_USER_DATA")),
   {| heap := heap st; users := users st; events := events st;
      world := advance st 3 1 |}).
Proof.
  intros Hvalid.
  destruct st as [h us es [ck en n m]].
  unfold createUser, generateId, newDate, bind, ret, Date_now, randomSuffix,
    createdUser, candidate, advance, nthId, nthClock, nthSuffix in *.
  cbn [world heap users events clock entropy clockReads entropyReads Nat.add] in *.
  rewrite Hvalid. reflexivity.
Qed.

End CreateUser.

Section Reports.

Lemma report_keeps c f m v es e :
  e ∈ es -> e ∈ report c f m v es.
Proof.
  intros He. unfold report. destruct c; [|exact He].
  apply elem_of_app. left. exact He.
Qed.

Lemma report_adds f m v es :
  exists e, e ∈ report true f m v es /\ field e = js f /\ message e = js m.
Proof.
  exists {| field := js f; message := js m;
            offending := if inOp f v then v.[f] else VUndefined |}.
  split; [|split; reflexivity].
  unfold report. apply elem_of_app. right. apply list_elem_of_singleton. reflexivity.
Qed.

Lemma ageInvalid_reported (v : value) :
  ageInvalid v = true ->
  exists e, e ∈ collectErrors v /\ field e = js "age".
Proof.
  intros Hage. unfold collectErrors. rewrite Hage.
  destruct (report_adds "age" "Age must be a positive integer" v
    (report (contactInvalid v) "contact" "Missing or invalid contact field" v
      (report (nameInvalid v) "name" "Missing or invalid name field" v
        (report (idInvalid v) "id" "Missing or invalid id field" v []))))
    as (e & He & Hf & _).
  exists e. split; [|exact Hf].
  do 4 apply report_keeps. exact He.
Qed.

End Reports.

(** C3 (amended).  A [createUser] call whose input carries [age: -1]
    fails with the validation error the service builds for every
    rejected input (field [userData], code [INVALID_USER_DATA]); the user
    map, the event log and the heap are left as they were; the detailed
    validation that led to the rejection has an entry for field [age],
    which the result does not carry. *)
Theorem createUser_negative_age (userData : value) (st : State) :
  spread userData !! js "age" = Some (VNum (num (-1))) ->
  exists st',
    createUser userData st =
      (Failure (ValidationError (js "userData") (js "Invalid user data")
                  (js "INVALID_USER_DATA")), st') /\
    users st' = users st /\ events st' = events st /\ heap st' = heap st /\
    exists e, e ∈ errors (validateUser (VObj true (candidate st userData))) /\
              field e = js "age".
Proof.
  intros Hage.
  assert (Hinv : ageInvalid (VObj true (candidate st userData)) = true).
  { unfold ageInvalid, inOp, getProp, candidate, userLiteral.
    rewrite (lookup_union_Some_l _ _ _ _ Hage). reflexivity. }
  assert (Hvalid : isValid (validateUser (VObj true (candidate st userData))) = false).
  { destruct (isValid _) eqn:E; [|reflexivity].
    apply validateUser_valid in E as (_ & _ & _ & _ & E & _). congruence. }
  eexists. split; [apply createUser_invalid; exact Hvalid|].
  repeat split.
  rewrite validateUser_errors by reflexivity.
  apply ageInvalid_reported. exact Hinv.
Qed.

Lemma createUser_negative_age_witness :
  spread userAgedMinusOne !! js "age" = Some (VNum (num (-1))) /\
  exists st',
    createUser userAgedMinusOne (emptyService tickingWorld) =
      (Failure (ValidationError (js "userData") (js "Invalid user data")
                  (js "INVALID_USER_DATA")), st') /\
    users st' = [] /\ events st' = [] /\ heap st' = [] /\
    exists e, e ∈ errors (validateUser (VObj true
                (candidate (emptyService tickingWorld) userAgedMinusOne))) /\
              field e = js "age".
Proof.
  split; [vm_compute; reflexivity|].
  apply (createUser_negative_age userAgedMinusOne (emptyService tickingWorld)).
  vm_compute. reflexivity.
Defined.

(** C3, as stated, fails: the failure names the field [userData], not
    [age]. *)
Lemma negative_age_failure_names_userData :
  failsOnField "userData" (run (createUser userAgedMinusOne) (emptyService tickingWorld)) /\
  ~ failsOnField "age" (run (createUser userAgedMinusOne) (emptyService tickingWorld)).
Proof.
  split; [vm_compute; reflexivity|].
  intros H. vm_compute in H. discriminate H.
Qed.

Section GetUsers.

Lemma getUsers_state (options : Options) (st : State) : exec (getUsers options) st = st.
Proof.
  unfold exec, getUsers.
  destruct (negb _ || negb _); reflexivity.
Qed.

Lemma orDefault_given (x : option number) (d : number) :
  (forall n, x = Some n -> num_truthy n = true) -> orDefault x d = default d x.
Proof.
  intros H. destruct x as [n|]; simpl; [|reflexivity].
  rewrite (H n eq_refl). reflexivity.
Qed.

End GetUsers.

Section Members.

Lemma isUser_members (p : bool) (o : object) :
  isUser (VObj p o) =
  userChecks (o !! js "id") (o !! js "name") (o !! js "contact") (o !! js "age")
    (o !! js "isActive") (o !! js "tags") (o !! js "createdAt") (o !! js "updatedAt")
    (o !! js "metadata").
Proof. reflexivity. Qed.

Lemma nthId_nonEmpty st kc ke : isNonEmptyString (VStr (nthId st kc ke)) = true.
Proof. apply isNonEmptyString_cons. reflexivity. Qed.

End Members.

Ltac decide_keys :=
  repeat match goal with
  | |- context [decide (js ?a = js ?b)] =>
      first [ rewrite (decide_True (P := js a = js b)) by reflexivity
            | rewrite (decide_False (P := js a = js b)) by keys_ne ]
  end.

Ltac lookups :=
  rewrite ?lookup_insert, ?lookup_union, ?lookup_insert, ?lookup_empty; decide_keys.

Ltac split_checks H :=
  repeat match type of H with
  | (_ && _) = true => let H' := fresh "Hc" in apply andb_true_iff in H as [H H']
  end.

Ltac join_checks :=
  repeat match goal with
  | |- (_ && _) = true => apply andb_true_intro; split
  end.

Section WellFormed.

(** Assigning a non-empty id and two valid dates keeps a user valid. *)
Lemma isUser_system_members (p : bool) (o : object) i c u :
  isUser (VObj p o) = true ->
  isNonEmptyString (VStr i) = true ->
  isUser (VObj p (<[js "updatedAt" := VDate (Some u)]>
                    (<[js "createdAt" := VDate (Some c)]>
                       (<[js "id" := VStr i]> o)))) = true.
Proof.
  rewrite !isUser_members. lookups.
  unfold userChecks. intros H Hi. cbn beta zeta in *.
  split_checks H.
  join_checks; first [assumption | reflexivity].
Qed.

(** A body the creation middleware accepts gives a candidate that
    passes [isUser], whatever the generated id and the clock. *)
Lemma isUser_candidate userData st t1 t2 :
  isUserCreationBody t1 t2 userData = true ->
  isUser (VObj true (candidate st userData)) = true.
Proof.
  unfold isUserCreationBody, candidate, userLiteral.
  rewrite !isUser_members. lookups.
  pose proof (nthId_nonEmpty st 0 0) as Hid.
  unfold userChecks. cbn beta zeta. intros H.
  split_checks H.
  destruct (spread userData !! js "id"), (spread userData !! js "createdAt"),
    (spread userData !! js "updatedAt");
    join_checks; first [assumption | reflexivity].
Qed.

(** [validateUser] runs every check of [isUser] but the one on
    [metadata]. *)
Lemma isUser_valid (v : value) :
  isUser v = true -> isValid (validateUser v) = true.
Proof.
  intros H. apply validateUser_valid. unfold isUser in H.
  destruct (isObject v); [|discriminate H]. cbn [negb] in H.
  split_checks H.
  unfold idInvalid, nameInvalid, contactInvalid, ageInvalid, isActiveInvalid,
    tagsInvalid, createdAtInvalid, updatedAtInvalid.
  repeat match goal with Hx : _ = true |- _ => rewrite Hx; clear Hx end.
  repeat split.
Qed.

End WellFormed.

Section ReadAndUpdate.

Lemma getUserById_success id st r st' :
  getUserById id st = (Success r, st') ->
  st' = st /\ Map_get id (users st) = Some r /\ isUser (deref st r) = true /\
  isNonEmptyString (VStr id) = true.
Proof.
  unfold getUserById.
  destruct (isNonEmptyString (VStr id)) eqn:Hid; cbn [negb]; [|discriminate].
  destruct (Map_get id (users st)) as [user|] eqn:Hget; [|discriminate].
  destruct (isUser (deref st user)) eqn:Huser; cbn [negb]; [|discriminate].
  intros H. injection H as <- <-. repeat split; assumption.
Qed.

Lemma getUserById_found id st r :
  isNonEmptyString (VStr id) = true ->
  Map_get id (users st) = Some r ->
  isUser (deref st r) = true ->
  getUserById id st = (Success r, st).
Proof.
  intros Hid Hget Huser. unfold getUserById.
  rewrite Hid, Hget, Huser. reflexivity.
Qed.

Lemma getUserById_state {id st} : (getUserById id st).2 = st.
Proof.
  unfold getUserById.
  destruct (negb _); [reflexivity|].
  destruct (Map_get id (users st)); [|reflexivity].
  destruct (negb _); reflexivity.
Qed.

Lemma updateUser_success id updates st r st' :
  updateUser id updates st = (Success r, st') ->
  exists old,
    getUserById id st = (Success old, st) /\
    r = length (heap st) /\
    st' = {| heap := heap st ++ [updatedUser st (deref st old) updates];
             users := Map_set id r (users st);
             events := events st ++ [user_updated (nthClock st 1) id updates old];
             world := advance st 2 0 |}.
Proof.
  unfold updateUser, bind.
  destruct (getUserById id st) as [[old|e] st0] eqn:Hget; [|discriminate].
  pose proof (@getUserById_state id st) as Hst. rewrite Hget in Hst.
  cbn in Hst. subst st0.
  destruct (typeofObject updates); cbn [negb]; [|discriminate].
  destruct st as [h us es [ck en n m]].
  unfold newDate, bind, ret, Date_now, alloc, users_set, events_push,
    updatedUser, nthClock, advance.
  cbn [world heap users events clock entropy clockReads entropyReads Nat.add].
  match goal with |- context [isValid ?x] => destruct (isValid x) end;
    cbn [negb]; [|discriminate].
  cbn [world heap users events clock entropy clockReads entropyReads].
  intros H. injection H as <- <-.
  exists old. auto.
Qed.

End ReadAndUpdate.

(** C6.  A successful [updateUser] stores, under the same key, an object
    whose [id] and [createdAt] are those of the object stored before the
    update, whatever the update input contains. *)
Theorem updateUser_preserves_id_createdAt
    (id : jsstring) (updates : value) (st st' : State) (r : loc) :
  updateUser id updates st = (Success r, st') ->
  exists old,
    Map_get id (users st) = Some old /\
    Map_get id (users st') = Some r /\
    (deref st' r).["id"] = (deref st old).["id"] /\
    (deref st' r).["createdAt"] = (deref st old).["createdAt"].
Proof.
  intros H. apply updateUser_success in H as (old & Hget & -> & ->).
  apply getUserById_success in Hget as (_ & Hold & _ & _).
  exists old. split; [exact Hold|].
  cbn [users]. split; [apply Map_get_set|].
  destruct st as [h us es w]. cbn [heap]. rewrite deref_fresh.
  split; unfold getProp at 1; unfold updatedUser.
  - rewrite lookup_insert_ne by keys_ne. rewrite lookup_insert_ne by keys_ne.
    rewrite lookup_insert_eq. reflexivity.
  - rewrite lookup_insert_ne by keys_ne. rewrite lookup_insert_eq. reflexivity.
Qed.

Lemma updateUser_preserves_id_createdAt_witness :
  updateUser testUserId intrusiveUpdates serviceWithTestUser =
    (Success 1, exec (updateUser testUserId intrusiveUpdates) serviceWithTestUser) /\
  exists old,
    Map_get testUserId (users serviceWithTestUser) = Some old /\
    Map_get testUserId
      (users (exec (updateUser testUserId intrusiveUpdates) serviceWithTestUser)) = Some 1 /\
    (deref (exec (updateUser testUserId intrusiveUpdates) serviceWithTestUser) 1).["id"]
      = (deref serviceWithTestUser old).["id"] /\
    (deref (exec (updateUser testUserId intrusiveUpdates) serviceWithTestUser) 1).["createdAt"]
      = (deref serviceWithTestUser old).["createdAt"].
Proof.
  assert (H : updateUser testUserId intrusiveUpdates serviceWithTestUser =
              (Success 1, exec (updateUser testUserId intrusiveUpdates) serviceWithTestUser)).
  { rewrite (run_exec (updateUser testUserId intrusiveUpdates)).
    f_equal; vm_compute; reflexivity. }
  split; [exact H|].
  apply (updateUser_preserves_id_createdAt testUserId intrusiveUpdates
           serviceWithTestUser _ 1 H).
Defined.

Section Created.

Variables (userData : value) (st : State).

Lemma createdUser_id :
  createdUser st userData !! js "id" = Some (VStr (nthId st 3 1)).
Proof.
  unfold createdUser.
  rewrite lookup_insert_ne by keys_ne. rewrite lookup_insert_ne by keys_ne.
  apply lookup_insert_eq.
Qed.

Lemma createdUser_createdAt :
  createdUser st userData !! js "createdAt" = Some (VDate (Some (nthClock st 4))).
Proof.
  unfold createdUser.
  rewrite lookup_insert_ne by keys_ne. apply lookup_insert_eq.
Qed.

Lemma createdUser_updatedAt :
  createdUser st userData !! js "updatedAt" = Some (VDate (Some (nthClock st 5))).
Proof. unfold createdUser. apply lookup_insert_eq. Qed.

Lemma createdUser_other (k : jsstring) :
  k <> js "id" -> k <> js "createdAt" -> k <> js "updatedAt" ->
  createdUser st userData !! k = spread userData !! k.
Proof.
  intros Hid Hc Hu. unfold createdUser, candidate, userLiteral.
  rewrite !lookup_insert_ne by congruence.
  rewrite lookup_union, !lookup_insert_ne by congruence.
  rewrite lookup_empty. destruct (spread userData !! k); reflexivity.
Qed.

Lemma createUser_result r st1 :
  createUser userData st = (Success r, st1) ->
  r = length (heap st) /\
  st1 = {| heap := heap st ++ [createdUser st userData];
           users := Map_set (nthId st 3 1) (length (heap st)) (users st);
           events := events st ++ [user_created (nthClock st 6) (length (heap st))];
           world := advance st 7 2 |}.
Proof.
  destruct (isValid (validateUser (VObj true (candidate st userData)))) eqn:Hvalid.
  - rewrite (createUser_valid _ _ Hvalid). intros H. injection H as <- <-. auto.
  - rewrite (createUser_invalid _ _ Hvalid). discriminate.
Qed.

End Created.

(** C7 (amended).  For an input the creation check accepts, [createUser]
    succeeds and [getUserById] on the generated id succeeds and returns
    the very object that was created; every member of that object other
    than [id], [createdAt] and [updatedAt] is the member of the input;
    [id] is the generated non-empty id; [createdAt] and [updatedAt] are
    valid Dates holding two successive readings of the clock, so they
    are equal exactly when the clock did not move between the two
    readings. *)
Theorem createUser_then_getUserById (userData : value) (st : State) (t1 t2 : Z) :
  isUserCreationBody t1 t2 userData = true ->
  exists r st1,
    createUser userData st = (Success r, st1) /\
    getUserById (nthId st 3 1) st1 = (Success r, st1) /\
    deref st1 r = VObj true (createdUser st userData) /\
    (forall k, k <> js "id" -> k <> js "createdAt" -> k <> js "updatedAt" ->
               createdUser st userData !! k = spread userData !! k) /\
    (deref st1 r).["id"] = VStr (nthId st 3 1) /\
    isNonEmptyString (VStr (nthId st 3 1)) = true /\
    (deref st1 r).["createdAt"] = VDate (Some (nthClock st 4)) /\
    (deref st1 r).["updatedAt"] = VDate (Some (nthClock st 5)) /\
    ((deref st1 r).["updatedAt"] = (deref st1 r).["createdAt"] <->
     nthClock st 5 = nthClock st 4).
Proof.
  intros Hbody.
  pose proof (isUser_candidate userData st t1 t2 Hbody) as Hcand.
  pose proof (isUser_system_members true _ _ (nthClock st 4) (nthClock st 5)
                Hcand (nthId_nonEmpty st 3 1)) as Huser.
  fold (createdUser st userData) in Huser.
  eexists _, _. split; [apply createUser_valid, isUser_valid, Hcand|].
  rewrite deref_fresh.
  assert (Hid : (VObj true (createdUser st userData)).["id"] = VStr (nthId st 3 1))
    by (unfold getProp; rewrite createdUser_id; reflexivity).
  assert (Hc : (VObj true (createdUser st userData)).["createdAt"]
               = VDate (Some (nthClock st 4)))
    by (unfold getProp; rewrite createdUser_createdAt; reflexivity).
  assert (Hu : (VObj true (createdUser st userData)).["updatedAt"]
               = VDate (Some (nthClock st 5)))
    by (unfold getProp; rewrite createdUser_updatedAt; reflexivity).
  rewrite Hid, Hc, Hu.
  split.
  { apply getUserById_found.
    - apply nthId_nonEmpty.
    - cbn [users]. apply Map_get_set.
    - rewrite deref_fresh. exact Huser. }
  split; [reflexivity|].
  split; [apply createdUser_other|].
  split; [reflexivity|].
  split; [apply nthId_nonEmpty|].
  split; [reflexivity|].
  split; [reflexivity|].
  split; [intros H; congruence | intros ->; reflexivity].
Qed.

Lemma createUser_then_getUserById_witness :
  isUserCreationBody 0 0 testUser = true /\
  exists r st1,
    createUser testUser (emptyService tickingWorld) = (Success r, st1) /\
    getUserById testUserId st1 = (Success r, st1).
Proof.
  split; [vm_compute; reflexivity|].
  destruct (createUser_then_getUserById testUser (emptyService tickingWorld) 0 0)
    as (r & st1 & Hcreate & Hget & _).
  - vm_compute. reflexivity.
  - exists r, st1. split; [exact Hcreate | exact Hget].
Defined.

(** C7, as stated, fails on its last part: when the clock moves between
    the two [new Date()] calls the created user has an [updatedAt]
    different from its [createdAt]. *)
Lemma createUser_timestamps_differ :
  isUserCreationBody 0 0 testUser = true /\
  run (createUser testUser) (emptyService tickingWorld) = Success 0 /\
  run (getUserById testUserId) serviceWithTestUser = Success 0 /\
  (deref serviceWithTestUser 0).["createdAt"] = VDate (Some 1700000000004%Z) /\
  (deref serviceWithTestUser 0).["updatedAt"] = VDate (Some 1700000000005%Z) /\
  (deref serviceWithTestUser 0).["updatedAt"] <> (deref serviceWithTestUser 0).["createdAt"].
Proof.
  repeat split; try (vm_compute; reflexivity).
  intros H. vm_compute in H. discriminate H.
Qed.

Section Invariant.

Lemma Map_get_set_cases k k' v m l :
  Map_get k' (Map_set k v m) = Some l ->
  (k' = k /\ l = v) \/ Map_get k' m = Some l.
Proof.
  destruct (decide (k = k')) as [<-|Hne].
  - rewrite Map_get_set. intros H. injection H as <-. auto.
  - rewrite Map_get_set_ne by exact Hne. auto.
Qed.

Lemma Map_get_delete_eq k m : Map_get k (Map_delete k m) = None.
Proof.
  unfold Map_delete. induction m as [|[k0 v0] m IH]; [reflexivity|].
  rewrite filter_cons. cbn [fst].
  destruct (decide (k0 <> k)) as [Hne|_]; [|exact IH].
  cbn [Map_get]. rewrite decide_False by exact Hne. exact IH.
Qed.

Lemma Map_get_delete k k' m l :
  Map_get k' (Map_delete k m) = Some l -> Map_get k' m = Some l.
Proof.
  destruct (decide (k = k')) as [<-|Hkk]; [rewrite Map_get_delete_eq; discriminate|].
  unfold Map_delete. induction m as [|[k0 v0] m IH]; [discriminate|].
  rewrite filter_cons. cbn [fst Map_get].
  destruct (decide (k0 <> k)) as [Hne|Heq]; cbn [Map_get].
  - destruct (decide (k0 = k')); [auto | exact IH].
  - destruct (decide (k0 = k')) as [->|_]; [|exact IH].
    exfalso. apply Heq. congruence.
Qed.

Lemma deref_valid_old h o us es w us' es' w' l :
  isValid (validateUser (deref {| heap := h; users := us; events := es; world := w |} l))
    = true ->
  deref {| heap := h ++ [o]; users := us'; events := es'; world := w' |} l
  = deref {| heap := h; users := us; events := es; world := w |} l.
Proof.
  unfold deref. cbn [heap]. intros H.
  destruct (h !! l) as [x|] eqn:Hl; [|discriminate H].
  rewrite lookup_app_l by (apply lookup_lt_Some in Hl; exact Hl).
  rewrite Hl. reflexivity.
Qed.

(** Assigning a non-empty id and two valid dates keeps an object valid
    for [validateUser]. *)
Lemma validateUser_system_members (p : bool) (o : object) i c u :
  isValid (validateUser (VObj p o)) = true ->
  isNonEmptyString (VStr i) = true ->
  isValid (validateUser (VObj p (<[js "updatedAt" := VDate (Some u)]>
                                   (<[js "createdAt" := VDate (Some c)]>
                                      (<[js "id" := VStr i]> o))))) = true.
Proof.
  intros H Hi.
  apply validateUser_valid in H as (_ & H1 & H2 & H3 & H4 & H5 & H6 & H7 & H8).
  apply validateUser_valid. split; [reflexivity|].
  unfold idInvalid, nameInvalid, contactInvalid, ageInvalid, isActiveInvalid,
    tagsInvalid, createdAtInvalid, updatedAtInvalid in *.
  unfold inOp, getProp in *. lookups.
  rewrite H2, H3, H4, H5, H6.
  repeat split; try reflexivity.
  change (negb true || negb (isNonEmptyString (VStr i)) = false).
  rewrite Hi. reflexivity.
Qed.

Lemma updateUser_cases id updates st :
  (heap (exec (updateUser id updates) st) = heap st /\
   users (exec (updateUser id updates) st) = users st) \/
  (exists old,
     isValid (validateUser (VObj true (updatedUser st (deref st old) updates))) = true /\
     heap (exec (updateUser id updates) st)
       = heap st ++ [updatedUser st (deref st old) updates] /\
     users (exec (updateUser id updates) st)
       = Map_set id (length (heap st)) (users st)).
Proof.
  unfold exec, updateUser, bind.
  destruct (getUserById id st) as [[old|e] st0] eqn:Hget;
    pose proof (@getUserById_state id st) as Hst; rewrite Hget in Hst;
    cbn in Hst; subst st0; [|left; split; reflexivity].
  destruct (typeofObject updates); cbn [negb]; [|left; split; reflexivity].
  destruct st as [h us es [ck en n m]].
  unfold newDate, bind, ret, Date_now, alloc, users_set, events_push,
    updatedUser, nthClock.
  cbn [world heap users events clock entropy clockReads entropyReads Nat.add].
  match goal with |- context [isValid ?x] => destruct (isValid x) eqn:Hvalid end;
    cbn [negb snd heap users]; [|left; split; reflexivity].
  right. exists old. repeat split. exact Hvalid.
Qed.

Lemma deleteUser_cases id st :
  heap (exec (deleteUser id) st) = heap st /\
  (users (exec (deleteUser id) st) = users st \/
   users (exec (deleteUser id) st) = Map_delete id (users st)).
Proof.
  unfold exec, deleteUser, bind.
  destruct (getUserById id st) as [[user|e] st0] eqn:Hget;
    pose proof (@getUserById_state id st) as Hst; rewrite Hget in Hst;
    cbn in Hst; subst st0; [|split; [|left]; reflexivity].
  split; [|right]; reflexivity.
Qed.

Lemma createUser_cases userData st :
  (heap (exec (createUser userData) st) = heap st /\
   users (exec (createUser userData) st) = users st) \/
  (isValid (validateUser (VObj true (createdUser st userData))) = true /\
   heap (exec (createUser userData) st) = heap st ++ [createdUser st userData] /\
   users (exec (createUser userData) st)
     = Map_set (nthId st 3 1) (length (heap st)) (users st)).
Proof.
  unfold exec.
  destruct (isValid (validateUser (VObj true (candidate st userData)))) eqn:Hvalid.
  - right. rewrite (createUser_valid _ _ Hvalid). cbn [snd heap users].
    repeat split.
    apply validateUser_system_members; [exact Hvalid | apply nthId_nonEmpty].
  - left. rewrite (createUser_invalid _ _ Hvalid). split; reflexivity.
Qed.

(** A step that leaves the heap and the map alone, or appends one
    validated object and binds a key to it, or removes a key, keeps the
    stored users validated. *)
Lemma validated_same st st' :
  heap st' = heap st -> users st' = users st ->
  storedUsersValidated st -> storedUsersValidated st'.
Proof.
  intros Hh Hu Hinv k l Hget. unfold deref. rewrite Hh.
  rewrite Hu in Hget. apply (Hinv k l Hget).
Qed.

Lemma validated_insert st st' o id :
  isValid (validateUser (VObj true o)) = true ->
  heap st' = heap st ++ [o] ->
  users st' = Map_set id (length (heap st)) (users st) ->
  storedUsersValidated st -> storedUsersValidated st'.
Proof.
  intros Ho Hh Hu Hinv k l Hget. rewrite Hu in Hget.
  unfold deref. rewrite Hh.
  apply Map_get_set_cases in Hget as [[_ ->] | Hget].
  - rewrite lookup_app_r by lia. rewrite Nat.sub_diag. exact Ho.
  - specialize (Hinv k l Hget). unfold deref in Hinv.
    destruct (heap st !! l) as [x|] eqn:Hl; [|discriminate Hinv].
    rewrite lookup_app_l by (apply lookup_lt_Some in Hl; exact Hl).
    rewrite Hl. exact Hinv.
Qed.

Lemma validated_delete st st' id :
  heap st' = heap st ->
  users st' = Map_delete id (users st) ->
  storedUsersValidated st -> storedUsersValidated st'.
Proof.
  intros Hh Hu Hinv k l Hget. rewrite Hu in Hget.
  apply Map_get_delete in Hget. unfold deref. rewrite Hh. apply (Hinv k l Hget).
Qed.

(** Every user the store holds has passed the checks of [validateUser]:
    all the checks of [isUser] except the one on [metadata]. *)
Lemma reachable_validated st : reachable st -> storedUsersValidated st.
Proof.
  induction 1 as [w | st ud _ IH | st id upd _ IH | st id _ IH].
  - intros k l H. discriminate H.
  - destruct (createUser_cases ud st) as [[Hh Hu] | (Hv & Hh & Hu)].
    + exact (validated_same _ _ Hh Hu IH).
    + exact (validated_insert _ _ _ _ Hv Hh Hu IH).
  - destruct (updateUser_cases id upd st) as [[Hh Hu] | (old & Hv & Hh & Hu)].
    + exact (validated_same _ _ Hh Hu IH).
    + exact (validated_insert _ _ _ _ Hv Hh Hu IH).
  - destruct (deleteUser_cases id st) as [Hh [Hu | Hu]].
    + exact (validated_same _ _ Hh Hu IH).
    + exact (validated_delete _ _ _ Hh Hu IH).
Qed.

End Invariant.

(** C1, at the failing inputs.  [createUser] accepts an input whose
    [metadata] is a string and stores it; the stored object does not pass
    [isUser], and [getUserById] answers [DATA_CORRUPTION] for it.  The
    same happens through [updateUser] on a valid stored user. *)
Theorem junk_metadata_is_stored :
  let st := exec (createUser userWithJunkMetadata) (emptyService tickingWorld) in
  let st' := exec (updateUser testUserId junkMetadataUpdates) serviceWithTestUser in
  run (createUser userWithJunkMetadata) (emptyService tickingWorld) = Success 0 /\
  Map_get testUserId (users st) = Some 0 /\
  isUser (deref st 0) = false /\
  run (getUserById testUserId) st =
    Failure (BusinessError (js "DATA_CORRUPTION") (js "Stored user data is corrupted")) /\
  isUser (deref serviceWithTestUser 0) = true /\
  run (updateUser testUserId junkMetadataUpdates) serviceWithTestUser = Success 1 /\
  Map_get testUserId (users st') = Some 1 /\
  isUser (deref st' 1) = false.
Proof. repeat split; vm_compute; reflexivity. Qed.

(** C2 (amended).  The reference a successful [createUser] hands back
    is the entry of the user map itself, and so is the one a successful
    [getUserById] hands back; a later assignment to a member of the
    returned object by the caller is read back through the store:
    [getUserById] on the same id returns the same object, with the
    assigned member, as long as the object still passes [isUser]. *)
Theorem createUser_returns_live_reference
    (userData : value) (st st1 : State) (r : loc) (key : string) (v : value) :
  createUser userData st = (Success r, st1) ->
  let id := nthId st 3 1 in
  let st2 := exec (assign r key v) st1 in
  Map_get id (users st1) = Some r /\
  Map_get id (users st2) = Some r /\
  (deref st2 r).[key] = v /\
  (isUser (deref st2 r) = true -> getUserById id st2 = (Success r, st2)) /\
  (forall id' s r' s', getUserById id' s = (Success r', s') ->
                       s' = s /\ Map_get id' (users s) = Some r').
Proof.
  intros Hcreate id st2.
  apply createUser_result in Hcreate as [-> ->].
  subst st2. unfold exec. rewrite assign_fresh. cbn [snd users].
  rewrite deref_fresh.
  split; [apply Map_get_set|].
  split; [apply Map_get_set|].
  split; [unfold getProp; rewrite lookup_insert_eq; reflexivity|].
  split.
  - intros Huser. apply getUserById_found.
    + apply nthId_nonEmpty.
    + cbn [users]. apply Map_get_set.
    + rewrite deref_fresh. exact Huser.
  - intros id' s r' s' Hget.
    apply getUserById_success in Hget as (? & ? & _). auto.
Qed.

Lemma createUser_returns_live_reference_witness :
  createUser testUser (emptyService tickingWorld) = (Success 0, serviceWithTestUser) /\
  let st2 := exec (assign 0 "name" (VStr (js "Mallory"))) serviceWithTestUser in
  Map_get testUserId (users serviceWithTestUser) = Some 0 /\
  (deref st2 0).["name"] = VStr (js "Mallory").
Proof.
  assert (H : createUser testUser (emptyService tickingWorld) =
              (Success 0, serviceWithTestUser)).
  { rewrite (run_exec (createUser testUser)).
    f_equal; vm_compute; reflexivity. }
  split; [exact H|].
  destruct (createUser_returns_live_reference testUser (emptyService tickingWorld)
              serviceWithTestUser 0 "name" (VStr (js "Mallory")) H)
    as (H1 & _ & H3 & _).
  split; [exact H1 | exact H3].
Defined.

(** C2, as stated, fails: the caller renames the user through the
    object [createUser] returned, and [getUserById] returns the new
    name. *)
Lemma caller_mutation_reaches_store :
  run (createUser testUser) (emptyService tickingWorld) = Success 0 /\
  observedName serviceWithTestUser (run (getUserById testUserId) serviceWithTestUser)
    = Some (VStr (js "Test User")) /\
  let st2 := exec (assign 0 "name" (VStr (js "Mallory"))) serviceWithTestUser in
  observedName st2 (run (getUserById testUserId) st2) = Some (VStr (js "Mallory")).
Proof. repeat split; vm_compute; reflexivity. Qed.

Section Order.

Lemma str_lt_asym (x y : jsstring) : str_lt x y = true -> str_lt y x = false.
Proof.
  revert y. induction x as [|a x IH]; intros [|b y]; simpl; try congruence.
  destruct (N.ltb_spec a b) as [Hab|Hab]; simpl.
  - intros _. destruct (N.ltb_spec b a); [lia|]. simpl.
    destruct (N.eqb_spec b a); [lia | reflexivity].
  - destruct (N.eqb_spec a b) as [->|Hne]; simpl; [|discriminate].
    intros H. rewrite N.ltb_irrefl, N.eqb_refl. simpl. apply IH, H.
Qed.

Lemma Qltb_asym (a b : Q) : Qltb a b = true -> Qltb b a = false.
Proof.
  unfold Qltb. rewrite <- (Qcompare_antisym a b).
  destruct (Qcompare a b); simpl; congruence.
Qed.

Lemma num_lt_asym (a b : number) : num_lt a b = true -> num_lt b a = false.
Proof.
  destruct a, b; simpl; try congruence. apply Qltb_asym.
Qed.

Lemma js_lt_asym (a b : value) : js_lt a b = true -> js_lt b a = false.
Proof.
  unfold js_lt.
  destruct a as [| | | | | |[?|]| |], b as [| | | | | |[?|]| |]; cbn [toNumber];
    try congruence; first [apply str_lt_asym | apply num_lt_asym].
Qed.

(** The values [compareUsers] hands to [js_lt] are two strings, two
    finite numbers, two booleans or two valid Dates. *)
Lemma isUser_sort_member (v : value) (k : SortKey) :
  isUser v = true -> sortMemberCheck k v.[keyName k] = true.
Proof.
  unfold isUser. destruct (isObject v); [|discriminate]. cbn [negb].
  intros H. split_checks H.
  unfold isNonEmptyString, isPositiveNumber in *.
  repeat match goal with
  | Hx : (_ && _) = true |- _ => apply andb_true_iff in Hx as [Hx _]
  end.
  destruct k; assumption.
Qed.

Lemma compareUsers_antisym st by_ order (a b : loc) :
  (0 < compareUsers st by_ order a b)%Z -> (compareUsers st by_ order b a <= 0)%Z.
Proof.
  unfold compareUsers.
  destruct (js_lt (deref st a).[keyName by_] (deref st b).[keyName by_]) eqn:Hab;
  destruct (js_lt (deref st b).[keyName by_] (deref st a).[keyName by_]) eqn:Hba;
  try (apply js_lt_asym in Hab; congruence);
  destruct order; lia.
Qed.

Variables (A : Type) (cmp : A -> A -> Z).
Hypothesis cmp_antisym : forall a b, (0 < cmp a b)%Z -> (cmp b a <= 0)%Z.

Lemma insertSorted_hd (x y : A) (l : list A) :
  (cmp y x <= 0)%Z -> HdRel (fun a b => (cmp a b <= 0)%Z) y l ->
  HdRel (fun a b => (cmp a b <= 0)%Z) y (insertSorted cmp x l).
Proof.
  intros Hyx Hhd. destruct l as [|z l]; simpl; [constructor; exact Hyx|].
  destruct (cmp x z <=? 0)%Z; constructor; [exact Hyx|].
  inversion Hhd; assumption.
Qed.

Lemma insertSorted_sorted (x : A) (l : list A) :
  Sorted (fun a b => (cmp a b <= 0)%Z) l ->
  Sorted (fun a b => (cmp a b <= 0)%Z) (insertSorted cmp x l).
Proof.
  induction 1 as [|y l Hs IH Hhd]; simpl; [repeat constructor|].
  destruct (Z.leb_spec (cmp x y) 0) as [Hle|Hgt].
  - constructor; [constructor; assumption | constructor; exact Hle].
  - constructor; [exact IH|].
    apply insertSorted_hd; [apply cmp_antisym; exact Hgt | exact Hhd].
Qed.

Lemma sort_sorted (l : list A) : Sorted (fun a b => (cmp a b <= 0)%Z) (sort cmp l).
Proof.
  induction l as [|x l IH]; simpl; [constructor|].
  apply insertSorted_sorted, IH.
Qed.

End Order.

Section Pagination.

Lemma num_truthy_num (z : Z) : num_truthy (num z) = negb (z =? 0)%Z.
Proof. reflexivity. Qed.

Lemma isPositiveNumber_num (z : Z) : isPositiveNumber (VNum (num z)) = (0 <? z)%Z.
Proof.
  destruct z; reflexivity.
Qed.

Lemma startIndex_integral (p l : Z) :
  num_mul (num_sub (num p) (num 1)) (num l) = Finite (((p * 1 + -1 * 1) * l) # 1).
Proof. reflexivity. Qed.

Lemma endIndex_integral (a l : Z) :
  num_add (Finite (a # 1)) (num l) = Finite ((a * 1 + l * 1) # 1).
Proof. reflexivity. Qed.

Lemma relativeIndex_integral (len a : Z) :
  (0 <= a)%Z -> relativeIndex len (Finite (a # 1)) = Z.min a len.
Proof.
  intros Ha. unfold relativeIndex. cbn [Qnum Qden].
  rewrite Z.quot_1_r. destruct (a <? 0)%Z eqn:E; [lia | reflexivity].
Qed.

Lemma slice_window {A} (xs : list A) (a b : Z) :
  (0 <= a <= b)%Z ->
  slice xs (Finite (a # 1)) (Finite (b # 1)) =
  take (Z.to_nat (b - a)) (drop (Z.to_nat a) xs).
Proof.
  intros Hab. unfold slice.
  rewrite !relativeIndex_integral by lia.
  destruct (Z_lt_le_dec a (Z.of_nat (length xs))) as [Hlt | Hge].
  - rewrite (Z.min_l a) by lia.
    destruct (Z_lt_le_dec b (Z.of_nat (length xs))) as [Hlt' | Hge'].
    + rewrite (Z.min_l b) by lia. reflexivity.
    + rewrite (Z.min_r b) by lia.
      rewrite !take_ge; [reflexivity | |]; rewrite length_drop; lia.
  - rewrite (Z.min_r a), (Z.min_r b) by lia.
    rewrite !drop_ge by lia. rewrite !take_nil. reflexivity.
Qed.

Lemma concat_windows {A} (xs : list A) (L n : nat) :
  concat ((fun k => take L (drop ((k - 1) * L) xs)) <$> seq 1 n) = take (n * L) xs.
Proof.
  induction n as [|n IH]; [reflexivity|].
  rewrite seq_S, fmap_app, concat_app, IH. cbn [fmap list_fmap concat].
  rewrite app_nil_r.
  replace (1 + n - 1) with n by lia.
  rewrite take_take_drop. f_equal. lia.
Qed.

Lemma pageCount_covers (total L : nat) : 0 < L -> total <= pageCount total L * L.
Proof.
  intros HL. unfold pageCount.
  pose proof (Nat.div_mod_eq (total + L - 1) L) as Hdm.
  pose proof (Nat.mod_upper_bound (total + L - 1) L) as Hub. nia.
Qed.


Lemma insertSorted_perm {A} (cmp : A -> A -> Z) (x : A) (l : list A) :
  insertSorted cmp x l ≡ₚ x :: l.
Proof.
  induction l as [|y l IH]; simpl; [reflexivity|].
  destruct (cmp x y <=? 0)%Z; [reflexivity|].
  rewrite IH. apply Permutation_swap.
Qed.

Lemma sort_perm {A} (cmp : A -> A -> Z) (l : list A) : sort cmp l ≡ₚ l.
Proof.
  induction l as [|x l IH]; simpl; [reflexivity|].
  rewrite insertSorted_perm, IH. reflexivity.
Qed.

Variables (st : State) (by_ : option SortKey) (order : option SortOrder).

Lemma getUsers_integral (p l : Z) :
  (1 <= p)%Z -> (1 <= l)%Z ->
  getUsers (pageOptions p l by_ order) st =
  (Success {| page_users :=
                take (Z.to_nat l)
                  (drop (Z.to_nat ((p - 1) * l))
                     (sortedUsers st (default by_createdAt by_) (default desc order)));
              page_total :=
                length (sortedUsers st (default by_createdAt by_) (default desc order));
              page_page := num p; page_limit := num l |}, st).
Proof.
  intros Hp Hl. unfold getUsers, pageOptions, orDefault.
  cbn [page limit sortBy sortOrder].
  rewrite !num_truthy_num.
  destruct (Z.eqb_spec p 0) as [?|_]; [lia|].
  destruct (Z.eqb_spec l 0) as [?|_]; [lia|]. cbn [negb].
  rewrite !isPositiveNumber_num.
  destruct (Z.ltb_spec 0 p) as [_|?]; [|lia].
  destruct (Z.ltb_spec 0 l) as [_|?]; [|lia]. cbn [negb orb].
  rewrite startIndex_integral, endIndex_integral.
  rewrite slice_window by nia.
  replace ((p * 1 + -1 * 1) * l)%Z with ((p - 1) * l)%Z by ring.
  replace ((p - 1) * l * 1 + l * 1 - (p - 1) * l)%Z with l by ring.
  reflexivity.
Qed.

End Pagination.

Section KeyOrder.

Lemma num_lt_num (a b : Z) : num_lt (num a) (num b) = (a <? b)%Z.
Proof.
  unfold num_lt, num, Qltb, Qcompare, inject_Z. cbn [Qnum Qden].
  rewrite !Z.mul_1_r. reflexivity.
Qed.

Lemma str_lt_false_le (x y : jsstring) : str_lt y x = false -> str_le x y.
Proof.
  revert y. induction x as [|a x IH]; intros [|b y]; cbn [str_lt str_le];
    try tauto; try discriminate.
  intros H. apply orb_false_iff in H as [Hlt Heq].
  apply N.ltb_ge in Hlt.
  destruct (N.eqb_spec b a) as [->|Hne].
  - right. split; [reflexivity|]. apply IH. exact Heq.
  - left. lia.
Qed.

Lemma str_le_trans (x y z : jsstring) : str_le x y -> str_le y z -> str_le x z.
Proof.
  revert y z. induction x as [|a x IH]; intros [|b y] [|c z]; cbn [str_le]; try tauto.
  intros [Hab | [-> Hxy]] [Hbc | [-> Hyz]].
  - left. lia.
  - left. exact Hab.
  - left. exact Hbc.
  - right. split; [reflexivity|]. apply (IH y z Hxy Hyz).
Qed.

Lemma valueLe_trans (a b c : value) : valueLe a b -> valueLe b c -> valueLe a c.
Proof.
  destruct a as [| |x|[| | |x]|x| |[x|]|x|], b as [| |y|[| | |y]|y| |[y|]|y|];
    cbn [valueLe]; try tauto;
    destruct c as [| |z|[| | |z]|z| |[z|]|z|]; cbn [valueLe]; try tauto.
  - apply Qle_trans.
  - apply str_le_trans.
  - lia.
  - apply str_le_trans.
Qed.

Lemma inOrder_trans st by_ order (a b c : loc) :
  inOrder st by_ order a b -> inOrder st by_ order b c -> inOrder st by_ order a c.
Proof.
  unfold inOrder. destruct order; intros H1 H2.
  - exact (valueLe_trans _ _ _ H1 H2).
  - exact (valueLe_trans _ _ _ H2 H1).
Qed.

(** On the values a sort key holds, [y < x] being false puts [x] at or
    before [y]. *)
Lemma js_lt_false_le (k : SortKey) (x y : value) :
  sortMemberCheck k x = true -> sortMemberCheck k y = true ->
  js_lt y x = false -> valueLe x y.
Proof.
  assert (Hstr : forall x y, isString x = true -> isString y = true ->
                             js_lt y x = false -> valueLe x y).
  { intros [| | | |s| | | |] [| | | |t| | | |]; try discriminate. intros _ _.
    apply str_lt_false_le. }
  assert (Hdate : forall x y, isDate x = true -> isDate y = true ->
                              js_lt y x = false -> valueLe x y).
  { intros [| | | | | |[s|]| |] [| | | | | |[t|]| |]; try discriminate. intros _ _.
    unfold js_lt. cbn [toNumber valueLe]. rewrite num_lt_num. apply Z.ltb_ge. }
  destruct k; cbn [sortMemberCheck]; auto.
  - destruct x as [| | |[| | |qx]| | | | |], y as [| | |[| | |qy]| | | | |];
      try discriminate. intros _ _.
    unfold js_lt. cbn [toNumber num_lt valueLe]. unfold Qltb.
    destruct (Qcompare qy qx) eqn:Hc; try discriminate; intros _.
    + apply Qeq_alt in Hc. rewrite Hc. apply Qle_refl.
    + apply Qgt_alt in Hc. apply Qlt_le_weak. exact Hc.
  - destruct x as [| |[|]| | | | | |], y as [| |[|]| | | | | |]; try discriminate;
      intros _ _ H; cbn [valueLe]; auto; vm_compute in H; discriminate H.
  - destruct x as [| | | | | | |xs|], y as [| | | | | | |ys|]; try discriminate.
    intros _ _. apply str_lt_false_le.
Qed.

Lemma compareUsers_inOrder st by_ order (a b : loc) :
  isUser (deref st a) = true -> isUser (deref st b) = true ->
  (compareUsers st by_ order a b <= 0)%Z -> inOrder st by_ order a b.
Proof.
  intros Ha Hb.
  pose proof (isUser_sort_member _ by_ Ha) as Ma.
  pose proof (isUser_sort_member _ by_ Hb) as Mb.
  unfold compareUsers, inOrder.
  destruct (js_lt (deref st a).[keyName by_] (deref st b).[keyName by_]) eqn:Hab;
  destruct (js_lt (deref st b).[keyName by_] (deref st a).[keyName by_]) eqn:Hba;
    try (apply js_lt_asym in Hab; congruence);
    destruct order; intros H; try lia;
    first [ exact (js_lt_false_le by_ _ _ Ma Mb Hba)
          | exact (js_lt_false_le by_ _ _ Mb Ma Hab) ].
Qed.

Lemma Sorted_among {A} (P : A -> Prop) (R R' : A -> A -> Prop) (l : list A) :
  (forall a b, P a -> P b -> R a b -> R' a b) ->
  Forall P l -> Sorted R l -> Sorted R' l.
Proof.
  intros HR Hall Hs. induction Hs as [|x l _ IH Hhd]; [constructor|].
  apply Forall_cons in Hall as [Hx Hl].
  constructor; [apply IH, Hl|].
  destruct Hhd as [|y l' Hxy]; constructor.
  apply Forall_cons in Hl as [Hy _]. apply HR; assumption.
Qed.

(** The list [getUsers] cuts its pages from holds the stored users that
    pass [isUser], each once for each time the map has it, in the order
    of the sort key. *)
Lemma sortedUsers_ordered st by_ order :
  sortedUsers st by_ order
    ≡ₚ filter (fun u => isUser (deref st u) = true) (Map_values (users st)) /\
  StronglySorted (inOrder st by_ order) (sortedUsers st by_ order).
Proof.
  assert (Hperm : sortedUsers st by_ order
    ≡ₚ filter (fun u => isUser (deref st u) = true) (Map_values (users st)))
    by apply sort_perm.
  split; [exact Hperm|].
  apply Sorted_StronglySorted.
  - intros a b c. apply inOrder_trans.
  - apply (Sorted_among (fun u => isUser (deref st u) = true)
             (fun a b => (compareUsers st by_ order a b <= 0)%Z)).
    + intros a b. apply compareUsers_inOrder.
    + rewrite Hperm. apply Forall_forall. intros u Hu.
      apply list_elem_of_filter in Hu as [Hu _]. exact Hu.
    + apply sort_sorted. intros a b. apply compareUsers_antisym.
Qed.

End KeyOrder.

Lemma pageOf_integral st by_ order (k : nat) (l : Z) :
  1 <= k -> (1 <= l)%Z ->
  pageOf st (pageOptions (Z.of_nat k) l by_ order) =
  take (Z.to_nat l)
    (drop ((k - 1) * Z.to_nat l)
       (sortedUsers st (default by_createdAt by_) (default desc order))).
Proof.
  intros Hk Hl. unfold pageOf, run.
  rewrite getUsers_integral by lia. cbn [fst page_users].
  do 2 f_equal. nia.
Qed.

Section PaginationCheck.

Lemma orDefault_givenOr (x : option number) (d : Z) :
  orDefault x (num d) = givenOr x d.
Proof.
  destruct x as [[| | |[n m]]|]; try reflexivity.
  destruct n; reflexivity.
Qed.

Lemma isPositiveNumber_positiveFinite (n : number) :
  isPositiveNumber (VNum n) = true <-> positiveFinite n.
Proof.
  destruct n as [| | |q]; cbn; try (split; [discriminate | tauto]).
  unfold Qltb. rewrite Qlt_alt.
  destruct (Qcompare _ q); split; congruence.
Qed.

End PaginationCheck.

(** C5 (amended).  [getUsers] reads the page as [options.page || 1] and
    the limit as [options.limit || 10]: an absent value, [0] and [NaN]
    give the default.  When both are positive finite numbers the call
    succeeds, leaves the state as it is and reports the page and the
    limit as read, without clamping, with the number of stored users
    that pass [isUser] as [total]; when one of them is negative or
    infinite the call fails with the validation error of field
    [pagination], code INVALID_PAGINATION, and leaves the state as it
    is.  The sort key is absent or one of [id], [name], [age],
    [isActive], [tags], [createdAt], [updatedAt]. *)
Theorem getUsers_pagination_check (options : Options) (st : State) :
  let p := givenOr (page options) 1 in
  let l := givenOr (limit options) 10 in
  (positiveFinite p /\ positiveFinite l /\
   exists us,
     getUsers options st =
       (Success {| page_users := us;
                   page_total :=
                     length (filter (fun u => isUser (deref st u) = true)
                               (Map_values (users st)));
                   page_page := p; page_limit := l |}, st)) \/
  (~ (positiveFinite p /\ positiveFinite l) /\
   getUsers options st =
     (Failure (ValidationError (js "pagination")
                 (js "Page and limit must be positive numbers")
                 (js "INVALID_PAGINATION")), st)).
Proof.
  intros p l. unfold getUsers. rewrite !orDefault_givenOr. fold p l.
  pose proof (isPositiveNumber_positiveFinite p) as Hp.
  pose proof (isPositiveNumber_positiveFinite l) as Hl.
  destruct (isPositiveNumber (VNum p)), (isPositiveNumber (VNum l)); cbn [negb orb].
  - left. split; [apply Hp; reflexivity|]. split; [apply Hl; reflexivity|].
    eexists. do 3 f_equal. apply Permutation_length, sort_perm.
  - right. split; [|reflexivity]. intros [_ H]. apply Hl in H. discriminate H.
  - right. split; [|reflexivity]. intros [H _]. apply Hp in H. discriminate H.
  - right. split; [|reflexivity]. intros [H _]. apply Hp in H. discriminate H.
Qed.

Lemma getUsers_pagination_check_witness :
  getUsers {| page := Some (num (-1)); limit := Some (num 5);
              sortBy := None; sortOrder := None |} (emptyService tickingWorld)
  = (Failure (ValidationError (js "pagination")
                (js "Page and limit must be positive numbers")
                (js "INVALID_PAGINATION")), emptyService tickingWorld).
Proof.
  destruct (getUsers_pagination_check
              {| page := Some (num (-1)); limit := Some (num 5);
                 sortBy := None; sortOrder := None |} (emptyService tickingWorld))
    as [(Hp & _) | (_ & H)].
  - cbv in Hp. discriminate Hp.
  - exact H.
Defined.

(** C5, as stated, fails: page 0 is answered as page 1, and limit 101
    is accepted as it is. *)
Lemma getUsers_page_0_and_limit_101_succeed :
  run (getUsers {| page := Some (num 0); limit := None;
                   sortBy := None; sortOrder := None |}) (emptyService tickingWorld)
  = Success {| page_users := []; page_total := 0;
               page_page := num 1; page_limit := num 10 |} /\
  run (getUsers {| page := None; limit := Some (num 101);
                   sortBy := None; sortOrder := None |}) (emptyService tickingWorld)
  = Success {| page_users := []; page_total := 0;
               page_page := num 1; page_limit := num 101 |}.
Proof. split; vm_compute; reflexivity. Qed.

(** C8 (amended).  For every state of the service, every integral page
    >= 1 and every integral limit in [1,100], with the sort key absent
    or one of [id], [name], [age], [isActive], [tags], [createdAt],
    [updatedAt] and either order: there is one list, holding exactly
    the stored users that pass [isUser] (none left out, none added) and
    ordered by the sort key, of which [getUsers] returns the window of
    the page; the call succeeds, returns at most [limit] users and
    reports the length of that list as [total]; and the pages
    1..ceil(total/limit), concatenated in order, are that list. *)
Theorem getUsers_pages (st : State) (p l : Z)
    (by_ : option SortKey) (order : option SortOrder) :
  (1 <= p)%Z -> (1 <= l <= 100)%Z ->
  let matching := filter (fun u => isUser (deref st u) = true) (Map_values (users st)) in
  exists everyone,
    everyone ≡ₚ matching /\
    StronglySorted (inOrder st (default by_createdAt by_) (default desc order)) everyone /\
    (exists us,
       getUsers (pageOptions p l by_ order) st =
         (Success {| page_users := us; page_total := length matching;
                     page_page := num p; page_limit := num l |}, st) /\
       us = take (Z.to_nat l) (drop (Z.to_nat ((p - 1) * l)) everyone) /\
       (Z.of_nat (length us) <= l)%Z) /\
    concat ((fun k => pageOf st (pageOptions (Z.of_nat k) l by_ order))
              <$> seq 1 (pageCount (length matching) (Z.to_nat l))) = everyone.
Proof.
  intros Hp Hl matching.
  set (everyone := sortedUsers st (default by_createdAt by_) (default desc order)).
  destruct (sortedUsers_ordered st (default by_createdAt by_) (default desc order))
    as [Hperm Hsorted].
  fold everyone matching in Hperm, Hsorted.
  assert (Hlen : length everyone = length matching) by (rewrite Hperm; reflexivity).
  exists everyone. split; [exact Hperm|]. split; [exact Hsorted|]. split.
  - eexists. split; [|split; [reflexivity|]].
    + rewrite getUsers_integral by lia. fold everyone. rewrite Hlen. reflexivity.
    + rewrite length_take. lia.
  - rewrite <- Hlen.
    rewrite (list_fmap_ext _ (fun k => take (Z.to_nat l)
                                 (drop ((k - 1) * Z.to_nat l) everyone)) (seq 1 _)).
    + rewrite concat_windows. apply take_ge, pageCount_covers. lia.
    + intros i k Hik. apply pageOf_integral; [|lia].
      apply lookup_seq in Hik. lia.
Qed.

Lemma getUsers_pages_witness :
  (exists everyone,
     StronglySorted (inOrder serviceWithThreeUsers by_createdAt desc) everyone /\
     concat ((fun k => pageOf serviceWithThreeUsers (pageOptions (Z.of_nat k) 2 None None))
               <$> seq 1 (pageCount 3 2)) = everyone) /\
  pageOf serviceWithThreeUsers (pageOptions 1 2 None None) = [2; 1] /\
  pageOf serviceWithThreeUsers (pageOptions 2 2 None None) = [0].
Proof.
  split; [|split; vm_compute; reflexivity].
  destruct (getUsers_pages serviceWithThreeUsers 1 2 None None)
    as (everyone & _ & Hsorted & _ & Hconcat); [lia | lia |].
  exists everyone. split; [exact Hsorted | exact Hconcat].
Defined.

(** C8, as stated, fails for a limit in range that is not integral: with
    three users stored, page 2 of limit 1.5 is [slice(1.5, 3)] and holds
    two users. *)
Lemma getUsers_limit_one_and_a_half_returns_two_users :
  run (getUsers {| page := Some (num 2); limit := Some (Finite (3 # 2));
                   sortBy := None; sortOrder := None |}) serviceWithThreeUsers
  = Success {| page_users := [1; 0]; page_total := 3;
               page_page := num 2; page_limit := Finite (3 # 2) |} /\
  num_lt (Finite (3 # 2)) (num (Z.of_nat (length [1; 0]))) = true.
Proof. split; vm_compute; reflexivity. Qed.

(* ===================================================================== *)
(** * 10. Further properties of the service *)
(* ===================================================================== *)

Section Operations.

Lemma getUserById_failure id st e st' :
  getUserById id st = (Failure e, st') -> st' = st.
Proof.
  intros H. pose proof (@getUserById_state id st) as Hst.
  rewrite H in Hst. exact Hst.
Qed.

Lemma getUserById_cases id st :
  (exists r, getUserById id st = (Success r, st)) \/
  (exists e, getUserById id st = (Failure e, st)).
Proof.
  destruct (getUserById id st) as [[r|e] st'] eqn:H.
  - apply getUserById_success in H as H'. destruct H' as [-> _]. eauto.
  - apply getUserById_failure in H as H'. subst. eauto.
Qed.

Lemma deleteUser_failure id st e :
  getUserById id st = (Failure e, st) -> deleteUser id st = (Failure e, st).
Proof. intros H. unfold deleteUser, bind. rewrite H. reflexivity. Qed.

Lemma deleteUser_success id st r :
  getUserById id st = (Success r, st) ->
  deleteUser id st =
  (Success (js "User " ++ id ++ js " deleted successfully"),
   {| heap := heap st; users := Map_delete id (users st);
      events := events st ++ [user_deleted (nthClock st 0) id r];
      world := advance st 1 0 |}).
Proof.
  intros H. unfold deleteUser, bind. rewrite H.
  destruct st as [h us es [ck en n m]]. reflexivity.
Qed.

Lemma updateUser_failure id updates st e :
  getUserById id st = (Failure e, st) -> updateUser id updates st = (Failure e, st).
Proof. intros H. unfold updateUser, bind. rewrite H. reflexivity. Qed.

Lemma updateUser_not_object id updates st r :
  getUserById id st = (Success r, st) ->
  typeofObject updates = false ->
  updateUser id updates st =
  (Failure (ValidationError (js "updates") (js "Updates must be an object")
              (js "INVALID_UPDATES")), st).
Proof.
  intros H Ht. unfold updateUser, bind. rewrite H, Ht. reflexivity.
Qed.

Lemma updateUser_invalid id updates st r :
  getUserById id st = (Success r, st) ->
  typeofObject updates = true ->
  isValid (validateUser (VObj true (updatedUser st (deref st r) updates))) = false ->
  updateUser id updates st =
  (Failure (ValidationError (js "userData") (js "Updated user data is invalid")
              (js "INVALID_UPDATED_DATA")),
   {| heap := heap st; users := users st; events := events st;
      world := advance st 1 0 |}).
Proof.
  intros H Ht Hv. unfold updateUser, bind. rewrite H, Ht. cbn [negb].
  destruct st as [h us es [ck en n m]].
  unfold newDate, bind, ret, Date_now, updatedUser, nthClock, advance in *.
  cbn [world heap users events clock entropy clockReads entropyReads Nat.add] in *.
  rewrite Hv. reflexivity.
Qed.

Lemma updateUser_valid id updates st r :
  getUserById id st = (Success r, st) ->
  typeofObject updates = true ->
  isValid (validateUser (VObj true (updatedUser st (deref st r) updates))) = true ->
  updateUser id updates st =
  (Success (length (heap st)),
   {| heap := heap st ++ [updatedUser st (deref st r) updates];
      users := Map_set id (length (heap st)) (users st);
      events := events st ++ [user_updated (nthClock st 1) id updates r];
      world := advance st 2 0 |}).
Proof.
  intros H Ht Hv. unfold updateUser, bind. rewrite H, Ht. cbn [negb].
  destruct st as [h us es [ck en n m]].
  unfold newDate, bind, ret, Date_now, alloc, users_set, events_push,
    updatedUser, nthClock, advance in *.
  cbn [world heap users events clock entropy clockReads entropyReads Nat.add] in *.
  rewrite Hv. reflexivity.
Qed.

Lemma getEvents_state filterType st : exec (getEvents filterType) st = st.
Proof. reflexivity. Qed.

Lemma Map_get_delete_ne k k' m :
  k <> k' -> Map_get k' (Map_delete k m) = Map_get k' m.
Proof.
  intros Hne. unfold Map_delete. induction m as [|[k0 v0] m IH]; [reflexivity|].
  rewrite filter_cons. cbn [fst Map_get].
  destruct (decide (k0 <> k)) as [Hk|Hk]; cbn [Map_get].
  - destruct (decide (k0 = k')); [reflexivity | exact IH].
  - destruct (decide (k0 = k')) as [->|_]; [|exact IH].
    exfalso. apply Hk. congruence.
Qed.

(** An operation leaves the heap, the map and the log alone, or it is a
    successful [createUser], [updateUser] or [deleteUser] and leaves the
    state written out below. *)
Lemma step_cases op st :
  (heap (step op st) = heap st /\ users (step op st) = users st /\
   events (step op st) = events st /\ mutates op && succeeds op st = false) \/
  (exists userData,
     op = CreateUser userData /\ succeeds op st = true /\
     isValid (validateUser (VObj true (candidate st userData))) = true /\
     step op st =
       {| heap := heap st ++ [createdUser st userData];
          users := Map_set (nthId st 3 1) (length (heap st)) (users st);
          events := events st ++ [user_created (nthClock st 6) (length (heap st))];
          world := advance st 7 2 |}) \/
  (exists id updates old,
     op = UpdateUser id updates /\ succeeds op st = true /\
     getUserById id st = (Success old, st) /\ typeofObject updates = true /\
     isValid (validateUser (VObj true (updatedUser st (deref st old) updates))) = true /\
     step op st =
       {| heap := heap st ++ [updatedUser st (deref st old) updates];
          users := Map_set id (length (heap st)) (users st);
          events := events st ++ [user_updated (nthClock st 1) id updates old];
          world := advance st 2 0 |}) \/
  (exists id r,
     op = DeleteUser id /\ succeeds op st = true /\
     getUserById id st = (Success r, st) /\
     step op st =
       {| heap := heap st; users := Map_delete id (users st);
          events := events st ++ [user_deleted (nthClock st 0) id r];
          world := advance st 1 0 |}).
Proof.
  destruct op as [userData | id | options | id updates | id | filterType];
    cbn [step succeeds mutates andb].
  - destruct (isValid (validateUser (VObj true (candidate st userData)))) eqn:Hv.
    + right; left. exists userData. unfold exec, run.
      rewrite (createUser_valid _ _ Hv). repeat split. exact Hv.
    + left. unfold exec, run. rewrite (createUser_invalid _ _ Hv). repeat split.
  - left. unfold exec. rewrite getUserById_state. repeat split.
  - left. rewrite getUsers_state. repeat split.
  - destruct (getUserById_cases id st) as [[old Hget] | [e Hget]].
    + destruct (typeofObject updates) eqn:Ht.
      * destruct (isValid (validateUser
                    (VObj true (updatedUser st (deref st old) updates)))) eqn:Hv.
        -- right; right; left. exists id, updates, old. unfold exec, run.
           rewrite (updateUser_valid _ _ _ _ Hget Ht Hv). repeat split; assumption.
        -- left. unfold exec, run. rewrite (updateUser_invalid _ _ _ _ Hget Ht Hv).
           repeat split.
      * left. unfold exec, run. rewrite (updateUser_not_object _ _ _ _ Hget Ht).
        repeat split.
    + left. unfold exec, run. rewrite (updateUser_failure _ _ _ _ Hget). repeat split.
  - destruct (getUserById_cases id st) as [[r Hget] | [e Hget]].
    + right; right; right. exists id, r. unfold exec, run.
      rewrite (deleteUser_success _ _ _ Hget). repeat split. exact Hget.
    + left. unfold exec, run. rewrite (deleteUser_failure _ _ _ Hget). repeat split.
  - left. repeat split.
Qed.

Lemma runAll_invariant (P : State -> Prop) :
  (forall op st, P st -> P (step op st)) ->
  forall ops st, P st -> P (runAll ops st).
Proof.
  intros Hstep ops. induction ops as [|op ops IH]; intros st Hst; [exact Hst|].
  cbn [runAll]. apply IH, Hstep, Hst.
Qed.

End Operations.

Section Frames.

Lemma step_events op st :
  exists es, events (step op st) = events st ++ es /\
             length es = if mutates op && succeeds op st then 1 else 0.
Proof.
  destruct (step_cases op st)
    as [(_ & _ & He & Hm)
       | [(ud & -> & Hs & _ & ->)
         | [(id & u & old & -> & Hs & _ & _ & _ & ->)
           | (id & r & -> & Hs & _ & ->)]]].
  - exists []. rewrite He, Hm, app_nil_r. split; reflexivity.
  - eexists. cbn [events mutates andb]. rewrite Hs. split; reflexivity.
  - eexists. cbn [events mutates andb]. rewrite Hs. split; reflexivity.
  - eexists. cbn [events mutates andb]. rewrite Hs. split; reflexivity.
Qed.

Lemma step_heap op st :
  exists os, heap (step op st) = heap st ++ os /\ length os <= 1.
Proof.
  destruct (step_cases op st)
    as [(Hh & _)
       | [(ud & -> & _ & _ & ->)
         | [(id & u & old & -> & _ & _ & _ & _ & ->)
           | (id & r & -> & _ & _ & ->)]]].
  - exists []. rewrite Hh, app_nil_r. split; [reflexivity | simpl; lia].
  - eexists. cbn [heap]. split; [reflexivity | simpl; lia].
  - eexists. cbn [heap]. split; [reflexivity | simpl; lia].
  - exists []. cbn [heap]. rewrite app_nil_r. split; [reflexivity | simpl; lia].
Qed.

End Frames.

(** X1.  An operation that only reads ([getUserById], [getUsers],
    [getEvents]) leaves the whole state as it was, and an operation that
    fails leaves the heap, the user map and the event log as they
    were. *)
Theorem read_or_failure_changes_nothing (op : Operation) (st : State) :
  mutates op && succeeds op st = false ->
  heap (step op st) = heap st /\
  users (step op st) = users st /\
  events (step op st) = events st /\
  (mutates op = false -> step op st = st).
Proof.
  intros Hm.
  destruct (step_cases op st)
    as [(Hh & Hu & He & _)
       | [(ud & -> & Hs & _)
         | [(id & u & old & -> & Hs & _)
           | (id & r & -> & Hs & _)]]];
    try (cbn [mutates andb] in Hm; congruence).
  repeat split; try assumption.
  intros Hread. destruct op; try discriminate Hread; cbn [step].
  - unfold exec. apply getUserById_state.
  - apply getUsers_state.
  - reflexivity.
Qed.

Lemma read_or_failure_changes_nothing_witness :
  users (step (DeleteUser (js "user_0_missing")) serviceWithTestUser)
    = users serviceWithTestUser /\
  events (step (UpdateUser testUserId (VStr (js "not an object"))) serviceWithTestUser)
    = events serviceWithTestUser.
Proof.
  split.
  - refine (proj1 (proj2 (read_or_failure_changes_nothing
                            (DeleteUser (js "user_0_missing")) serviceWithTestUser _))).
    vm_compute. reflexivity.
  - refine (proj1 (proj2 (proj2 (read_or_failure_changes_nothing
              (UpdateUser testUserId (VStr (js "not an object")))
              serviceWithTestUser _)))).
    vm_compute. reflexivity.
Defined.

(** X2.  The event log is append-only: along any run of operations the
    log it started with stays a prefix of the log, and the log grows by
    exactly one event for each successful [createUser], [updateUser] or
    [deleteUser]. *)
Theorem event_log_append_only (ops : list Operation) (st : State) :
  events st `prefix_of` events (runAll ops st) /\
  length (events (runAll ops st)) = length (events st) + successfulMutations ops st.
Proof.
  revert st. induction ops as [|op ops IH]; intros st; cbn [runAll successfulMutations].
  - split; [reflexivity | lia].
  - destruct (IH (step op st)) as [Hpre Hlen].
    destruct (step_events op st) as (es & He & Hes).
    split.
    + etransitivity; [|exact Hpre]. rewrite He. apply prefix_app_r. reflexivity.
    + rewrite Hlen, He, length_app, Hes. lia.
Qed.

(** X3.  The service never modifies or frees an object it has created:
    along any run the heap it started with stays a prefix of the heap, so
    a reference handed out or logged earlier (a returned user, the
    [previousValues] of an update, the [backup] of a deletion) still
    points to the same object. *)
Theorem heap_append_only (ops : list Operation) (st : State) :
  heap st `prefix_of` heap (runAll ops st) /\
  (forall l o, heap st !! l = Some o -> heap (runAll ops st) !! l = Some o) /\
  (forall l, l < length (heap st) -> deref (runAll ops st) l = deref st l).
Proof.
  assert (Hpre : forall ops st, heap st `prefix_of` heap (runAll ops st)).
  { clear. intros ops. induction ops as [|op ops IH]; intros st; cbn [runAll].
    - reflexivity.
    - etransitivity; [|apply IH].
      destruct (step_heap op st) as (os & -> & _). apply prefix_app_r. reflexivity. }
  split; [apply Hpre|].
  destruct (Hpre ops st) as [os Hos].
  split.
  - intros l o Hl. rewrite Hos. apply lookup_app_l_Some. exact Hl.
  - intros l Hl. unfold deref. rewrite Hos. rewrite lookup_app_l by exact Hl.
    reflexivity.
Qed.

Section Consistency.

Lemma Map_get_elem k l (m : list (jsstring * loc)) :
  Map_get k m = Some l -> (k, l) ∈ m.
Proof.
  induction m as [|[k0 v0] m IH]; [discriminate|]. cbn [Map_get].
  destruct (decide (k0 = k)) as [->|_].
  - intros H. injection H as ->. apply list_elem_of_here.
  - intros H. apply list_elem_of_further, IH, H.
Qed.

Lemma elem_Map_get k l (m : list (jsstring * loc)) :
  NoDup m.*1 -> (k, l) ∈ m -> Map_get k m = Some l.
Proof.
  induction m as [|[k0 v0] m IH]; intros Hnd Hin.
  - apply elem_of_nil in Hin. destruct Hin.
  - cbn [fmap list_fmap fst] in Hnd. apply NoDup_cons in Hnd as [Hk0 Hnd].
    cbn [Map_get]. apply elem_of_cons in Hin as [Heq | Hin].
    + injection Heq as -> ->. rewrite decide_True by reflexivity. reflexivity.
    + destruct (decide (k0 = k)) as [->|_]; [|apply IH; assumption].
      exfalso. apply Hk0. apply (list_elem_of_fmap_2 fst) in Hin. exact Hin.
Qed.

Lemma Map_set_key k v (m : list (jsstring * loc)) x :
  x ∈ (Map_set k v m).*1 -> x = k \/ x ∈ m.*1.
Proof.
  induction m as [|[k0 v0] m IH]; cbn [Map_set].
  - cbn. intros H. apply list_elem_of_singleton in H. auto.
  - destruct (decide (k0 = k)) as [->|Hne]; cbn [fmap list_fmap fst].
    + intros H. apply elem_of_cons in H as [->|H]; [auto|].
      right. apply list_elem_of_further, H.
    + intros H. apply elem_of_cons in H as [->|H].
      * right. apply list_elem_of_here.
      * destruct (IH H) as [->|Hin]; [auto|]. right. apply list_elem_of_further, Hin.
Qed.

Lemma Map_set_value k v (m : list (jsstring * loc)) x :
  x ∈ (Map_set k v m).*2 -> x = v \/ x ∈ m.*2.
Proof.
  induction m as [|[k0 v0] m IH]; cbn [Map_set].
  - cbn. intros H. apply list_elem_of_singleton in H. auto.
  - destruct (decide (k0 = k)) as [->|Hne]; cbn [fmap list_fmap snd].
    + intros H. apply elem_of_cons in H as [->|H]; [auto|].
      right. apply list_elem_of_further, H.
    + intros H. apply elem_of_cons in H as [->|H].
      * right. apply list_elem_of_here.
      * destruct (IH H) as [->|Hin]; [auto|]. right. apply list_elem_of_further, Hin.
Qed.

Lemma Map_set_NoDup_keys k v (m : list (jsstring * loc)) :
  NoDup m.*1 -> NoDup (Map_set k v m).*1.
Proof.
  induction m as [|[k0 v0] m IH]; cbn [Map_set]; intros Hnd.
  - cbn. apply NoDup_singleton.
  - cbn [fmap list_fmap fst] in Hnd. apply NoDup_cons in Hnd as [Hk0 Hnd].
    destruct (decide (k0 = k)) as [->|Hne]; cbn [fmap list_fmap fst].
    + apply NoDup_cons. split; assumption.
    + apply NoDup_cons. split; [|apply IH, Hnd].
      intros H. apply Map_set_key in H as [->|H]; [congruence | exact (Hk0 H)].
Qed.

Lemma Map_set_NoDup_values k v (m : list (jsstring * loc)) :
  NoDup m.*2 -> v ∉ m.*2 -> NoDup (Map_set k v m).*2.
Proof.
  induction m as [|[k0 v0] m IH]; cbn [Map_set]; intros Hnd Hv.
  - cbn. apply NoDup_singleton.
  - cbn [fmap list_fmap snd] in Hnd, Hv. apply NoDup_cons in Hnd as [Hv0 Hnd].
    apply not_elem_of_cons in Hv as [Hvv0 Hv].
    destruct (decide (k0 = k)) as [->|Hne]; cbn [fmap list_fmap snd].
    + apply NoDup_cons. split; assumption.
    + apply NoDup_cons. split; [|apply IH; assumption].
      intros H. apply Map_set_value in H as [->|H]; [congruence | exact (Hv0 H)].
Qed.

Lemma Map_set_elem k v (m : list (jsstring * loc)) k' l' :
  NoDup m.*1 ->
  (k', l') ∈ Map_set k v m -> (k' = k /\ l' = v) \/ ((k', l') ∈ m /\ k' <> k).
Proof.
  induction m as [|[k0 v0] m IH]; cbn [Map_set]; intros Hnd Hin.
  - apply list_elem_of_singleton in Hin. injection Hin as -> ->. auto.
  - cbn [fmap list_fmap fst] in Hnd. apply NoDup_cons in Hnd as [Hk0 Hnd].
    destruct (decide (k0 = k)) as [->|Hne].
    + apply elem_of_cons in Hin as [Heq | Hin].
      * injection Heq as -> ->. auto.
      * right. split; [apply list_elem_of_further, Hin|].
        intros ->. apply Hk0. apply (list_elem_of_fmap_2 fst) in Hin. exact Hin.
    + apply elem_of_cons in Hin as [Heq | Hin].
      * injection Heq as -> ->. right. split; [apply list_elem_of_here | exact Hne].
      * destruct (IH Hnd Hin) as [?|[? ?]]; [auto|].
        right. split; [apply list_elem_of_further; assumption | assumption].
Qed.

Lemma filter_NoDup_fmap {A B} (f : A -> B) (P : A -> Prop) `{forall x, Decision (P x)}
    (l : list A) :
  NoDup (f <$> l) -> NoDup (f <$> filter P l).
Proof.
  induction l as [|x l IH]; [intros; constructor|].
  cbn [fmap list_fmap]. intros Hnd. apply NoDup_cons in Hnd as [Hx Hnd].
  rewrite filter_cons. destruct (decide (P x)); [|apply IH, Hnd].
  cbn [fmap list_fmap]. apply NoDup_cons. split; [|apply IH, Hnd].
  intros Hin. apply Hx. apply list_elem_of_fmap in Hin as (y & -> & Hy).
  apply list_elem_of_filter in Hy as [_ Hy]. apply list_elem_of_fmap_2, Hy.
Qed.

Lemma storeConsistent_empty w : storeConsistent (emptyService w).
Proof.
  repeat split; try constructor; apply elem_of_nil in H; destruct H.
Qed.

Lemma nthId_routable st kc ke : isRoutableUserId (nthId st kc ke) = true.
Proof.
  unfold isRoutableUserId. rewrite nthId_nonEmpty. reflexivity.
Qed.

Lemma storeConsistent_step op st : storeConsistent st -> storeConsistent (step op st).
Proof.
  intros (Hk & Hv & Hin).
  assert (Hfresh : length (heap st) ∉ (users st).*2).
  { intros H. apply list_elem_of_fmap in H as ([k l] & Hl & Hkl). cbn in Hl. subst l.
    destruct (Hin _ _ Hkl) as (_ & o & Ho & _).
    apply lookup_lt_Some in Ho. lia. }
  assert (Hold : forall o' k l, (k, l) ∈ users st ->
            isRoutableUserId k = true /\
            exists o, (heap st ++ [o']) !! l = Some o /\ o !! js "id" = Some (VStr k)).
  { intros o' k l Hkl. destruct (Hin _ _ Hkl) as (Hr & o & Ho & Hid).
    split; [exact Hr|]. exists o. split; [|exact Hid].
    apply lookup_app_l_Some, Ho. }
  destruct (step_cases op st)
    as [(Hh & Hu & _ & _)
       | [(ud & -> & _ & _ & ->)
         | [(id & u & old & -> & _ & Hget & _ & _ & ->)
           | (id & r & -> & _ & _ & ->)]]].
  - unfold storeConsistent. rewrite Hh, Hu. auto.
  - split; [apply Map_set_NoDup_keys, Hk|].
    split; [apply Map_set_NoDup_values; assumption|].
    cbn [heap users]. intros k l Hkl.
    apply Map_set_elem in Hkl as [[-> ->] | [Hkl _]]; [|apply Hold, Hkl|exact Hk].
    split; [apply nthId_routable|].
    eexists. split; [apply list_lookup_middle; reflexivity | apply createdUser_id].
  - apply getUserById_success in Hget as (_ & Hget & _ & _).
    apply Map_get_elem in Hget. destruct (Hin _ _ Hget) as (Hr & oo & Ho & Hid).
    split; [apply Map_set_NoDup_keys, Hk|].
    split; [apply Map_set_NoDup_values; assumption|].
    cbn [heap users]. intros k l Hkl.
    apply Map_set_elem in Hkl as [[-> ->] | [Hkl _]]; [|apply Hold, Hkl|exact Hk].
    split; [exact Hr|].
    eexists. split; [apply list_lookup_middle; reflexivity|].
    unfold updatedUser.
    rewrite lookup_insert_ne by keys_ne. rewrite lookup_insert_ne by keys_ne.
    rewrite lookup_insert_eq. unfold deref. rewrite Ho. unfold getProp.
    rewrite Hid. reflexivity.
  - split; [apply filter_NoDup_fmap, Hk|].
    split; [apply filter_NoDup_fmap, Hv|].
    cbn [heap users]. intros k l Hkl.
    apply list_elem_of_filter in Hkl as [_ Hkl]. apply Hin, Hkl.
Qed.

Lemma runAll_reachable ops st : reachable st -> reachable (runAll ops st).
Proof.
  revert st. induction ops as [|op ops IH]; intros st Hst; [exact Hst|].
  cbn [runAll]. apply IH.
  destruct op; cbn [step].
  - apply reach_createUser, Hst.
  - unfold exec. rewrite getUserById_state. exact Hst.
  - rewrite getUsers_state. exact Hst.
  - apply reach_updateUser, Hst.
  - apply reach_deleteUser, Hst.
  - exact Hst.
Qed.

End Consistency.

(** X4.  After any sequence of operations on an empty service, every
    user the map holds has passed [validateUser]: it passes every check
    of [isUser] except, possibly, the one on [metadata]. *)
Theorem stored_users_always_validated
    (ops : list Operation) (w : World) (k : jsstring) (l : loc) :
  Map_get k (users (runAll ops (emptyService w))) = Some l ->
  isValid (validateUser (deref (runAll ops (emptyService w)) l)) = true /\
  (isUser (deref (runAll ops (emptyService w)) l) = true <->
   negb (inOp "metadata" (deref (runAll ops (emptyService w)) l))
   || isPlainObject (deref (runAll ops (emptyService w)) l).["metadata"] = true).
Proof.
  intros Hget.
  assert (Hv : isValid (validateUser (deref (runAll ops (emptyService w)) l)) = true).
  { apply (reachable_validated _ (runAll_reachable ops _ (reach_empty w)) k l Hget). }
  split; [exact Hv|].
  apply validateUser_valid in Hv as (Hobj & H1 & H2 & H3 & H4 & H5 & H6 & H7 & H8).
  unfold isUser. rewrite Hobj. cbn [negb].
  unfold idInvalid, nameInvalid, contactInvalid, ageInvalid, isActiveInvalid,
    tagsInvalid, createdAtInvalid, updatedAtInvalid in *.
  repeat match goal with
  | Hx : (_ || _) = false |- _ => apply orb_false_iff in Hx as [Hx ?]
  end.
  repeat match goal with
  | Hx : negb _ = false |- _ => apply negb_false_iff in Hx; rewrite Hx
  end.
  reflexivity.
Qed.

Lemma stored_users_always_validated_witness :
  Map_get testUserId
    (users (runAll [CreateUser testUser; GetUsers (pageOptions 1 10 None None)]
              (emptyService tickingWorld))) = Some 0 /\
  isValid (validateUser
             (deref (runAll [CreateUser testUser; GetUsers (pageOptions 1 10 None None)]
                       (emptyService tickingWorld)) 0)) = true.
Proof.
  assert (H : Map_get testUserId
    (users (runAll [CreateUser testUser; GetUsers (pageOptions 1 10 None None)]
              (emptyService tickingWorld))) = Some 0) by (vm_compute; reflexivity).
  split; [exact H|].
  exact (proj1 (stored_users_always_validated _ _ _ _ H)).
Defined.

(** X5.  After any sequence of operations on an empty service the user
    map is consistent: no id occurs twice, no object is stored under two
    ids, and every id of the map is one [validateUserId] accepts, bound
    to an object whose [id] member is that id. *)
Theorem store_always_consistent (ops : list Operation) (w : World) :
  storeConsistent (runAll ops (emptyService w)).
Proof.
  apply (runAll_invariant storeConsistent); [apply storeConsistent_step|].
  apply storeConsistent_empty.
Qed.

Section Lookups.

Lemma getUserById_absent id st :
  isNonEmptyString (VStr id) = true -> Map_get id (users st) = None ->
  getUserById id st =
  (Failure (BusinessError (js "NOT_FOUND") (js "User with ID " ++ id ++ js " not found")),
   st).
Proof. intros Hid Hget. unfold getUserById. rewrite Hid, Hget. reflexivity. Qed.

Lemma succeeds_deleteUser id st :
  succeeds (DeleteUser id) st = true ->
  exists r, getUserById id st = (Success r, st) /\
    step (DeleteUser id) st =
      {| heap := heap st; users := Map_delete id (users st);
         events := events st ++ [user_deleted (nthClock st 0) id r];
         world := advance st 1 0 |}.
Proof.
  cbn [succeeds step]. unfold run, exec. intros Hs.
  destruct (getUserById_cases id st) as [[r Hget] | [e Hget]].
  - exists r. rewrite (deleteUser_success _ _ _ Hget). split; [exact Hget | reflexivity].
  - rewrite (deleteUser_failure _ _ _ Hget) in Hs. discriminate Hs.
Qed.

Lemma succeeds_updateUser id updates st :
  succeeds (UpdateUser id updates) st = true ->
  exists old, getUserById id st = (Success old, st) /\
    typeofObject updates = true /\
    updateUser id updates st =
      (Success (length (heap st)),
       {| heap := heap st ++ [updatedUser st (deref st old) updates];
          users := Map_set id (length (heap st)) (users st);
          events := events st ++ [user_updated (nthClock st 1) id updates old];
          world := advance st 2 0 |}).
Proof.
  cbn [succeeds]. unfold run. intros Hs.
  destruct (getUserById_cases id st) as [[old Hget] | [e Hget]].
  - exists old. split; [exact Hget|].
    destruct (typeofObject updates) eqn:Ht.
    + split; [reflexivity|].
      destruct (isValid (validateUser
                  (VObj true (updatedUser st (deref st old) updates)))) eqn:Hv.
      * apply (updateUser_valid _ _ _ _ Hget Ht Hv).
      * rewrite (updateUser_invalid _ _ _ _ Hget Ht Hv) in Hs. discriminate Hs.
    + rewrite (updateUser_not_object _ _ _ _ Hget Ht) in Hs. discriminate Hs.
  - rewrite (updateUser_failure _ _ _ _ Hget) in Hs. discriminate Hs.
Qed.

Lemma js_inj_ne (a b : string) : a <> b -> js a <> js b.
Proof.
  intros Hab Heq. apply Hab. clear Hab. unfold js in Heq.
  revert b Heq. induction a as [|c a IH]; intros [|d b] Heq;
    try discriminate Heq; [reflexivity|].
  cbn in Heq. injection Heq as Hcd Hrest.
  apply (f_equal ascii_of_N) in Hcd. rewrite !ascii_N_embedding in Hcd.
  rewrite Hcd, (IH b Hrest). reflexivity.
Qed.

Lemma isUser_deref st l :
  isUser (deref st l) = true -> exists o, heap st !! l = Some o /\ deref st l = VObj true o.
Proof.
  unfold deref. destruct (heap st !! l) as [o|]; [|discriminate]. eauto.
Qed.

End Lookups.

(** X6.  Once [deleteUser] has succeeded for an id, the id is gone:
    [getUserById], [updateUser] and a second [deleteUser] on it answer
    NOT_FOUND and leave the state as it is.  Every other id is looked up
    as before, and the deleted object stays in the heap unchanged, as
    the [backup] of the one event the call appended. *)
Theorem deleteUser_then_not_found (id : jsstring) (st : State) :
  succeeds (DeleteUser id) st = true ->
  let st' := step (DeleteUser id) st in
  let notFound :=
    BusinessError (js "NOT_FOUND") (js "User with ID " ++ id ++ js " not found") in
  getUserById id st' = (Failure notFound, st') /\
  deleteUser id st' = (Failure notFound, st') /\
  (forall updates, updateUser id updates st' = (Failure notFound, st')) /\
  (forall id', id' <> id -> run (getUserById id') st' = run (getUserById id') st) /\
  exists backup,
    Map_get id (users st) = Some backup /\
    events st' = events st ++ [user_deleted (nthClock st 0) id backup] /\
    deref st' backup = deref st backup /\ isUser (deref st' backup) = true.
Proof.
  intros Hs st' notFound.
  destruct (succeeds_deleteUser _ _ Hs) as (r & Hget & Hst).
  apply getUserById_success in Hget as (_ & Hmap & Huser & Hid).
  assert (Habs : getUserById id st' = (Failure notFound, st')).
  { apply getUserById_absent; [exact Hid|].
    unfold st'. rewrite Hst. cbn [users]. apply Map_get_delete_eq. }
  split; [exact Habs|].
  split; [apply deleteUser_failure, Habs|].
  split; [intros updates; apply updateUser_failure, Habs|].
  split.
  - intros id' Hne. unfold run, getUserById, st'. rewrite Hst. cbn [users].
    rewrite (Map_get_delete_ne id id') by congruence.
    destruct (negb (isNonEmptyString (VStr id'))); [reflexivity|].
    destruct (Map_get id' (users st)) as [u|]; [|reflexivity].
    unfold deref. cbn [heap]. destruct (negb _); reflexivity.
  - exists r. split; [exact Hmap|].
    unfold st'. rewrite Hst. cbn [events]. split; [reflexivity|].
    unfold deref in *. cbn [heap]. split; [reflexivity | exact Huser].
Qed.

Lemma deleteUser_then_not_found_witness :
  succeeds (DeleteUser testUserId) serviceWithTestUser = true /\
  run (getUserById testUserId) (step (DeleteUser testUserId) serviceWithTestUser) =
  Failure (BusinessError (js "NOT_FOUND")
             (js "User with ID " ++ testUserId ++ js " not found")).
Proof.
  assert (H : succeeds (DeleteUser testUserId) serviceWithTestUser = true)
    by (vm_compute; reflexivity).
  split; [exact H|].
  pose proof (deleteUser_then_not_found testUserId serviceWithTestUser H) as [Hget _].
  unfold run. rewrite Hget. reflexivity.
Defined.

(** X7.  A successful [updateUser] does not touch the stored object: it
    builds a new one and binds the id to it.  The object held before
    stays in the heap unchanged (it is the [previousValues] of the one
    event appended, so a reference handed out earlier goes stale); in
    the new object [updatedAt] is the clock reading of the call, and
    every member other than [id], [createdAt] and [updatedAt] is the one
    of the updates when the updates have it, the old one otherwise. *)
Theorem updateUser_replaces_object (id : jsstring) (updates : value) (st : State) :
  succeeds (UpdateUser id updates) st = true ->
  exists old new st',
    updateUser id updates st = (Success new, st') /\
    Map_get id (users st) = Some old /\ Map_get id (users st') = Some new /\
    new <> old /\ deref st' old = deref st old /\
    events st' = events st ++ [user_updated (nthClock st 1) id updates old] /\
    (deref st' new).["updatedAt"] = VDate (Some (nthClock st 0)) /\
    (forall k, k <> "id" -> k <> "createdAt" -> k <> "updatedAt" ->
       (deref st' new).[k] =
       if inOp k (VObj true (spread updates))
       then (VObj true (spread updates)).[k] else (deref st old).[k]) /\
    (forall id', id' <> id -> Map_get id' (users st') = Map_get id' (users st)).
Proof.
  intros Hs. destruct (succeeds_updateUser _ _ _ Hs) as (old & Hget & Ht & Hupd).
  apply getUserById_success in Hget as (_ & Hmap & Huser & Hid).
  destruct (isUser_deref _ _ Huser) as (o & Ho & Hderef).
  pose proof (lookup_lt_Some _ _ _ Ho) as Hlt.
  eexists old, _, _. split; [exact Hupd|]. cbn [users events].
  split; [exact Hmap|]. split; [apply Map_get_set|]. split; [lia|].
  assert (Hnew : forall us es w,
    deref {| heap := heap st ++ [updatedUser st (deref st old) updates];
             users := us; events := es; world := w |} (length (heap st))
    = VObj true (updatedUser st (deref st old) updates)).
  { intros. unfold deref at 1. cbn [heap].
    rewrite list_lookup_middle by reflexivity. reflexivity. }
  rewrite Hnew. repeat split.
  - unfold deref. cbn [heap]. rewrite lookup_app_l by exact Hlt. reflexivity.
  - unfold getProp, updatedUser. rewrite lookup_insert_eq. reflexivity.
  - intros k Hk1 Hk2 Hk3. unfold getProp at 1, inOp, updatedUser.
    rewrite !lookup_insert_ne by (apply not_eq_sym, js_inj_ne; assumption).
    rewrite lookup_union. rewrite Hderef. cbn [spread].
    unfold getProp.
    destruct (spread updates !! js k) as [v|], (o !! js k) as [v'|]; reflexivity.
  - intros id' Hne. apply Map_get_set_ne. congruence.
Qed.

Lemma updateUser_replaces_object_witness :
  succeeds (UpdateUser testUserId intrusiveUpdates) serviceWithTestUser = true /\
  exists old new st',
    updateUser testUserId intrusiveUpdates serviceWithTestUser = (Success new, st') /\
    Map_get testUserId (users serviceWithTestUser) = Some old /\
    Map_get testUserId (users st') = Some new /\ new <> old.
Proof.
  assert (H : succeeds (UpdateUser testUserId intrusiveUpdates) serviceWithTestUser = true)
    by (vm_compute; reflexivity).
  split; [exact H|].
  destruct (updateUser_replaces_object testUserId intrusiveUpdates serviceWithTestUser H)
    as (old & new & st' & H1 & H2 & H3 & H4 & _).
  exists old, new, st'. repeat split; assumption.
Defined.

Section UpdateOutcome.

Lemma isSuccess_updateUser id updates st old :
  getUserById id st = (Success old, st) ->
  typeofObject updates = true ->
  isSuccess (run (updateUser id updates) st) =
  isValid (validateUser (VObj true (updatedUser st (deref st old) updates))).
Proof.
  intros Hget Ht. unfold run.
  destruct (isValid (validateUser
              (VObj true (updatedUser st (deref st old) updates)))) eqn:Hv.
  - rewrite (updateUser_valid _ _ _ _ Hget Ht Hv). reflexivity.
  - rewrite (updateUser_invalid _ _ _ _ Hget Ht Hv). reflexivity.
Qed.

Lemma negb_orb_false a b : negb a || negb b = false <-> a = true /\ b = true.
Proof. destruct a, b; simpl; intuition discriminate. Qed.

End UpdateOutcome.

(** X8.  Whether [updateUser] accepts an update of a user it finds
    depends only on five members of the merged object
    [{ ...existingUser, ...updates }]: [name], [contact], [age],
    [isActive] and [tags].  The [id], [createdAt] and [updatedAt]
    members of the updates are never looked at, and updates that carry
    none of the five members are accepted (an empty object, an array or
    a Date included). *)
Theorem updateUser_outcome (id : jsstring) (updates : value) (st : State) (old : loc) :
  getUserById id st = (Success old, st) ->
  typeofObject updates = true ->
  let merged := VObj true (spread updates ∪ spread (deref st old)) in
  (isSuccess (run (updateUser id updates) st) = true <->
   nameInvalid merged = false /\ contactInvalid merged = false /\
   ageInvalid merged = false /\ isActiveInvalid merged = false /\
   tagsInvalid merged = false) /\
  ((forall field, field ∈ ["name"; "contact"; "age"; "isActive"; "tags"] ->
      spread updates !! js field = None) ->
   isSuccess (run (updateUser id updates) st) = true).
Proof.
  intros Hget Ht merged.
  rewrite (isSuccess_updateUser _ _ _ _ Hget Ht).
  apply getUserById_success in Hget as (_ & _ & Huser & _).
  destruct (isUser_deref _ _ Huser) as (o & _ & Hderef).
  unfold merged. rewrite Hderef in *. cbn [spread]. clear merged.
  rewrite isUser_members in Huser. unfold userChecks in Huser. cbn beta zeta in Huser.
  split_checks Huser.
  assert (Hiff : isValid (validateUser (VObj true (updatedUser st (VObj true o) updates)))
                 = true <->
    nameInvalid (VObj true (spread updates ∪ o)) = false /\
    contactInvalid (VObj true (spread updates ∪ o)) = false /\
    ageInvalid (VObj true (spread updates ∪ o)) = false /\
    isActiveInvalid (VObj true (spread updates ∪ o)) = false /\
    tagsInvalid (VObj true (spread updates ∪ o)) = false).
  { rewrite validateUser_valid.
    unfold idInvalid, nameInvalid, contactInvalid, ageInvalid, isActiveInvalid,
      tagsInvalid, createdAtInvalid, updatedAtInvalid, updatedUser.
    unfold inOp, getProp. cbn [spread].
    rewrite ?lookup_insert. decide_keys.
    destruct (o !! js "id") as [i|]; [|discriminate].
    destruct (o !! js "createdAt") as [c|]; [|discriminate].
    cbn [default from_option Datatypes.id] in *.
    assert (Hi : negb (bool_decide (is_Some (Some i))) || negb (isNonEmptyString i) = false).
    { apply negb_orb_false. split; [reflexivity | assumption]. }
    assert (Hcr : negb (bool_decide (is_Some (Some c))) || negb (isDate c) = false).
    { apply negb_orb_false. split; [reflexivity | assumption]. }
    rewrite Hi, Hcr. cbn [isObject is_Some bool_decide negb orb isDate].
    intuition reflexivity. }
  split; [exact Hiff|].
  intros Hnone. apply Hiff.
  unfold nameInvalid, contactInvalid, ageInvalid, isActiveInvalid, tagsInvalid.
  unfold inOp, getProp.
  rewrite !lookup_union_r
    by (apply Hnone; repeat first [apply list_elem_of_here | apply list_elem_of_further]).
  destruct (o !! js "name") as [v1|]; [|discriminate].
  destruct (o !! js "contact") as [v2|]; [|discriminate].
  destruct (o !! js "age") as [v3|]; [|discriminate].
  destruct (o !! js "isActive") as [v4|]; [|discriminate].
  destruct (o !! js "tags") as [v5|]; [|discriminate].
  cbn [default from_option Datatypes.id] in *.
  repeat match goal with
  | Hx : _ = true |- _ => rewrite Hx; clear Hx
  end.
  repeat split.
Qed.

Lemma updateUser_outcome_witness :
  getUserById testUserId serviceWithTestUser = (Success 0, serviceWithTestUser) /\
  typeofObject (VArr []) = true /\
  isSuccess (run (updateUser testUserId (VArr [])) serviceWithTestUser) = true.
Proof.
  assert (Hget : getUserById testUserId serviceWithTestUser
                 = (Success 0, serviceWithTestUser)).
  { rewrite (run_exec (getUserById testUserId)). unfold exec.
    rewrite getUserById_state. f_equal; vm_compute; reflexivity. }
  split; [exact Hget|]. split; [reflexivity|].
  apply (proj2 (updateUser_outcome testUserId (VArr []) serviceWithTestUser 0
                  Hget eq_refl)).
  intros field _. reflexivity.
Defined.

(** X9.  The status the [getUserById], [deleteUser] and [updateUser]
    controllers answer with: 400 for a blank id; 404 exactly when the id
    is not in the map; 500 when the stored object fails [isUser]
    (DATA_CORRUPTION); otherwise 200, except that an update which is
    not an object, or whose merged object fails [validateUser], gives
    400. *)
Theorem user_controllers_status (id : jsstring) (updates : value) (st : State) :
  let found (onUser : loc -> number) :=
    if negb (isNonEmptyString (VStr id)) then num 400
    else match Map_get id (users st) with
         | None => num 404
         | Some user => if isUser (deref st user) then onUser user else num 500
         end in
  userControllerStatus (run (getUserById id) st) 200 = found (fun _ => num 200) /\
  userControllerStatus (run (deleteUser id) st) 200 = found (fun _ => num 200) /\
  userControllerStatus (run (updateUser id updates) st) 200 =
    found (fun user =>
             if typeofObject updates
                && isValid (validateUser
                              (VObj true (updatedUser st (deref st user) updates)))
             then num 200 else num 400).
Proof.
  cbn zeta.
  destruct (isNonEmptyString (VStr id)) eqn:Hid; cbn [negb].
  2: { unfold run, deleteUser, updateUser, bind, getUserById. rewrite Hid.
       repeat split. }
  destruct (Map_get id (users st)) as [user|] eqn:Hmap.
  2: { pose proof (getUserById_absent _ _ Hid Hmap) as Hget.
       unfold run. rewrite (deleteUser_failure _ _ _ Hget),
         (updateUser_failure _ _ _ _ Hget), Hget. repeat split. }
  destruct (isUser (deref st user)) eqn:Huser.
  - pose proof (getUserById_found _ _ _ Hid Hmap Huser) as Hget.
    unfold run at 1 2. rewrite (deleteUser_success _ _ _ Hget), Hget.
    split; [reflexivity|]. split; [reflexivity|].
    destruct (typeofObject updates) eqn:Ht; cbn [andb].
    + pose proof (isSuccess_updateUser _ _ _ _ Hget Ht) as Hs. unfold run in *.
      destruct (isValid _) eqn:Hv.
      * rewrite (updateUser_valid _ _ _ _ Hget Ht Hv). reflexivity.
      * rewrite (updateUser_invalid _ _ _ _ Hget Ht Hv). reflexivity.
    + unfold run. rewrite (updateUser_not_object _ _ _ _ Hget Ht). reflexivity.
  - assert (Hget : getUserById id st =
      (Failure (BusinessError (js "DATA_CORRUPTION")
                  (js "Stored user data is corrupted")), st)).
    { unfold getUserById. rewrite Hid, Hmap, Huser. reflexivity. }
    unfold run. rewrite (deleteUser_failure _ _ _ Hget),
      (updateUser_failure _ _ _ _ Hget), Hget. repeat split.
Qed.

Section Pages.



End Pages.



Section Events.

Lemma getProp_obj k' k v rest :
  getProp k' (obj ((k, v) :: rest)) =
  if decide (js k = js k') then v else getProp k' (obj rest).
Proof.
  unfold obj, props, getProp. cbn [fmap list_fmap prod_map fst snd list_to_map foldr].
  unfold prod_map. cbn [fst snd]. rewrite lookup_insert.
  destruct (decide (js k = js k')); reflexivity.
Qed.

Lemma inOp_obj k' k v rest :
  inOp k' (obj ((k, v) :: rest)) =
  if decide (js k = js k') then true else inOp k' (obj rest).
Proof.
  unfold obj, props, inOp. cbn [fmap list_fmap prod_map fst snd list_to_map foldr].
  unfold prod_map. cbn [fst snd]. rewrite lookup_insert.
  destruct (decide (js k = js k')); reflexivity.
Qed.

Lemma inOp_obj_nil k : inOp k (obj []) = false.
Proof. reflexivity. Qed.

Lemma isAPIEvent_created st t user :
  isAPIEvent (eventValue st (user_created t user)) = isUser (deref st user).
Proof.
  unfold isAPIEvent, eventValue.
  rewrite ?getProp_obj, ?inOp_obj, ?inOp_obj_nil. decide_keys.
  cbn [isObject obj negb orb isString isDate isLiteral bool_decide].
  rewrite (bool_decide_eq_true_2 (js "user_created" = js "user_created")) by reflexivity.
  rewrite ?getProp_obj, ?inOp_obj, ?inOp_obj_nil. decide_keys.
  destruct (isUser (deref st user)); reflexivity.
Qed.

Lemma isAPIEvent_updated st t userId changes previousValues :
  isNonEmptyString (VStr userId) = true ->
  isObject (deref st previousValues) = true ->
  isAPIEvent (eventValue st (user_updated t userId changes previousValues))
  = isObject changes.
Proof.
  intros Hid Hprev. unfold isAPIEvent, eventValue.
  rewrite ?getProp_obj, ?inOp_obj, ?inOp_obj_nil. decide_keys.
  cbn [isObject obj negb orb isString isDate isLiteral bool_decide].
  rewrite (bool_decide_eq_false_2 (js "user_updated" = js "user_created")) by keys_ne.
  rewrite (bool_decide_eq_true_2 (js "user_updated" = js "user_updated")) by reflexivity.
  rewrite ?getProp_obj, ?inOp_obj, ?inOp_obj_nil. decide_keys.
  rewrite Hid, Hprev. cbn [andb].
  replace (isNonEmptyString (VStr (js "api"))) with true by (vm_compute; reflexivity).
  destruct (isObject changes); reflexivity.
Qed.

Lemma isAPIEvent_deleted st t userId backup :
  isNonEmptyString (VStr userId) = true ->
  isUser (deref st backup) = true ->
  isAPIEvent (eventValue st (user_deleted t userId backup)) = true.
Proof.
  intros Hid Hb. unfold isAPIEvent, eventValue.
  rewrite ?getProp_obj, ?inOp_obj, ?inOp_obj_nil. decide_keys.
  cbn [isObject obj negb orb isString isDate isLiteral bool_decide].
  rewrite (bool_decide_eq_false_2 (js "user_deleted" = js "user_created")) by keys_ne.
  rewrite (bool_decide_eq_false_2 (js "user_deleted" = js "user_updated")) by keys_ne.
  rewrite (bool_decide_eq_true_2 (js "user_deleted" = js "user_deleted")) by reflexivity.
  rewrite ?getProp_obj, ?inOp_obj, ?inOp_obj_nil. decide_keys.
  rewrite Hid, Hb. cbn [andb isString negb orb].
  replace (isNonEmptyString (VStr (js "api"))) with true by (vm_compute; reflexivity).
  reflexivity.
Qed.

Lemma deref_grows st st' os l :
  heap st' = heap st ++ os -> isObject (deref st l) = true -> deref st' l = deref st l.
Proof.
  intros Hh. unfold deref. rewrite Hh.
  destruct (heap st !! l) as [o|] eqn:Hl; [|discriminate].
  intros _. rewrite lookup_app_l by (apply lookup_lt_Some in Hl; exact Hl).
  rewrite Hl. reflexivity.
Qed.

Lemma isUser_isObject v : isUser v = true -> isObject v = true.
Proof. unfold isUser. destruct (isObject v); [reflexivity | discriminate]. Qed.

Lemma isValid_isObject v : isValid (validateUser v) = true -> isObject v = true.
Proof. intros H. apply validateUser_valid in H as [H _]. exact H. Qed.

Lemma eventWellFormed_grows st st' os e :
  heap st' = heap st ++ os -> eventWellFormed st e -> eventWellFormed st' e.
Proof.
  intros Hh. destruct e as [t u | t i c p | t i b]; cbn [eventWellFormed].
  - intros H. rewrite (deref_grows _ _ _ _ Hh (isValid_isObject _ H)). exact H.
  - intros (H1 & H2 & H3).
    rewrite (deref_grows _ _ _ _ Hh (isUser_isObject _ H3)). auto.
  - intros (H1 & H3).
    rewrite (deref_grows _ _ _ _ Hh (isUser_isObject _ H3)). auto.
Qed.

Lemma eventsWellFormed_step op st :
  Forall (eventWellFormed st) (events st) ->
  Forall (eventWellFormed (step op st)) (events (step op st)).
Proof.
  intros Hall.
  destruct (step_heap op st) as (os & Hh & _).
  assert (Hold : Forall (eventWellFormed (step op st)) (events st)).
  { eapply Forall_impl; [exact Hall|]. intros e. apply (eventWellFormed_grows _ _ _ _ Hh). }
  clear Hh.
  destruct (step_cases op st)
    as [(_ & _ & He & _)
       | [(ud & -> & _ & Hv & Hst)
         | [(id & u & old & -> & _ & Hget & Ht & _ & Hst)
           | (id & r & -> & _ & Hget & Hst)]]].
  - rewrite He. exact Hold.
  - rewrite Hst in *. cbn [events] in *. apply Forall_app. split; [exact Hold|].
    apply Forall_singleton. cbn [eventWellFormed]. unfold deref. cbn [heap].
    rewrite list_lookup_middle by reflexivity.
    apply validateUser_system_members; [exact Hv | apply nthId_nonEmpty].
  - rewrite Hst in *. cbn [events] in *. apply Forall_app. split; [exact Hold|].
    apply Forall_singleton. cbn [eventWellFormed].
    apply getUserById_success in Hget as (_ & _ & Huser & Hid).
    split; [exact Hid|]. split; [exact Ht|].
    erewrite deref_grows; [exact Huser | reflexivity | apply isUser_isObject, Huser].
  - rewrite Hst in *. cbn [events] in *. apply Forall_app. split; [exact Hold|].
    apply Forall_singleton. cbn [eventWellFormed].
    apply getUserById_success in Hget as (_ & _ & Huser & Hid).
    split; [exact Hid|]. exact Huser.
Qed.

Lemma Sorted_weaken {A} (R R' : A -> A -> Prop) (l : list A) :
  (forall a b, R a b -> R' a b) -> Sorted R l -> Sorted R' l.
Proof.
  intros HR. induction 1 as [|x l _ IH Hhd]; constructor; [exact IH|].
  destruct Hhd; constructor. apply HR. assumption.
Qed.

Lemma newestFirst_antisym a b : (0 < newestFirst a b)%Z -> (newestFirst b a <= 0)%Z.
Proof. unfold newestFirst. lia. Qed.

End Events.

(** X11.  [getEvents] always succeeds and leaves the state as it is.
    Its result holds exactly the logged events that pass [isAPIEvent]
    and, when the filter names a type, have that type (an absent or
    empty [type] selects every type), each as often as the log has it,
    ordered by timestamp, newest first. *)
Theorem getEvents_result (filterType : option jsstring) (st : State) :
  exists es,
    getEvents filterType st = (Success es, st) /\
    Sorted (fun a b => (eventTime b <= eventTime a)%Z) es /\
    es ≡ₚ selectedEvents st filterType /\
    (forall e, e ∈ es <->
       e ∈ events st /\ isAPIEvent (eventValue st e) = true /\
       (forall c t, filterType = Some (c :: t) -> js (eventType e) = c :: t)).
Proof.
  eexists. split; [reflexivity|]. split; [|split; [apply sort_perm|]].
  - eapply Sorted_weaken; [|apply (sort_sorted _ newestFirst newestFirst_antisym)].
    intros a b. unfold newestFirst. cbn beta. lia.
  - intros e. rewrite sort_perm. unfold selectedEvents.
    destruct filterType as [[|c t]|]; cbn zeta; rewrite ?list_elem_of_filter.
    + split; [intros [H1 H2]; repeat split; [assumption..|discriminate]|].
      intros (H1 & H2 & _). auto.
    + split.
      * intros (H1 & H2 & H3). repeat split; try assumption.
        intros c' t' Heq. injection Heq as <- <-. exact H1.
      * intros (H1 & H2 & H3). repeat split; try assumption. apply (H3 c t eq_refl).
    + split; [intros [H1 H2]; repeat split; [assumption..|discriminate]|].
      intros (H1 & H2 & _). auto.
Qed.

(** X12.  Which logged events [getEvents] hands out, in a state reached
    from an empty service by the operations alone (no caller assigns to
    an object it was handed): every deletion; an update exactly when its
    updates were not an array; a creation exactly when the created user
    passes [isUser] now, that is, when its [metadata] is absent or a
    plain object. *)
Theorem logged_event_accepted (ops : list Operation) (w : World) (e : APIEvent) :
  e ∈ events (runAll ops (emptyService w)) ->
  isAPIEvent (eventValue (runAll ops (emptyService w)) e) =
  match e with
  | user_created _ user => isUser (deref (runAll ops (emptyService w)) user)
  | user_updated _ _ changes _ => negb (isArray changes)
  | user_deleted _ _ _ => true
  end.
Proof.
  intros Hin.
  assert (Hall : Forall (eventWellFormed (runAll ops (emptyService w)))
                   (events (runAll ops (emptyService w)))).
  { apply (runAll_invariant (fun st => Forall (eventWellFormed st) (events st)));
      [apply eventsWellFormed_step | constructor]. }
  rewrite Forall_forall in Hall. specialize (Hall e Hin).
  destruct e as [t u | t i c p | t i b]; cbn [eventWellFormed] in Hall.
  - apply isAPIEvent_created.
  - destruct Hall as (H1 & H2 & H3).
    rewrite isAPIEvent_updated by (try apply isUser_isObject; assumption).
    destruct c; try discriminate H2; reflexivity.
  - destruct Hall as (H1 & H3). apply isAPIEvent_deleted; assumption.
Qed.

Lemma logged_event_accepted_witness :
  user_updated (nthClock serviceWithTestUser 1) testUserId (VArr []) 0
    ∈ events (runAll [CreateUser testUser; UpdateUser testUserId (VArr [])]
                (emptyService tickingWorld)) /\
  isAPIEvent
    (eventValue (runAll [CreateUser testUser; UpdateUser testUserId (VArr [])]
                   (emptyService tickingWorld))
       (user_updated (nthClock serviceWithTestUser 1) testUserId (VArr []) 0)) = false.
Proof.
  assert (H : user_updated (nthClock serviceWithTestUser 1) testUserId (VArr []) 0
    ∈ events (runAll [CreateUser testUser; UpdateUser testUserId (VArr [])]
                (emptyService tickingWorld))).
  { apply list_elem_of_In. vm_compute. right; left; reflexivity. }
  split; [exact H|].
  exact (logged_event_accepted _ _ _ H).
Defined.

(* ===================================================================== *)
(** * 11. Further properties of the validators *)
(* ===================================================================== *)

Section Validators.

Lemma isUser_checks (v : value) :
  isUser v = true <->
  isValid (validateUser v) = true /\
  (negb (inOp "metadata" v) || isPlainObject v.["metadata"]) = true.
Proof.
  rewrite validateUser_valid. unfold isUser.
  unfold idInvalid, nameInvalid, contactInvalid, ageInvalid, isActiveInvalid,
    tagsInvalid, createdAtInvalid, updatedAtInvalid.
  destruct (isObject v); cbn [negb]; [|intuition discriminate].
  rewrite !andb_true_iff, !orb_false_iff, !negb_false_iff. tauto.
Qed.

Lemma report_snoc (v : value) (F : RequiredField) (l : list RequiredField) :
  report (fieldInvalid F v) (fieldName F) (fieldMessage F) v
    (fieldError v <$> filter (fun G => fieldInvalid G v = true) l)
  = fieldError v <$> filter (fun G => fieldInvalid G v = true) (l ++ [F]).
Proof.
  rewrite filter_app, fmap_app, filter_cons, filter_nil. unfold report.
  destruct (fieldInvalid F v); cbn [decide_rel]; [reflexivity|].
  rewrite app_nil_r. reflexivity.
Qed.

Lemma collectErrors_filter (v : value) :
  collectErrors v
  = fieldError v <$> filter (fun F => fieldInvalid F v = true) requiredFields.
Proof.
  pose proof (report_snoc v) as Hsnoc.
  change (collectErrors v) with
    (report (fieldInvalid f_updatedAt v) (fieldName f_updatedAt) (fieldMessage f_updatedAt) v
    (report (fieldInvalid f_createdAt v) (fieldName f_createdAt) (fieldMessage f_createdAt) v
    (report (fieldInvalid f_tags v) (fieldName f_tags) (fieldMessage f_tags) v
    (report (fieldInvalid f_isActive v) (fieldName f_isActive) (fieldMessage f_isActive) v
    (report (fieldInvalid f_age v) (fieldName f_age) (fieldMessage f_age) v
    (report (fieldInvalid f_contact v) (fieldName f_contact) (fieldMessage f_contact) v
    (report (fieldInvalid f_name v) (fieldName f_name) (fieldMessage f_name) v
    (report (fieldInvalid f_id v) (fieldName f_id) (fieldMessage f_id) v
       (fieldError v <$> filter (fun G => fieldInvalid G v = true) []))))))))).
  rewrite !Hsnoc. reflexivity.
Qed.

Lemma forEachAssert_all guard f i items :
  forallb guard items = true -> forEachAssert guard f i items = Returned tt.
Proof.
  revert i. induction items as [|x items IH]; intros i; [reflexivity|].
  cbn [forallb forEachAssert]. intros H. apply andb_true_iff in H as [Hx Hrest].
  rewrite Hx. cbn [negb]. apply IH, Hrest.
Qed.

End Validators.

(** X13.  [isUser] and [validateUser] differ by one check only: a value
    passes [isUser] exactly when [validateUser] reports it valid and its
    [metadata] member is absent or a plain object. *)
Theorem isUser_is_validateUser_and_metadata (v : value) :
  isUser v =
  isValid (validateUser v) && (negb (inOp "metadata" v) || isPlainObject v.["metadata"]).
Proof.
  destruct (isUser v) eqn:Hu.
  - apply isUser_checks in Hu as [-> ->]. reflexivity.
  - destruct (isValid (validateUser v)) eqn:Hv; [|reflexivity].
    destruct (negb (inOp "metadata" v) || isPlainObject v.["metadata"]) eqn:Hm;
      [|reflexivity].
    assert (Hu' : isUser v = true) by (apply isUser_checks; split; assumption).
    congruence.
Qed.

(** X14.  [validateUser] does not stop at the first failing check: for
    an object its error list holds one entry for every required field
    whose check fails, in the order id, name, contact, age, isActive,
    tags, createdAt, updatedAt, and nothing else; for a value that is
    not an object it is the single [root] entry.  The result is valid
    exactly when the list is empty, and [data] is the input itself when
    it is valid and absent otherwise. *)
Theorem validateUser_reports_every_failure (v : value) :
  errors (validateUser v) =
    (if isObject v
     then fieldError v <$> filter (fun F => fieldInvalid F v = true) requiredFields
     else [{| field := js "root"; message := js "Value is not an object";
              offending := v |}]) /\
  (isValid (validateUser v) = true <-> errors (validateUser v) = []) /\
  data (validateUser v) = (if isValid (validateUser v) then Some v else None).
Proof.
  destruct (isObject v) eqn:Hobj.
  - rewrite (validateUser_errors v Hobj), <- collectErrors_filter.
    split; [reflexivity|].
    unfold validateUser. rewrite Hobj. cbn [negb].
    destruct (collectErrors v) as [|e es]; cbn [length Nat.eqb isValid errors data].
    + split; [split; reflexivity | reflexivity].
    + split; [split; discriminate | reflexivity].
  - unfold validateUser. rewrite Hobj. cbn [negb isValid errors data].
    split; [reflexivity|]. split; [split; discriminate | reflexivity].
Qed.

Section Roles.

Lemma isLiteral_true s v : isLiteral s v = true -> v = VStr (js s).
Proof.
  destruct v; try discriminate. cbn [isLiteral]. intros H.
  apply bool_decide_eq_true in H. congruence.
Qed.

End Roles.

(** X15.  [isAdminUser] and [isRegularUser] never both accept a value:
    each accepts only values [isUser] accepts, and the first requires
    the [role] to be 'admin', the second 'user'. *)
Theorem admin_and_regular_exclusive (v : value) :
  (isAdminUser v = true ->
   isUser v = true /\ v.["role"] = VStr (js "admin") /\ isRegularUser v = false) /\
  (isRegularUser v = true ->
   isUser v = true /\ v.["role"] = VStr (js "user") /\ isAdminUser v = false).
Proof.
  unfold isAdminUser, isRegularUser.
  destruct (isUser v); cbn [negb]; [|split; discriminate].
  split; intros H; split_checks H.
  - apply isLiteral_true in Hc3 as Hrole. rewrite Hrole.
    split; [reflexivity|]. split; [reflexivity|].
    rewrite H. reflexivity.
  - apply isLiteral_true in Hc0 as Hrole. rewrite Hrole.
    split; [reflexivity|]. split; [reflexivity|].
    rewrite H. reflexivity.
Qed.

Lemma admin_and_regular_exclusive_witness :
  isAdminUser (obj (("role", VStr (js "admin")) :: ("permissions", VArr []) ::
                    ("age", VNum (num 30)) :: agelessMembers)) = true /\
  isRegularUser (obj (("role", VStr (js "admin")) :: ("permissions", VArr []) ::
                      ("age", VNum (num 30)) :: agelessMembers)) = false.
Proof.
  assert (H : isAdminUser (obj (("role", VStr (js "admin")) :: ("permissions", VArr []) ::
                                ("age", VNum (num 30)) :: agelessMembers)) = true)
    by (vm_compute; reflexivity).
  split; [exact H|].
  exact (proj2 (proj2 (proj1 (admin_and_regular_exclusive _) H))).
Defined.

(** X16.  [safeUserProcessing] returns its argument exactly when
    [validateUser] reports it valid; the three assertions it makes after
    [assertIsUser] (on [name], [age] and [tags]) never throw.  Otherwise
    it throws the ValidationError of [assertIsUser], for field
    'userData', whose [expected] lists the messages of all failing
    checks, joined by ', '. *)
Theorem safeUserProcessing_outcome (data : value) :
  safeUserProcessing data =
  if isValid (validateUser data) then Returned data
  else Thrown (newValidationError (js "userData") data
                 (js "User object. Errors: "
                  ++ join (js ", ") (message <$> errors (validateUser data)))).
Proof.
  unfold safeUserProcessing, assertIsUser.
  destruct (isValid (validateUser data)) eqn:Hv; cbn [negb andThen]; [|reflexivity].
  apply validateUser_valid in Hv as (_ & _ & Hname & _ & Hage & _ & Htags & _).
  unfold nameInvalid, ageInvalid, tagsInvalid in *.
  rewrite !orb_false_iff, !negb_false_iff in *.
  destruct Hname as [_ Hname]. destruct Hage as [[_ Hage] _].
  destruct Htags as [[_ Harr] Hevery].
  unfold assertIsNonEmptyString, assertIsPositiveNumber, assertIsArrayOf.
  rewrite Hname, Hage, Harr. cbn [negb andThen].
  destruct (data.["tags"]) as [| | | | | | | items |]; try discriminate Harr.
  cbn [every] in Hevery. rewrite (forEachAssert_all _ _ _ _ Hevery). reflexivity.
Qed.

(** X17.  [assertIsArrayOf] returns exactly when [isArrayOf] holds.  On
    an array with an element the guard rejects it throws for the first
    such element: the error names the field as [fieldName[index]] with
    the index of that element and carries the element as its value.  On
    a value that is not an array the error names [fieldName] itself. *)
Theorem assertIsArrayOf_first_failure
    (v : value) (elementGuard : value -> bool) (fieldName : jsstring) :
  (assertIsArrayOf v elementGuard fieldName = Returned tt <->
   isArrayOf v elementGuard = true) /\
  (forall before item after,
     v = VArr (before ++ item :: after) ->
     forallb elementGuard before = true -> elementGuard item = false ->
     assertIsArrayOf v elementGuard fieldName =
     Thrown (newValidationError
               (fieldName ++ js "[" ++ decimal (Z.of_nat (length before)) ++ js "]")
               item (js "valid array element"))) /\
  (isArray v = false ->
   assertIsArrayOf v elementGuard fieldName =
   Thrown (newValidationError fieldName v (js "array"))).
Proof.
  assert (Hfirst : forall before item after k,
    forallb elementGuard before = true -> elementGuard item = false ->
    forEachAssert elementGuard fieldName k (before ++ item :: after) =
    Thrown (newValidationError
              (fieldName ++ js "[" ++ decimal (Z.of_nat (k + length before)) ++ js "]")
              item (js "valid array element"))).
  { induction before as [|x before IH]; intros item after k Hb Hitem.
    - cbn [app forEachAssert length]. rewrite Hitem, Nat.add_0_r. reflexivity.
    - cbn [forallb] in Hb. apply andb_true_iff in Hb as [Hx Hb].
      cbn [app forEachAssert length]. rewrite Hx. cbn [negb].
      rewrite (IH item after (S k) Hb Hitem), Nat.add_succ_r. reflexivity. }
  assert (Hall : forall items k,
    forEachAssert elementGuard fieldName k items = Returned tt ->
    forallb elementGuard items = true).
  { induction items as [|x items IH]; intros k; [reflexivity|].
    cbn [forEachAssert forallb]. destruct (elementGuard x); cbn [negb andb];
      [apply IH | discriminate]. }
  split; [|split].
  - unfold assertIsArrayOf, isArrayOf.
    destruct v; cbn [isArray negb andb every]; try (split; discriminate).
    split; [apply Hall | apply forEachAssert_all].
  - intros before item after -> Hb Hitem. unfold assertIsArrayOf. cbn [isArray negb].
    apply (Hfirst before item after 0 Hb Hitem).
  - intros Harr. unfold assertIsArrayOf. rewrite Harr. reflexivity.
Qed.

(* ===================================================================== *)
(** * 12. The regular expressions *)
(* ===================================================================== *)

Section Regex.

Lemma matches_fail_inv s : matches RFail s <-> False.
Proof. split; [inversion 1 | tauto]. Qed.

Lemma matches_empty_inv s : matches REmpty s <-> s = [].
Proof. split; [inversion 1; reflexivity | intros ->; constructor]. Qed.

Lemma matches_class_inv p s : matches (RClass p) s <-> exists c, s = [c] /\ p c = true.
Proof.
  split.
  - inversion 1; subst. eauto.
  - intros (c & -> & Hc). constructor. exact Hc.
Qed.

Lemma matches_seq_inv r1 r2 s :
  matches (RSeq r1 r2) s <-> exists s1 s2, s = s1 ++ s2 /\ matches r1 s1 /\ matches r2 s2.
Proof.
  split.
  - inversion 1; subst. eauto.
  - intros (s1 & s2 & -> & H1 & H2). constructor; assumption.
Qed.

Lemma matches_alt_inv r1 r2 s : matches (RAlt r1 r2) s <-> matches r1 s \/ matches r2 s.
Proof.
  split.
  - inversion 1; subst; auto.
  - intros [H|H]; [apply matches_alt_l | apply matches_alt_r]; exact H.
Qed.

Lemma nullable_matches r : nullable r = true <-> matches r [].
Proof.
  induction r as [| |p|r1 IH1 r2 IH2|r1 IH1 r2 IH2|r IH]; cbn [nullable].
  - rewrite matches_fail_inv. split; [discriminate | tauto].
  - rewrite matches_empty_inv. tauto.
  - rewrite matches_class_inv. split; [discriminate|]. intros (c & Hc & _). discriminate.
  - rewrite andb_true_iff, IH1, IH2, matches_seq_inv. split.
    + intros [H1 H2]. exists [], []. auto.
    + intros (s1 & s2 & Heq & H1 & H2). symmetry in Heq.
      apply app_eq_nil in Heq as [-> ->]. auto.
  - rewrite orb_true_iff, IH1, IH2, matches_alt_inv. tauto.
  - split; [constructor | reflexivity].
Qed.

(** A match of [r*] on a non-empty string starts with a non-empty
    match of [r]. *)
Lemma matches_star_cons r c s :
  matches (RStar r) (c :: s) ->
  exists s1 s2, s = s1 ++ s2 /\ matches r (c :: s1) /\ matches (RStar r) s2.
Proof.
  intros H. remember (RStar r) as r' eqn:Hr. remember (c :: s) as cs eqn:Hcs.
  revert r c s Hr Hcs.
  induction H as [| | | | | |r0 s1 s2 H1 _ H2 IH2]; intros rr cc ss Hr Hcs;
    try discriminate.
  injection Hr as ->.
  destruct s1 as [|c1 s1].
  - cbn in Hcs. apply (IH2 rr cc ss eq_refl Hcs).
  - cbn in Hcs. injection Hcs as -> <-. exists s1, s2. auto.
Qed.

Lemma deriv_matches r c s : matches (deriv c r) s <-> matches r (c :: s).
Proof.
  revert s.
  induction r as [| |p|r1 IH1 r2 IH2|r1 IH1 r2 IH2|r IH]; intros s; cbn [deriv].
  - rewrite !matches_fail_inv. tauto.
  - rewrite matches_fail_inv, matches_empty_inv. split; [tauto | discriminate].
  - rewrite matches_class_inv. destruct (p c) eqn:Hp.
    + rewrite matches_empty_inv. split.
      * intros ->. eauto.
      * intros (c' & Heq & _). injection Heq as _ ->. reflexivity.
    + rewrite matches_fail_inv. split; [tauto|].
      intros (c' & Heq & Hc'). injection Heq as -> ->. congruence.
  - assert (Hseq : matches (RSeq r1 r2) (c :: s) <->
              matches (RSeq (deriv c r1) r2) s \/
              (matches r1 [] /\ matches r2 (c :: s))).
    { rewrite !matches_seq_inv. split.
      - intros (s1 & s2 & Heq & H1 & H2). destruct s1 as [|c1 s1].
        + cbn in Heq. subst s2. right. auto.
        + cbn in Heq. injection Heq as -> ->. left.
          exists s1, s2. split; [reflexivity|]. split; [apply IH1, H1 | exact H2].
      - intros [(s1 & s2 & -> & H1 & H2) | [H1 H2]].
        + exists (c :: s1), s2. split; [reflexivity|].
          split; [apply IH1, H1 | exact H2].
        + exists [], (c :: s). auto. }
    rewrite Hseq, <- nullable_matches.
    destruct (nullable r1) eqn:Hn.
    + rewrite matches_alt_inv, IH2. tauto.
    + split; [tauto|]. intros [H|[H _]]; [exact H | discriminate H].
  - rewrite !matches_alt_inv, IH1, IH2. tauto.
  - rewrite matches_seq_inv. split.
    + intros (s1 & s2 & -> & H1 & H2).
      apply IH in H1. apply (matches_star_app _ (c :: s1) s2 H1 H2).
    + intros H. apply matches_star_cons in H as (s1 & s2 & -> & H1 & H2).
      exists s1, s2. split; [reflexivity|]. split; [apply IH, H1 | exact H2].
Qed.

Lemma test_matches r s : test r s = true <-> matches r s.
Proof.
  revert r. induction s as [|c s IH]; intros r; cbn [test].
  - apply nullable_matches.
  - rewrite IH. apply deriv_matches.
Qed.

Lemma matches_char a s : matches (RChar a) s <-> s = [N_of_ascii a].
Proof.
  unfold RChar. rewrite matches_class_inv. split.
  - intros (c & -> & Hc). apply N.eqb_eq in Hc. congruence.
  - intros ->. eexists. split; [reflexivity | apply N.eqb_refl].
Qed.

Lemma matches_star_class p s : matches (RStar (RClass p)) s <-> forallb p s = true.
Proof.
  split.
  - revert s. induction s as [|c s IH]; [reflexivity|].
    intros H. apply matches_star_cons in H as (s1 & s2 & -> & H1 & H2).
    apply matches_class_inv in H1 as (c' & Heq & Hc). injection Heq as -> ->.
    cbn [app forallb] in *. rewrite Hc. apply IH, H2.
  - induction s as [|c s IH]; [constructor|].
    cbn [forallb]. intros H. apply andb_true_iff in H as [Hc Hs].
    apply (matches_star_app _ [c] s); [constructor; exact Hc | apply IH, Hs].
Qed.

Lemma matches_plus_class p s :
  matches (RPlus (RClass p)) s <-> s <> [] /\ forallb p s = true.
Proof.
  unfold RPlus. rewrite matches_seq_inv. split.
  - intros (s1 & s2 & -> & H1 & H2).
    apply matches_class_inv in H1 as (c & -> & Hc). apply matches_star_class in H2.
    split; [discriminate|]. cbn [app forallb]. rewrite Hc, H2. reflexivity.
  - intros [Hne H]. destruct s as [|c s]; [congruence|].
    cbn [forallb] in H. apply andb_true_iff in H as [Hc Hs].
    exists [c], s. split; [reflexivity|].
    split; [constructor; exact Hc | apply matches_star_class, Hs].
Qed.

End Regex.

(** X18.  [isValidEmail] accepts exactly the strings of the form
    [local@domain.tld] in which the three parts are non-empty and hold
    neither white space nor an at sign (a dot is allowed in each of
    them). *)
Theorem isValidEmail_shape (email : jsstring) :
  isValidEmail email = true <->
  exists local domain tld,
    email = local ++ js "@" ++ domain ++ js "." ++ tld /\
    local <> [] /\ domain <> [] /\ tld <> [] /\
    forallb notSpaceAt (local ++ domain ++ tld) = true.
Proof.
  unfold isValidEmail. rewrite test_matches. unfold emailRegex.
  split.
  - intros H.
    apply matches_seq_inv in H as (a & s1 & -> & Ha & H).
    apply matches_seq_inv in H as (at_ & s2 & -> & Hat & H).
    apply matches_seq_inv in H as (b & s3 & -> & Hb & H).
    apply matches_seq_inv in H as (dot & c & -> & Hdot & Hc).
    apply matches_char in Hat, Hdot. subst.
    apply matches_plus_class in Ha as [Ha1 Ha2], Hb as [Hb1 Hb2], Hc as [Hc1 Hc2].
    exists a, b, c. repeat split; try assumption.
    rewrite !forallb_app, Ha2, Hb2, Hc2. reflexivity.
  - intros (a & b & c & -> & Ha & Hb & Hc & Hall).
    rewrite !forallb_app, !andb_true_iff in Hall. destruct Hall as (Ha2 & Hb2 & Hc2).
    apply matches_seq; [apply matches_plus_class; auto|].
    apply matches_seq; [apply matches_char; reflexivity|].
    apply matches_seq; [apply matches_plus_class; auto|].
    apply matches_seq; [apply matches_char; reflexivity|].
    apply matches_plus_class; auto.
Qed.

(** X19.  [isValidPhoneNumber] accepts exactly the strings made of an
    optional leading plus sign followed by a non-empty run of digits,
    white space, hyphens and parentheses, with at least ten digits in
    all. *)
Theorem isValidPhoneNumber_shape (phone : jsstring) :
  isValidPhoneNumber phone = true <->
  exists body,
    (phone = body \/ phone = js "+" ++ body) /\
    body <> [] /\ forallb phoneChar body = true /\
    10 <= length (filter (fun c => isDigit c = true) body).
Proof.
  unfold isValidPhoneNumber. rewrite andb_true_iff, test_matches, Nat.leb_le.
  unfold phoneRegex, ROpt.
  rewrite matches_seq_inv. split.
  - intros [(s1 & body & -> & H1 & H2) Hlen].
    apply matches_plus_class in H2 as [Hne Hall].
    apply matches_alt_inv in H1 as [H1|H1].
    + apply matches_empty_inv in H1. subst s1. exists body. cbn [app] in *. auto.
    + apply matches_char in H1. subst s1. exists body.
      rewrite filter_app in Hlen. cbn in Hlen. auto.
  - intros (body & [-> | ->] & Hne & Hall & Hlen).
    + split; [|exact Hlen]. exists [], body. split; [reflexivity|].
      split; [apply matches_alt_l; constructor | apply matches_plus_class; auto].
    + split; [|rewrite filter_app; cbn; exact Hlen].
      exists (js "+"), body. split; [reflexivity|].
      split; [apply matches_alt_r, matches_char; reflexivity
             | apply matches_plus_class; auto].
Qed.

Section Ids.

Lemma isUserId_shape (s : jsstring) :
  isUserId s = true <->
  exists t, s = js "user_" ++ t /\ t <> [] /\ forallb isAlphaNumeric t = true.
Proof.
  unfold isUserId. rewrite test_matches. unfold userIdRegex. split.
  - intros H.
    apply matches_seq_inv in H as (c1 & s1 & -> & H1 & H).
    apply matches_seq_inv in H as (c2 & s2 & -> & H2 & H).
    apply matches_seq_inv in H as (c3 & s3 & -> & H3 & H).
    apply matches_seq_inv in H as (c4 & s4 & -> & H4 & H).
    apply matches_seq_inv in H as (c5 & t & -> & H5 & H).
    apply matches_char in H1, H2, H3, H4, H5. subst.
    apply matches_plus_class in H as [Hne Hall]. exists t. auto.
  - intros (t & -> & Hne & Hall).
    apply (matches_seq _ _ (js "u")); [apply matches_char; reflexivity|].
    apply (matches_seq _ _ (js "s")); [apply matches_char; reflexivity|].
    apply (matches_seq _ _ (js "e")); [apply matches_char; reflexivity|].
    apply (matches_seq _ _ (js "r")); [apply matches_char; reflexivity|].
    apply (matches_seq _ _ (js "_")); [apply matches_char; reflexivity|].
    apply matches_plus_class; auto.
Qed.

End Ids.

(** X20.  Every id [generateId] makes, whatever the clock and the random
    suffix, is accepted by [validateUserId] (it is non-blank and starts
    with [user_]) but is not a [UserId] for the [isUserId] of
    [type-guards-examples.ts]: that one accepts [user_] followed by
    letters and digits only, and a generated id has a second
    underscore. *)
Theorem generated_id_routable_not_branded (st : State) :
  isRoutableUserId (run generateId st) = true /\
  isUserId (run generateId st) = false /\
  (forall s, isUserId s = true <->
     exists t, s = js "user_" ++ t /\ t <> [] /\ forallb isAlphaNumeric t = true).
Proof.
  change (run generateId st) with (nthId st 0 0).
  split; [apply nthId_routable|]. split; [|apply isUserId_shape].
  destruct (isUserId (nthId st 0 0)) eqn:H; [|reflexivity].
  apply isUserId_shape in H as (t & Heq & _ & Hall).
  unfold nthId in Heq. apply app_inv_head in Heq. subst t.
  rewrite !forallb_app in Hall. cbn in Hall.
  rewrite andb_false_r in Hall. discriminate Hall.
Qed.

Section CreateOutcome.

Lemma isSuccess_createUser userData st :
  isSuccess (run (createUser userData) st) =
  isValid (validateUser (VObj true (candidate st userData))).
Proof.
  unfold run.
  destruct (isValid (validateUser (VObj true (candidate st userData)))) eqn:Hv.
  - rewrite (createUser_valid _ _ Hv). reflexivity.
  - rewrite (createUser_invalid _ _ Hv). reflexivity.
Qed.

End CreateOutcome.

(** X21.  Whether [createUser] accepts an input depends on the input
    alone, not on the clock or the generated id: the five fields [name],
    [contact], [age], [isActive] and [tags] must pass their checks, and
    an [id], [createdAt] or [updatedAt] member, where the input has one
    of its own, must pass its check too, although [createUser] then
    replaces all three. *)
Theorem createUser_outcome (userData : value) (st : State) :
  let input := VObj true (spread userData) in
  isSuccess (run (createUser userData) st) = true <->
  (forall F, F ∈ [f_name; f_contact; f_age; f_isActive; f_tags] ->
     fieldInvalid F input = false) /\
  (forall F, F ∈ [f_id; f_createdAt; f_updatedAt] ->
     inOp (fieldName F) input = true -> fieldInvalid F input = false).
Proof.
  cbn zeta. rewrite isSuccess_createUser, validateUser_valid.
  unfold candidate, userLiteral.
  assert (Hfive : forall k : string,
    k <> "id" -> k <> "createdAt" -> k <> "updatedAt" ->
    (spread userData ∪
       <[js "updatedAt" := VDate (Some (nthClock st 2))]>
         (<[js "createdAt" := VDate (Some (nthClock st 1))]>
            (<[js "id" := VStr (nthId st 0 0)]> ∅))) !! js k
    = spread userData !! js k).
  { intros k H1 H2 H3. rewrite lookup_union.
    rewrite !lookup_insert_ne by (apply not_eq_sym, js_inj_ne; assumption).
    rewrite lookup_empty. destruct (spread userData !! js k); reflexivity. }
  pose proof (nthId_nonEmpty st 0 0) as Hid.
  rewrite <- !Forall_forall, !Forall_cons, !Forall_nil.
  cbn [fieldInvalid fieldName].
  unfold idInvalid, nameInvalid, contactInvalid, ageInvalid, isActiveInvalid,
    tagsInvalid, createdAtInvalid, updatedAtInvalid, inOp, getProp.
  rewrite !(Hfive "name"), !(Hfive "contact"), !(Hfive "age"), !(Hfive "isActive"),
    !(Hfive "tags") by discriminate.
  clear Hfive.
  rewrite !lookup_union, !lookup_insert. decide_keys. rewrite ?lookup_empty.
  destruct (spread userData !! js "id") as [i|],
    (spread userData !! js "createdAt") as [c|],
    (spread userData !! js "updatedAt") as [u|];
    cbn [union option_union union_with option_union_with default from_option
         Datatypes.id is_Some bool_decide negb orb isObject isDate];
    rewrite ?Hid; cbn [negb orb]; intuition (try discriminate; auto).
Qed.

(* ===================================================================== *)
(** * 13. The routes: middleware in front of the service *)
(* ===================================================================== *)

(** X22.  Behind the [validateUserId] middleware the service never
    answers INVALID_ID: [getUserById] and [deleteUser] fail with
    NOT_FOUND or DATA_CORRUPTION only.  Behind [validateUserUpdate] as
    well, [updateUser] never answers INVALID_UPDATES: it fails with
    NOT_FOUND, DATA_CORRUPTION or INVALID_UPDATED_DATA only, and the
    updates it is given are an object that is not an array. *)
Theorem routes_error_codes (id : jsstring) (body : value) (st : State) :
  isRoutableUserId id = true ->
  (forall e, run (getUserById id) st = Failure e ->
     errorCode e = Some (js "NOT_FOUND") \/ errorCode e = Some (js "DATA_CORRUPTION")) /\
  (forall e, run (deleteUser id) st = Failure e ->
     errorCode e = Some (js "NOT_FOUND") \/ errorCode e = Some (js "DATA_CORRUPTION")) /\
  (isUserUpdateBody body = true ->
   isObject body = true /\
   forall e, run (updateUser id body) st = Failure e ->
     errorCode e = Some (js "NOT_FOUND") \/ errorCode e = Some (js "DATA_CORRUPTION") \/
     errorCode e = Some (js "INVALID_UPDATED_DATA")).
Proof.
  intros Hid. unfold isRoutableUserId in Hid. apply andb_true_iff in Hid as [Hid _].
  assert (Hget : forall e, getUserById id st = (Failure e, st) ->
    errorCode e = Some (js "NOT_FOUND") \/ errorCode e = Some (js "DATA_CORRUPTION")).
  { intros e. unfold getUserById. rewrite Hid. cbn [negb].
    destruct (Map_get id (users st)) as [user|].
    - destruct (negb (isUser (deref st user))); [|discriminate].
      intros H. injection H as <-. right. reflexivity.
    - intros H. injection H as <-. left. reflexivity. }
  split; [|split].
  - intros e He. apply Hget. unfold run in He.
    destruct (getUserById_cases id st) as [[r Hr] | [e' He']];
      rewrite ?Hr, ?He' in He; cbn [fst] in He; congruence.
  - intros e He. unfold run in He.
    destruct (getUserById_cases id st) as [[r Hr] | [e' He']].
    + rewrite (deleteUser_success _ _ _ Hr) in He. discriminate He.
    + rewrite (deleteUser_failure _ _ _ He') in He. cbn [fst] in He.
      injection He as <-. apply Hget, He'.
  - intros Hbody. unfold isUserUpdateBody in Hbody.
    destruct (typeofObject body) eqn:Ht; cbn [negb] in Hbody; [|discriminate].
    assert (Hobj : isObject body = true).
    { destruct body; try discriminate Ht; try reflexivity; discriminate Hbody. }
    split; [exact Hobj|].
    intros e He. unfold run in He.
    destruct (getUserById_cases id st) as [[r Hr] | [e' He']].
    + destruct (isValid (validateUser
                  (VObj true (updatedUser st (deref st r) body)))) eqn:Hv.
      * rewrite (updateUser_valid _ _ _ _ Hr Ht Hv) in He. discriminate He.
      * rewrite (updateUser_invalid _ _ _ _ Hr Ht Hv) in He. cbn [fst] in He.
        injection He as <-. right; right. reflexivity.
    + rewrite (updateUser_failure _ _ _ _ He') in He. cbn [fst] in He.
      injection He as <-. destruct (Hget _ He'); auto.
Qed.

Lemma routes_error_codes_witness :
  isRoutableUserId (js "user_0_missing") = true /\
  (forall e, run (deleteUser (js "user_0_missing")) serviceWithTestUser = Failure e ->
     errorCode e = Some (js "NOT_FOUND") \/ errorCode e = Some (js "DATA_CORRUPTION")).
Proof.
  assert (H : isRoutableUserId (js "user_0_missing") = true) by (vm_compute; reflexivity).
  split; [exact H|].
  exact (proj1 (proj2 (routes_error_codes (js "user_0_missing") VUndefined
                         serviceWithTestUser H))).
Defined.

(* ===================================================================== *)
(** * 14. The React front end *)
(* ===================================================================== *)

Section Form.

Lemma lookup_props_cons k' k v rest :
  props ((k, v) :: rest) !! js k' =
  if decide (js k = js k') then Some v else props rest !! js k'.
Proof.
  unfold props. cbn [fmap list_fmap prod_map fst snd list_to_map foldr].
  unfold prod_map. cbn [fst snd]. apply lookup_insert.
Qed.

Lemma lookup_props_nil k : props [] !! js k = None.
Proof. reflexivity. Qed.

Lemma forallb_trim s : forallb isWhiteSpace (trim s) = forallb isWhiteSpace s.
Proof.
  unfold trim, trimEnd, trimStart.
  rewrite forallb_rev, forallb_dropWhile, forallb_rev, forallb_dropWhile. reflexivity.
Qed.

Lemma isNonEmptyString_trim s : isNonEmptyString (VStr (trim s)) = isNonEmptyString (VStr s).
Proof. rewrite !isNonEmptyString_spec, forallb_trim. reflexivity. Qed.

Lemma isInteger_num (z : Z) : isInteger (VNum (num z)) = true.
Proof.
  unfold isInteger, isNumber, Number_isInteger, num, inject_Z.
  cbn [isNaN isFinite negb andb Qnum Qden]. rewrite Z.rem_1_r. reflexivity.
Qed.

Lemma parseInt10_cases s : parseInt10 s = NaN \/ exists z, parseInt10 s = num z.
Proof.
  unfold parseInt10.
  destruct (match trimStart s with
            | [] => (false, [])
            | c :: t =>
                if (c =? N_of_ascii "-")%N then (true, t)
                else if (c =? N_of_ascii "+")%N then (false, t)
                else (false, trimStart s)
            end) as [negative s2].
  destruct (takeWhile isDigit s2); [left; reflexivity | right; eauto].
Qed.

Lemma every_isString_strings (l : list jsstring) : forallb isString (VStr <$> l) = true.
Proof. induction l as [|x l IH]; [reflexivity | exact IH]. Qed.

End Form.

(** X23.  A form [validateUserForm] reports valid yields a user, with no
    errors, and that user passes [isUser]: the [assertIsUser] the form
    component calls next returns, and the reducer's ADD_USER appends the
    user. *)
Theorem validateUserForm_builds_users (now createdAt updatedAt : Z) (data : value) :
  formValid (validateUserForm now createdAt updatedAt data) = true ->
  exists user,
    formUser (validateUserForm now createdAt updatedAt data) = Some user /\
    formErrors (validateUserForm now createdAt updatedAt data) = [] /\
    isUser (VObj true user) = true /\
    assertIsUser (VObj true user) (js "value") = Returned tt /\
    forall clock state,
      appUsers (appReducer clock state (ADD_USER (VObj true user)))
      = appUsers state ++ [VObj true user].
Proof.
  unfold validateUserForm.
  destruct (isUserFormData data) eqn:Hform; cbn [negb]; [|discriminate].
  unfold isUserFormData in Hform. split_checks Hform.
  cbn zeta.
  destruct (bool_decide (trim (stringOf data.["name"]) = [])) eqn:Hname;
    [destruct (negb (test emailRegex (stringOf data.["email"]))),
       (isNaN _ || _ || _), (length _ =? 0); discriminate|].
  destruct (test emailRegex (stringOf data.["email"])) eqn:Hemail; cbn [negb];
    [|destruct (isNaN _ || _ || _), (length _ =? 0); discriminate].
  destruct (isNaN (parseInt10 (stringOf data.["age"]))
            || num_lt (parseInt10 (stringOf data.["age"])) (num 1)
            || num_gt (parseInt10 (stringOf data.["age"])) (num 120)) eqn:Hage;
    [destruct (length _ =? 0); discriminate|].
  destruct (length _ =? 0) eqn:Htags; [discriminate|].
  cbn [formReport length Nat.ltb Nat.leb formValid formUser formErrors]. intros _.
  eexists. split; [reflexivity|]. split; [reflexivity|].
  match goal with |- isUser ?u = true /\ _ => assert (Huser : isUser u = true) end.
  { rewrite isUser_members, !lookup_props_cons, !lookup_props_nil. decide_keys.
    unfold userChecks. cbn beta zeta.
    cbn [default from_option Datatypes.id is_Some bool_decide negb orb andb isDate isArray
         every].
    apply bool_decide_eq_false in Hname.
    rewrite isNonEmptyString_trim, every_isString_strings, Hc.
    assert (Hid : isNonEmptyString (VStr (js "user_" ++ decimal now)) = true)
      by (apply isNonEmptyString_cons; reflexivity).
    rewrite Hid.
    rewrite isNonEmptyString_spec.
    destruct (forallb isWhiteSpace (stringOf data.["name"])) eqn:Hws;
      [apply trim_nil_iff in Hws; contradiction|].
    assert (Hcontact : isContactInfo (obj [("email", VStr (stringOf data.["email"]))]) = true).
    { unfold isContactInfo.
      rewrite !getProp_obj, !inOp_obj, !inOp_obj_nil. decide_keys.
      unfold isValidEmail. rewrite Hemail. reflexivity. }
    rewrite Hcontact.
    rewrite !orb_false_iff in Hage. destruct Hage as [[Hnan Hlow] Hhigh].
    destruct (parseInt10_cases (stringOf data.["age"])) as [Hp | [z Hp]];
      rewrite Hp in *; [discriminate Hnan|].
    rewrite num_lt_num in Hlow. apply Z.ltb_ge in Hlow.
    rewrite isPositiveNumber_num, isInteger_num.
    replace (0 <? z)%Z with true by (symmetry; apply Z.ltb_lt; lia).
    reflexivity. }
  split; [exact Huser|]. split.
  - unfold assertIsUser. apply isUser_checks in Huser as [-> _]. reflexivity.
  - intros clock state. cbn [appReducer]. rewrite Huser. reflexivity.
Qed.

Lemma validateUserForm_builds_users_witness :
  formValid (validateUserForm 1700000000000 1700000000001 1700000000002
               (obj [("name", VStr (js " Ada "));
                     ("email", VStr (js "ada@example.com"));
                     ("age", VStr (js "36"));
                     ("tags", VStr (js "admin, ,staff"));
                     ("isActive", VBool true)])) = true /\
  exists user,
    formUser (validateUserForm 1700000000000 1700000000001 1700000000002
               (obj [("name", VStr (js " Ada "));
                     ("email", VStr (js "ada@example.com"));
                     ("age", VStr (js "36"));
                     ("tags", VStr (js "admin, ,staff"));
                     ("isActive", VBool true)])) = Some user /\
    isUser (VObj true user) = true.
Proof.
  assert (H : formValid (validateUserForm 1700000000000 1700000000001 1700000000002
               (obj [("name", VStr (js " Ada "));
                     ("email", VStr (js "ada@example.com"));
                     ("age", VStr (js "36"));
                     ("tags", VStr (js "admin, ,staff"));
                     ("isActive", VBool true)])) = true) by (vm_compute; reflexivity).
  split; [exact H|].
  destruct (validateUserForm_builds_users _ _ _ _ H) as (user & H1 & _ & H2 & _).
  exists user. split; assumption.
Defined.

Section Reducer.

Lemma slice_99 {A} (l : list A) : slice l (num 0) (num 99) = take 99 l.
Proof. apply (slice_window l 0 99). lia. Qed.

Lemma appReducer_events now state action :
  length (appEvents state) <= 100 ->
  Forall (fun e => isAPIEvent e = true) (appEvents state) ->
  length (appEvents (appReducer now state action)) <= 100 /\
  Forall (fun e => isAPIEvent e = true) (appEvents (appReducer now state action)).
Proof.
  intros Hlen Hall.
  destruct action; cbn [appReducer appEvents]; try (split; assumption).
  - destruct (isUser payload); cbn [negb appEvents]; split; assumption.
  - destruct (isAPIEvent payload) eqn:He; cbn [negb appEvents];
      [|split; assumption].
    rewrite slice_99. split.
    + cbn [length]. rewrite length_take. lia.
    + constructor; [exact He | apply Forall_take, Hall].
  - split; [cbn; lia | constructor].
Qed.

End Reducer.

(** X24.  Whatever is dispatched to [appReducer] from the initial state,
    the event list of the state never holds more than 100 events, and
    every event in it has passed [isAPIEvent]. *)
Theorem appReducer_event_log (actions : list ((nat -> Z) * AppAction)) :
  length (appEvents (dispatchAll actions initialState)) <= 100 /\
  Forall (fun e => isAPIEvent e = true) (appEvents (dispatchAll actions initialState)).
Proof.
  assert (Hinv : forall state,
    length (appEvents state) <= 100 /\
    Forall (fun e => isAPIEvent e = true) (appEvents state) ->
    length (appEvents (dispatchAll actions state)) <= 100 /\
    Forall (fun e => isAPIEvent e = true) (appEvents (dispatchAll actions state))).
  { induction actions as [|[now action] actions IH]; intros state Hst; [exact Hst|].
    cbn [dispatchAll]. apply IH. destruct Hst. apply appReducer_events; assumption. }
  apply Hinv. split; [cbn; lia | constructor].
Qed.
